(** * Storage nodes S2 (PDF) and S4 (ZIP) of the distributed file store

    A shallow embedding of [s2.c] and of its sibling node (the ZIP server):
    command dispatch, path translation, directory materialisation, upload,
    download, removal, recursive listing and the tar export.

    C strings are lists of characters (the terminating NUL is implicit),
    [int], [off_t] and [ssize_t] values are [Z], and [size_t] buffer
    arithmetic is [nat].  The file system is a finite tree with ordered
    directory entries; the system calls the servers use are functions on
    that tree.  Socket writes and file reads consult a script of outcomes,
    so that short writes and failing reads are inputs of the model. *)

From Stdlib Require Import String Ascii ZArith Lia Bool List.
Import ListNotations.

Set Implicit Arguments.

(** ** C strings *)

Definition cstr := list ascii.
Definition bytes := list ascii.

Definition lit (s : string) : cstr := list_ascii_of_string s.

Definition BUFFER_SIZE : nat := 1024.
Definition MAX_PATH_LEN : nat := 1024.

(** [strcmp(a, b) == 0] *)
Definition streq (a b : cstr) : bool :=
  if list_eq_dec ascii_dec a b then true else false.

(** [strrchr(s, c)]: the suffix of [s] that starts at the last [c]. *)
Fixpoint strrchr (s : cstr) (c : ascii) : option cstr :=
  match s with
  | [] => None
  | x :: s' =>
      match strrchr s' c with
      | Some r => Some r
      | None => if Ascii.eqb x c then Some s else None
      end
  end.

(** [snprintf(buf, size, fmt, ...)]: at most [size - 1] characters of the
    formatted text are stored. *)
Definition snprintf (size : nat) (formatted : cstr) : cstr :=
  firstn (size - 1) formatted.

(** [strncat(dest, src, n)]: at most [n] characters of [src] are appended. *)
Definition strncat (dest src : cstr) (n : nat) : cstr :=
  dest ++ firstn n src.

(** [p + k] on a [char *] that points to a string of at least [k]
    characters.  (On a shorter string the C pointer leaves the token; the
    virtual paths of the protocol all start with the three characters of
    the root marker.) *)
Definition ptr_add (p : cstr) (k : nat) : cstr := skipn k p.

(** The text before the first NUL of a buffer. *)
Fixpoint c_string (buf : bytes) : cstr :=
  match buf with
  | [] => []
  | c :: buf' => if Ascii.eqb c zero then [] else c :: c_string buf'
  end.

(** The pieces of [s] between the occurrences of the delimiter [d]. *)
Fixpoint split_on (d : ascii) (s : cstr) : list cstr :=
  match s with
  | [] => [[]]
  | c :: s' =>
      if Ascii.eqb c d then [] :: split_on d s'
      else match split_on d s' with
           | [] => [[c]]
           | w :: ws => (c :: w) :: ws
           end
  end.

Definition nonempty (s : cstr) : bool :=
  match s with [] => false | _ => true end.

(** The successive results of [strtok(buffer, " ")], [strtok(NULL, " ")], ... *)
Definition strtok_all (s : cstr) : list cstr :=
  filter nonempty (split_on " "%char s).

Definition is_slash (c : ascii) : bool := Ascii.eqb c "/"%char.

Fixpoint drop_slashes (s : cstr) : cstr :=
  match s with
  | [] => []
  | c :: s' => if is_slash c then drop_slashes s' else s
  end.

(** [basename(path)] of <libgen.h>. *)
Definition basename (path : cstr) : cstr :=
  match path with
  | [] => lit "."
  | _ =>
      match rev (drop_slashes (rev path)) with
      | [] => lit "/"
      | p => match strrchr p "/"%char with
             | Some (_ :: r) => r
             | _ => p
             end
      end
  end.

(** [s] ends in [suf]. *)
Definition ends_with (suf s : cstr) : Prop := exists pre, s = pre ++ suf.

Definition ends_withb (suf s : cstr) : bool :=
  streq (skipn (length s - length suf) s) suf && (length suf <=? length s).

(** The [sizeof(off_t)] = 8 bytes of an [off_t], least significant first. *)
Fixpoint le_bytes (n : nat) (z : Z) : bytes :=
  match n with
  | O => []
  | S k => ascii_of_N (Z.to_N (z mod 256)) :: le_bytes k (z / 256)
  end.

Definition sizeof_off_t : nat := 8.
Definition off_t_bytes (z : Z) : bytes := le_bytes sizeof_off_t z.

Definition LF : ascii := "010"%char.

(** ** The file system *)

#[warnings="-register-all"]
Inductive node : Type :=
| File (data : bytes)
| Dir (writable : bool) (ents : list (cstr * node)).

Inductive errno : Type :=
| EEXIST | ENOENT | ENOTDIR | EISDIR | EACCES | ENOTEMPTY | EINVAL | EIO.

Inductive res (A : Type) : Type :=
| Ok (a : A)
| Err (e : errno).
Arguments Err {A} e.

Fixpoint assoc (k : cstr) (l : list (cstr * node)) : option node :=
  match l with
  | [] => None
  | (k', v) :: l' => if streq k k' then Some v else assoc k l'
  end.

Fixpoint set_entry (k : cstr) (v : node) (l : list (cstr * node))
  : list (cstr * node) :=
  match l with
  | [] => [(k, v)]
  | (k', v') :: l' =>
      if streq k k' then (k, v) :: l' else (k', v') :: set_entry k v l'
  end.

Fixpoint del_entry (k : cstr) (l : list (cstr * node)) : list (cstr * node) :=
  match l with
  | [] => []
  | (k', v') :: l' =>
      if streq k k' then del_entry k l' else (k', v') :: del_entry k l'
  end.

(** The node at a canonical path (a list of names from the root). *)
Fixpoint lookup (p : list cstr) (n : node) : option node :=
  match p with
  | [] => Some n
  | k :: p' =>
      match n with
      | Dir _ ents =>
          match assoc k ents with
          | Some m => lookup p' m
          | None => None
          end
      | File _ => None
      end
  end.

(** Bind the name at the end of [p] to [new] (in an existing directory). *)
Fixpoint put (p : list cstr) (new : node) (n : node) : node :=
  match p with
  | [] => new
  | k :: p' =>
      match n with
      | Dir w ents =>
          match assoc k ents with
          | Some m => Dir w (set_entry k (put p' new m) ents)
          | None =>
              match p' with
              | [] => Dir w (set_entry k new ents)
              | _ => n
              end
          end
      | File _ => n
      end
  end.

(** Remove the name at the end of [p]. *)
Fixpoint del (p : list cstr) (n : node) : node :=
  match p with
  | [] => n
  | k :: p' =>
      match n with
      | Dir w ents =>
          match p' with
          | [] => Dir w (del_entry k ents)
          | _ =>
              match assoc k ents with
              | Some m => Dir w (set_entry k (del p' m) ents)
              | None => n
              end
          end
      | File _ => n
      end
  end.

Definition dir_writable (p : list cstr) (root : node) : bool :=
  match lookup p root with
  | Some (Dir w _) => w
  | _ => false
  end.

(** Path resolution, one component at a time: every component is looked up
    in a directory; the last one need not exist.  There are no symbolic
    links, and search permission is not modelled. *)
Fixpoint walk (root : node) (cur : list cstr) (comps : list cstr)
  : res (list cstr) :=
  match comps with
  | [] => Ok cur
  | c :: rest =>
      match lookup cur root with
      | Some (Dir _ _) =>
          if streq c (lit ".") then walk root cur rest
          else if streq c (lit "..") then walk root (removelast cur) rest
          else walk root (cur ++ [c]) rest
      | Some (File _) => Err ENOTDIR
      | None => Err ENOENT
      end
  end.

Record located : Type := {
  at_path : list cstr;   (* canonical path the name resolves to *)
  trailing : bool;       (* the path string ends in a slash *)
  named : bool           (* the last component is a name, not . or .. or / *)
}.

Definition components (path : cstr) : list cstr :=
  filter nonempty (split_on "/"%char path).

Definition is_name (c : cstr) : bool :=
  negb (streq c (lit ".")) && negb (streq c (lit "..")).

Definition resolve (root : node) (cwd : list cstr) (path : cstr) : res located :=
  match path with
  | [] => Err ENOENT
  | c0 :: _ =>
      let comps := components path in
      match walk root (if is_slash c0 then [] else cwd) comps with
      | Ok p =>
          Ok {| at_path := p;
                trailing := is_slash (last path c0);
                named := match rev comps with
                         | [] => false
                         | c :: _ => is_name c
                         end |}
      | Err e => Err e
      end
  end.

(** The existing node a path names. *)
Definition locate (root : node) (cwd : list cstr) (path : cstr) : res node :=
  match resolve root cwd path with
  | Err e => Err e
  | Ok l =>
      match lookup (at_path l) root with
      | None => Err ENOENT
      | Some (File d) => if trailing l then Err ENOTDIR else Ok (File d)
      | Some (Dir w ents) => Ok (Dir w ents)
      end
  end.

Record stat_t : Type := { st_isdir : bool; st_size : Z }.

(** [stat(path, &st)].  The [st_size] of a regular file is its length; that
    of a directory is what the file system makes of its entries ([dsz]):
    4096 for a small directory on ext4, 40 and more on tmpfs, 0 on
    procfs. *)
Definition stat (dsz : list (cstr * node) -> Z) (root : node)
    (cwd : list cstr) (path : cstr) : res stat_t :=
  match locate root cwd path with
  | Err e => Err e
  | Ok (File d) => Ok {| st_isdir := false; st_size := Z.of_nat (length d) |}
  | Ok (Dir _ ents) => Ok {| st_isdir := true; st_size := dsz ents |}
  end.

(** [mkdir(path, 0755)]: the new file system, or [errno]. *)
Definition mkdir (root : node) (cwd : list cstr) (path : cstr) : res node :=
  match resolve root cwd path with
  | Err e => Err e
  | Ok l =>
      match lookup (at_path l) root with
      | Some _ => Err EEXIST
      | None =>
          if dir_writable (removelast (at_path l)) root
          then Ok (put (at_path l) (Dir true []) root)
          else Err EACCES
      end
  end.

Fixpoint path_prefixb (p q : list cstr) : bool :=
  match p, q with
  | [], _ => true
  | a :: p', b :: q' => streq a b && path_prefixb p' q'
  | _ :: _, [] => false
  end.

Definition path_eqb (p q : list cstr) : bool :=
  path_prefixb p q && path_prefixb q p.

(** [rename(old, new)] within one file system. *)
Definition rename (root : node) (cwd : list cstr) (old new : cstr) : res node :=
  match resolve root cwd old with
  | Err e => Err e
  | Ok lo =>
      match resolve root cwd new with
      | Err e => Err e
      | Ok ln =>
          match lookup (at_path lo) root with
          | None => Err ENOENT
          | Some m =>
              if negb (named lo) || negb (named ln) then Err EINVAL
              else
                let moved :=
                  if dir_writable (removelast (at_path lo)) root
                     && dir_writable (removelast (at_path ln)) root
                  then Ok (put (at_path ln) m (del (at_path lo) root))
                  else Err EACCES in
                match m with
                | File _ =>
                    if trailing lo || trailing ln then Err ENOTDIR
                    else if path_eqb (at_path lo) (at_path ln) then Ok root
                    else match lookup (at_path ln) root with
                         | Some (Dir _ _) => Err EISDIR
                         | _ => moved
                         end
                | Dir _ _ =>
                    if path_eqb (at_path lo) (at_path ln) then Ok root
                    else match lookup (at_path ln) root with
                         | Some (File _) => Err ENOTDIR
                         | Some (Dir _ (_ :: _)) => Err ENOTEMPTY
                         | _ =>
                             if path_prefixb (at_path lo) (at_path ln)
                             then Err EINVAL else moved
                         end
                end
          end
      end
  end.

(** [unlink(path)] *)
Definition unlink (root : node) (cwd : list cstr) (path : cstr) : res node :=
  match resolve root cwd path with
  | Err e => Err e
  | Ok l =>
      match lookup (at_path l) root with
      | None => Err ENOENT
      | Some (Dir _ _) => Err EISDIR
      | Some (File _) =>
          if trailing l then Err ENOTDIR
          else if dir_writable (removelast (at_path l)) root
               then Ok (del (at_path l) root)
               else Err EACCES
      end
  end.

(** What a shell redirection or [tar -cf] does to its output file:
    create it, or replace its contents. *)
Definition create_file (root : node) (cwd : list cstr) (path : cstr)
    (data : bytes) : res node :=
  match resolve root cwd path with
  | Err e => Err e
  | Ok l =>
      match lookup (at_path l) root with
      | Some (Dir _ _) => Err EISDIR
      | Some (File _) =>
          if trailing l then Err ENOTDIR
          else Ok (put (at_path l) (File data) root)
      | None =>
          if trailing l then Err EISDIR
          else if dir_writable (removelast (at_path l)) root
               then Ok (put (at_path l) (File data) root)
               else Err EACCES
      end
  end.

(** Directory streams. *)
Inductive d_type_t : Type := DT_REG | DT_DIR.

Record dirent : Type := { d_name : cstr; d_type : d_type_t }.

Definition dirent_of (e : cstr * node) : dirent :=
  {| d_name := fst e;
     d_type := match snd e with File _ => DT_REG | Dir _ _ => DT_DIR end |}.

(** [opendir(path)] followed by the whole sequence of [readdir] results:
    the two traversal markers, then the entries in directory order. *)
Definition opendir (root : node) (cwd : list cstr) (path : cstr)
  : option (list dirent) :=
  match locate root cwd path with
  | Ok (Dir _ ents) =>
      Some ({| d_name := lit "."; d_type := DT_DIR |}
            :: {| d_name := lit ".."; d_type := DT_DIR |}
            :: map dirent_of ents)
  | _ => None
  end.

(** ** Connections, descriptors and the process state *)

(** Outcome of one [write] (or [sendfile]) on the socket: an error, or the
    number of bytes the peer takes at most.  Once the script is used up
    every write is taken whole. *)
Inductive wres : Type := WErr | WUpTo (n : nat).

Record sock : Type := {
  sent : bytes;          (* what has reached the peer *)
  wlog : list bytes;     (* the data handed to each write call, in order *)
  script : list wres     (* outcomes of the coming write calls *)
}.

(** Outcome of one [read] on a regular file: an error, or a bound on the
    bytes returned (0 is an unexpected end of file). *)
Inductive rres : Type := RErr | RUpTo (n : nat).

Record state : Type := {
  fs : node;
  sk : sock;
  rscript : list rres
}.

Record env : Type := {
  HOME : cstr;            (* getenv("HOME") *)
  cwd : list cstr;        (* working directory of the server *)
  dir_size : list (cstr * node) -> Z
                          (* st_size of a directory on this host *)
}.

Definition with_fs (st : state) (root : node) : state :=
  {| fs := root; sk := sk st; rscript := rscript st |}.

Definition with_sk (st : state) (s : sock) : state :=
  {| fs := fs st; sk := s; rscript := rscript st |}.

Definition sock_put (s : sock) (data : bytes) : Z * sock :=
  match script s with
  | [] =>
      (Z.of_nat (length data),
       {| sent := sent s ++ data; wlog := wlog s ++ [data]; script := [] |})
  | WErr :: k =>
      (-1, {| sent := sent s; wlog := wlog s ++ [data]; script := k |})%Z
  | WUpTo n :: k =>
      (Z.of_nat (length (firstn n data)),
       {| sent := sent s ++ firstn n data; wlog := wlog s ++ [data];
          script := k |})
  end.

(** [write(client_sock, buf, count)] *)
Definition write (st : state) (buf : bytes) (count : nat) : Z * state :=
  let (r, s) := sock_put (sk st) (firstn count buf) in (r, with_sk st s).

Record fdesc : Type := { fd_node : node; fd_off : nat }.

(** [open(path, O_RDONLY)] *)
Definition open (root : node) (cwd : list cstr) (path : cstr) : res fdesc :=
  match locate root cwd path with
  | Ok n => Ok {| fd_node := n; fd_off := 0 |}
  | Err e => Err e
  end.

Definition fd_avail (fd : fdesc) (count : nat) : bytes :=
  match fd_node fd with
  | File d => firstn count (skipn (fd_off fd) d)
  | Dir _ _ => []
  end.

Definition fd_skip (fd : fdesc) (n : nat) : fdesc :=
  {| fd_node := fd_node fd; fd_off := fd_off fd + n |}.

(** [read(fd, buffer, count)]: the return value, the bytes stored in the
    buffer, the advanced descriptor. *)
Definition read (st : state) (fd : fdesc) (count : nat)
  : Z * bytes * fdesc * state :=
  match fd_node fd with
  | Dir _ _ => ((-1)%Z, [], fd, st)
  | File _ =>
      match rscript st with
      | [] =>
          let got := fd_avail fd count in
          (Z.of_nat (length got), got, fd_skip fd (length got), st)
      | RErr :: k =>
          ((-1)%Z, [], fd, {| fs := fs st; sk := sk st; rscript := k |})
      | RUpTo n :: k =>
          let got := firstn n (fd_avail fd count) in
          (Z.of_nat (length got), got, fd_skip fd (length got),
           {| fs := fs st; sk := sk st; rscript := k |})
      end
  end.

(** [sendfile(client_sock, fd, NULL, count)] *)
Definition sendfile (st : state) (fd : fdesc) (count : nat)
  : Z * fdesc * state :=
  match fd_node fd with
  | Dir _ _ => ((-1)%Z, fd, st)
  | File _ =>
      let (r, s) := sock_put (sk st) (fd_avail fd count) in
      (r, fd_skip fd (Z.to_nat r), with_sk st s)
  end.

(** ** The two nodes

    The ZIP server is the PDF server with other strings; [tar_tmp] is the
    archive of the [downltar] command, which only the PDF server has. *)
Record Node : Type := {
  store : cstr;            (* directory under $HOME *)
  ext : cstr;              (* owned extension *)
  msg_only : cstr;
  msg_stored : cstr;
  msg_not_found : cstr;
  msg_open_failed : cstr;
  msg_deleted : cstr;
  tar_tmp : option cstr
}.

Definition S2 : Node := {|
  store := lit "S2";
  ext := lit ".pdf";
  msg_only := lit "ERROR: S2 only handles PDF files";
  msg_stored := lit "SUCCESS: PDF file stored in S2";
  msg_not_found := lit "ERROR: PDF file not found in S2";
  msg_open_failed := lit "ERROR: Failed to open PDF file";
  msg_deleted := lit "SUCCESS: PDF file deleted from S2";
  tar_tmp := Some (lit "/tmp/pdffiles.tar")
|}.

Definition S4 : Node := {|
  store := lit "S4";
  ext := lit ".zip";
  msg_only := lit "ERROR: S4 only handles ZIP files";
  msg_stored := lit "SUCCESS: ZIP file stored in S4";
  msg_not_found := lit "ERROR: ZIP file not found in S4";
  msg_open_failed := lit "ERROR: Failed to open ZIP file";
  msg_deleted := lit "SUCCESS: ZIP file deleted from S4";
  tar_tmp := None
|}.

(** [strrchr(name, '.')] gives the owned extension. *)
Definition has_ext (nd : Node) (name : cstr) : bool :=
  match strrchr name "."%char with
  | Some e => streq e (ext nd)
  | None => false
  end.

(** [snprintf(s2_path, MAX_PATH_LEN, "%s/S2%s", getenv("HOME"), suffix)] *)
Definition s2_path (nd : Node) (e : env) (suffix : cstr) : cstr :=
  snprintf MAX_PATH_LEN (HOME e ++ lit "/" ++ store nd ++ suffix).

(** The translation in [upload_file], [download_file] and [remove_file]:
    the suffix is [path + 3], which skips the root marker. *)
Definition local_path (nd : Node) (e : env) (path : cstr) : cstr :=
  s2_path nd e (ptr_add path 3).

(** The translation in [display_filenames], with its root case. *)
Definition listing_path (nd : Node) (e : env) (pathname : cstr) : cstr :=
  s2_path nd e (if streq pathname (lit "~S1") then []
                else ptr_add pathname 3).

(** ** The server *)

Section Server.

(** The archive format of [tar -cf]: the bytes of an archive with the given
    members (name and contents). *)
Variable tar_format : list (cstr * bytes) -> bytes.

Variable nd : Node.
Variable e : env.

(** The loop of [create_directory_tree]: [pre] is [tmp] up to [p], [rest]
    is the text at [p]; at every slash the prefix before it is created. *)
Fixpoint mkdir_segments (pre rest : cstr) (st : state) : bool * state :=
  match rest with
  | [] => (true, st)
  | c :: rest' =>
      if is_slash c then
        match mkdir (fs st) (cwd e) pre with
        | Ok root' => mkdir_segments (pre ++ [c]) rest' (with_fs st root')
        | Err EEXIST => mkdir_segments (pre ++ [c]) rest' st
        | Err _ => (false, st)
        end
      else mkdir_segments (pre ++ [c]) rest' st
  end.

Definition create_directory_tree (st : state) (path : cstr) : Z * state :=
  let tmp := snprintf MAX_PATH_LEN path in
  let (pre, rest) :=
    match tmp with
    | c :: t => if is_slash c then ([c], t) else ([], tmp)
    | [] => ([], [])
    end in
  let (ok, st1) := mkdir_segments pre rest st in
  if ok then
    match mkdir (fs st1) (cwd e) tmp with
    | Ok root' => (0%Z, with_fs st1 root')
    | Err EEXIST => (0%Z, st1)
    | Err _ => ((-1)%Z, st1)
    end
  else ((-1)%Z, st1).

Definition upload_file (st : state) (filename dest_path : cstr) : Z * state :=
  if negb (has_ext nd filename) then
    let (_, st1) := write st (msg_only nd) 31 in ((-1)%Z, st1)
  else
    let s2p := local_path nd e dest_path in
    let (r, st1) := create_directory_tree st s2p in
    if (r <? 0)%Z then
      let (_, st2) := write st1 (lit "ERROR: Failed to create directory") 32 in
      ((-1)%Z, st2)
    else
      let base_name := basename filename in
      let full_path := snprintf MAX_PATH_LEN (s2p ++ lit "/" ++ base_name) in
      match rename (fs st1) (cwd e) filename full_path with
      | Err _ =>
          let (_, st2) :=
            write st1 (lit "ERROR: Failed to move file to destination") 38 in
          ((-1)%Z, st2)
      | Ok root' =>
          let (_, st2) := write (with_fs st1 root') (msg_stored nd) 30 in
          (0%Z, st2)
      end.

Definition transfer_failed : cstr := lit "ERROR: File transfer failed".

(** The [while (remaining > 0)] loop of [download_file]; [fuel] bounds the
    number of iterations. *)
Fixpoint send_data (fuel : nat) (st : state) (fd : fdesc) (remaining : Z)
  : option (Z * state) :=
  if (remaining >? 0)%Z then
    match fuel with
    | O => None
    | S fuel' =>
        let count := if (remaining <? Z.of_nat BUFFER_SIZE)%Z
                     then Z.to_nat remaining else BUFFER_SIZE in
        let '(n, buffer, fd1, st1) := read st fd count in
        if (n <=? 0)%Z then
          let (_, st2) := write st1 transfer_failed 27 in Some ((-1)%Z, st2)
        else
          let (w, st2) := write st1 buffer (Z.to_nat n) in
          if negb (w =? n)%Z then
            let (_, st3) := write st2 transfer_failed 27 in Some ((-1)%Z, st3)
          else send_data fuel' st2 fd1 (remaining - n)
    end
  else Some (0%Z, st).

Definition download_file (fuel : nat) (st : state) (filename : cstr)
  : option (Z * state) :=
  let path := local_path nd e filename in
  match stat (dir_size e) (fs st) (cwd e) path with
  | Err _ =>
      let (_, st1) := write st (msg_not_found nd) 30 in Some ((-1)%Z, st1)
  | Ok s =>
      match open (fs st) (cwd e) path with
      | Err _ =>
          let (_, st1) := write st (msg_open_failed nd) 29 in
          Some ((-1)%Z, st1)
      | Ok fd =>
          let (w, st1) := write st (off_t_bytes (st_size s)) sizeof_off_t in
          if negb (w =? Z.of_nat sizeof_off_t)%Z then
            let (_, st2) :=
              write st1 (lit "ERROR: Failed to send file size") 31 in
            Some ((-1)%Z, st2)
          else send_data fuel st1 fd (st_size s)
      end
  end.

Definition remove_file (st : state) (filename : cstr) : Z * state :=
  let path := local_path nd e filename in
  match unlink (fs st) (cwd e) path with
  | Ok root' =>
      let (_, st1) := write (with_fs st root') (msg_deleted nd) 32 in
      (0%Z, st1)
  | Err _ =>
      let (_, st1) := write st (msg_not_found nd) 30 in ((-1)%Z, st1)
  end.

(** [find dir -type f -name "*.ext"]: the regular files below a directory
    whose name ends in the extension, with the path [find] prints. *)
Fixpoint find_files (path : cstr) (n : node) : list (cstr * bytes) :=
  match n with
  | File _ => []
  | Dir _ ents =>
      (fix each (l : list (cstr * node)) : list (cstr * bytes) :=
         match l with
         | [] => []
         | (k, m) :: l' =>
             match m with
             | File d =>
                 if ends_withb (ext nd) k
                 then [(path ++ lit "/" ++ k, d)] else []
             | Dir _ _ => find_files (path ++ lit "/" ++ k) m
             end ++ each l'
         end) ents
  end.

(** [system("find dir -type f -name \"*.ext\" | tar -cf tarfile -T -")]:
    the exit status is that of [tar], which writes the archive or fails. *)
Definition system_find_tar (st : state) (dir tarfile : cstr) : Z * state :=
  let members :=
    match locate (fs st) (cwd e) dir with
    | Ok n => find_files dir n
    | Err _ => []
    end in
  match create_file (fs st) (cwd e) tarfile (tar_format members) with
  | Ok root' => (0%Z, with_fs st root')
  | Err _ => (512%Z, st)
  end.

(** The [sendfile] loop of [download_tar]. *)
Fixpoint send_archive (fuel : nat) (st : state) (fd : fdesc) (remaining : Z)
  : option (bool * state) :=
  if (remaining >? 0)%Z then
    match fuel with
    | O => None
    | S fuel' =>
        let '(n, fd1, st1) := sendfile st fd (Z.to_nat remaining) in
        if (n <=? 0)%Z then
          let (_, st2) := write st1 transfer_failed 27 in Some (false, st2)
        else send_archive fuel' st1 fd1 (remaining - n)
    end
  else Some (true, st).

Definition download_tar (fuel : nat) (st : state) (tarfile : cstr)
  : option (Z * state) :=
  let s2_dir := snprintf MAX_PATH_LEN (HOME e ++ lit "/" ++ store nd) in
  let (status, st0) := system_find_tar st s2_dir tarfile in
  if negb (status =? 0)%Z then
    let (_, st1) := write st0 (lit "ERROR: Failed to create tar file") 32 in
    Some ((-1)%Z, st1)
  else
    match stat (dir_size e) (fs st0) (cwd e) tarfile with
    | Err _ =>
        let (_, st1) := write st0 (lit "ERROR: Tar file not found") 25 in
        Some ((-1)%Z, st1)
    | Ok s =>
        match open (fs st0) (cwd e) tarfile with
        | Err _ =>
            let (_, st1) :=
              write st0 (lit "ERROR: Failed to open tar file") 30 in
            Some ((-1)%Z, st1)
        | Ok fd =>
            let (_, st1) := write st0 (off_t_bytes (st_size s)) sizeof_off_t in
            match send_archive fuel st1 fd (st_size s) with
            | None => None
            | Some (false, st2) => Some ((-1)%Z, st2)
            | Some (true, st2) =>
                (* Clean up the tar file *)
                match unlink (fs st2) (cwd e) tarfile with
                | Ok root' => Some (0%Z, with_fs st2 root')
                | Err _ => Some (0%Z, st2)
                end
            end
        end
    end.

(** The body of the [readdir] loop of [list_pdf_files] / [list_zip_files];
    [recurse] is the function itself, [file_list] the buffer of
    [display_filenames] that the nested function appends to. *)
Fixpoint readdir_loop (recurse : cstr -> cstr -> cstr -> option cstr)
    (base_path relative_path : cstr) (ents : list dirent) (file_list : cstr)
  : option cstr :=
  match ents with
  | [] => Some file_list
  | ent :: rest =>
      if streq (d_name ent) (lit ".") || streq (d_name ent) (lit "..")
      then readdir_loop recurse base_path relative_path rest file_list
      else
        let full_path :=
          snprintf MAX_PATH_LEN (base_path ++ lit "/" ++ d_name ent) in
        let new_relative_path :=
          if streq relative_path []
          then snprintf MAX_PATH_LEN (d_name ent)
          else snprintf MAX_PATH_LEN (relative_path ++ lit "/" ++ d_name ent) in
        match d_type ent with
        | DT_REG =>
            if has_ext nd (d_name ent) then
              let output_path :=
                snprintf MAX_PATH_LEN (lit "~S1/" ++ new_relative_path) in
              let file_list1 :=
                strncat file_list output_path
                        (BUFFER_SIZE - length file_list - 1) in
              let file_list2 :=
                strncat file_list1 [LF]
                        (BUFFER_SIZE - length file_list1 - 1) in
              readdir_loop recurse base_path relative_path rest file_list2
            else readdir_loop recurse base_path relative_path rest file_list
        | DT_DIR =>
            match recurse full_path new_relative_path file_list with
            | None => None
            | Some file_list1 =>
                readdir_loop recurse base_path relative_path rest file_list1
            end
        end
  end.

(** [fuel] bounds the depth of the recursion. *)
Fixpoint list_pdf_files (fuel : nat) (root : node)
    (base_path relative_path : cstr) (file_list : cstr) : option cstr :=
  match fuel with
  | O => None
  | S fuel' =>
      match opendir root (cwd e) base_path with
      | None => Some file_list
      | Some ents =>
          readdir_loop (list_pdf_files fuel' root)
                       base_path relative_path ents file_list
      end
  end.

Definition display_filenames (fuel : nat) (st : state) (pathname : cstr)
  : option (Z * state) :=
  let path := listing_path nd e pathname in
  let is_listable :=
    match stat (dir_size e) (fs st) (cwd e) path with
    | Ok s => st_isdir s
    | Err _ => false
    end in
  if negb is_listable then
    let (_, st1) := write st [] 0 in Some (0%Z, st1)
  else
    match list_pdf_files fuel (fs st) path [] [] with
    | None => None
    | Some file_list =>
        let (_, st1) := write st file_list (length file_list) in
        Some (0%Z, st1)
    end.

(** One connection: the command line that [read] delivered is parsed and
    the operation carried out.  The result is the state when the worker
    exits. *)
Definition handle_client (fuel : nat) (st : state) (request : bytes)
  : option state :=
  let buffer := c_string (firstn (BUFFER_SIZE - 1) request) in
  match strtok_all buffer with
  | [] => Some (snd (write st (lit "ERROR: Invalid command") 22))
  | cmd :: args =>
      if streq cmd (lit "uploadf") then
        match args with
        | filename :: dest_path :: _ =>
            Some (snd (upload_file st filename dest_path))
        | _ =>
            Some (snd (write st
                         (lit "ERROR: Invalid uploadf command format") 36))
        end
      else if streq cmd (lit "downlf") then
        match args with
        | filename :: _ => option_map snd (download_file fuel st filename)
        | [] =>
            Some (snd (write st
                         (lit "ERROR: Invalid downlf command format") 34))
        end
      else if streq cmd (lit "removef") then
        match args with
        | filename :: _ => Some (snd (remove_file st filename))
        | [] =>
            Some (snd (write st
                         (lit "ERROR: Invalid removef command format") 35))
        end
      else
        match (if streq cmd (lit "downltar") then tar_tmp nd else None) with
        | Some tarfile => option_map snd (download_tar fuel st tarfile)
        | None =>
            if streq cmd (lit "dispfnames") then
              match args with
              | pathname :: _ =>
                  option_map snd (display_filenames fuel st pathname)
              | [] =>
                  Some (snd (write st
                          (lit "ERROR: Invalid dispfnames command format") 38))
              end
            else Some (snd (write st (lit "ERROR: Unknown command") 21))
        end
  end.

End Server.

(** ** Vocabulary of the file-system lemmas *)

Definition same_kind (m m' : node) : Prop :=
  match m, m' with
  | File d, File d' => d = d'
  | Dir w _, Dir w' _ => w = w'
  | _, _ => False
  end.

(** Everything that exists in [root] exists in [root'], files with the same
    contents and directories as directories. *)
Definition extends (root root' : node) : Prop :=
  forall q m, lookup q root = Some m ->
              exists m', lookup q root' = Some m' /\ same_kind m m'.

(** The permission flag of the directory found by a lookup, if it found
    one. *)
Definition dir_flag (o : option node) : option bool :=
  match o with
  | Some (Dir w _) => Some w
  | _ => None
  end.

(** [path] names something: [mkdir] answers [EEXIST]. *)
Definition exists_at (e : env) (root : node) (path : cstr) : Prop :=
  mkdir root (cwd e) path = Err EEXIST.

(** The paths [create_directory_tree] hands to [mkdir], in order: the
    prefix of [tmp] before each slash after the first character, then
    [tmp] itself. *)
Fixpoint segments_from (pre rest : cstr) : list cstr :=
  match rest with
  | [] => []
  | c :: rest' =>
      if is_slash c then pre :: segments_from (pre ++ [c]) rest'
      else segments_from (pre ++ [c]) rest'
  end.

Definition segments (path : cstr) : list cstr :=
  let tmp := snprintf MAX_PATH_LEN path in
  match tmp with
  | c :: t => if is_slash c then segments_from [c] t else segments_from [] tmp
  | [] => []
  end ++ [tmp].

(** ** Vocabulary of the listing theorems *)

(** The text [list_pdf_files] appends for the entry [name] of a directory
    reached under [relative_path], and the line it makes. *)
Definition output_path_of (relative_path name : cstr) : cstr :=
  snprintf MAX_PATH_LEN
    (lit "~S1/" ++
     (if streq relative_path []
      then snprintf MAX_PATH_LEN name
      else snprintf MAX_PATH_LEN (relative_path ++ lit "/" ++ name))).





(** A name a directory entry can have: not empty, no slash, and not one of
    the traversal markers. *)
Definition is_entry_name (k : cstr) : bool :=
  nonempty k && negb (existsb is_slash k) && is_name k.

(** Every entry below [n] has such a name. *)
Fixpoint well_named (n : node) : bool :=
  match n with
  | File _ => true
  | Dir _ ents =>
      (fix all (l : list (cstr * node)) : bool :=
         match l with
         | [] => true
         | (k, m) :: l' => is_entry_name k && well_named m && all l'
         end) ents
  end.

(** Number of directory levels below and including [n]. *)
Fixpoint height (n : node) : nat :=
  match n with
  | File _ => 0
  | Dir _ ents =>
      S ((fix most (l : list (cstr * node)) : nat :=
            match l with
            | [] => 0
            | (_, m) :: l' => Nat.max (height m) (most l')
            end) ents)
  end.

(** Length of the longest relative path ("/name/name...") below [n]. *)
Fixpoint reach (n : node) : nat :=
  match n with
  | File _ => 0
  | Dir _ ents =>
      (fix most (l : list (cstr * node)) : nat :=
         match l with
         | [] => 0
         | (k, m) :: l' => Nat.max (1 + length k + reach m) (most l')
         end) ents
  end.


(** ** Worlds used in the examples *)

(** A host whose directories all report one block, as small directories
    on ext4 do. *)
Definition env0 : env :=
  {| HOME := lit "/home/u"; cwd := []; dir_size := fun _ => 4096%Z |}.

(** The same host on a file system that reports size 0 for every
    directory, as procfs does. *)
Definition env_zero : env :=
  {| HOME := lit "/home/u"; cwd := []; dir_size := fun _ => 0%Z |}.

Definition report : bytes := lit "%PDF-1.4 report".

(** A staged upload under /tmp and an empty home directory. *)
Definition fs0 : node :=
  Dir true
    [ (lit "tmp", Dir true [ (lit "report.pdf", File report);
                             (lit "notes.txt", File (lit "plain")) ]);
      (lit "home", Dir true [ (lit "u", Dir true []) ]) ].

(** The same after [uploadf /tmp/report.pdf ~S1/docs]. *)
Definition fs1 : node :=
  Dir true
    [ (lit "tmp", Dir true [ (lit "notes.txt", File (lit "plain")) ]);
      (lit "home",
       Dir true
         [ (lit "u",
            Dir true
              [ (lit "S2",
                 Dir true
                   [ (lit "docs",
                      Dir true [ (lit "report.pdf", File report) ]) ]) ]) ]) ].

(** A storage tree with owned and foreign files, and a directory whose
    name ends in the owned extension. *)
Definition fs_mixed : node :=
  Dir true
    [ (lit "home",
       Dir true
         [ (lit "u",
            Dir true
              [ (lit "S2",
                 Dir true
                   [ (lit "docs",
                      Dir true
                        [ (lit "report.pdf", File report);
                          (lit "notes.txt", File (lit "plain"));
                          (lit "old.pdf",
                           Dir true [ (lit "scan.pdf", File (lit "scan")) ]) ]);
                     (lit "misc",
                      Dir true
                        [ (lit "a.txt", File (lit "a"));
                          (lit "b.zip", File (lit "b")) ]) ]) ]) ]) ].

(** The storage tree of a ZIP node with one archive in a subdirectory. *)
Definition fs_zip : node :=
  Dir true
    [ (lit "home",
       Dir true
         [ (lit "u",
            Dir true
              [ (lit "S4",
                 Dir true
                   [ (lit "docs",
                      Dir true [ (lit "old.zip", File (lit "PK")) ]) ]) ]) ]) ].

Definition fresh_sock : sock := {| sent := []; wlog := []; script := [] |}.

(** A new connection on a given file system, with no failures scripted. *)
Definition connect (root : node) : state :=
  {| fs := root; sk := fresh_sock; rscript := [] |}.

(** A new connection with scripted socket and read outcomes. *)
Definition connect_with (root : node) (ws : list wres) (rs : list rres)
  : state :=
  {| fs := root; sk := {| sent := []; wlog := []; script := ws |};
     rscript := rs |}.

(** A stand-in archive format: names and contents, one after the other. *)
Definition flat_archive (members : list (cstr * bytes)) : bytes :=
  concat (map (fun m => fst m ++ snd m) members).

(** A home directory of 14 characters and a virtual path of 1011
    characters, short enough for one command line. *)
Definition long_home : env :=
  {| HOME := lit "/home/kasiraju"; cwd := [];
     dir_size := fun _ => 4096%Z |}.

Definition long_suffix : cstr := concat (repeat (lit "/abcdefg") 126).


(** A stored file of 30 bytes. *)
Definition thirty : bytes := lit "%PDF-1.4 thirty bytes in all..".

Definition fs30 : node :=
  Dir true
    [ (lit "home",
       Dir true
         [ (lit "u",
            Dir true
              [ (lit "S2",
                 Dir true [ (lit "thirty.pdf", File thirty) ]) ]) ]) ].




(** ** Vocabulary of the corrected claims *)

(** The transfer of [remaining] bytes from [fd], begun in state [st], meets
    a failure: in some round the [read] returns no data, or the [write]
    does not take all that was read. *)
Inductive fails_midstream : state -> fdesc -> Z -> Prop :=
| read_fails (st : state) (fd : fdesc) (remaining n : Z) (buffer : bytes)
    (fd1 : fdesc) (st1 : state) :
    (0 < remaining)%Z ->
    read st fd (if (remaining <? Z.of_nat BUFFER_SIZE)%Z
                then Z.to_nat remaining else BUFFER_SIZE)
    = (n, buffer, fd1, st1) ->
    (n <= 0)%Z ->
    fails_midstream st fd remaining
| write_short (st : state) (fd : fdesc) (remaining n w : Z) (buffer : bytes)
    (fd1 : fdesc) (st1 st2 : state) :
    (0 < remaining)%Z ->
    read st fd (if (remaining <? Z.of_nat BUFFER_SIZE)%Z
                then Z.to_nat remaining else BUFFER_SIZE)
    = (n, buffer, fd1, st1) ->
    (0 < n)%Z ->
    write st1 buffer (Z.to_nat n) = (w, st2) -> w <> n ->
    fails_midstream st fd remaining
| round_passes (st : state) (fd : fdesc) (remaining n : Z) (buffer : bytes)
    (fd1 : fdesc) (st1 st2 : state) :
    (0 < remaining)%Z ->
    read st fd (if (remaining <? Z.of_nat BUFFER_SIZE)%Z
                then Z.to_nat remaining else BUFFER_SIZE)
    = (n, buffer, fd1, st1) ->
    (0 < n)%Z ->
    write st1 buffer (Z.to_nat n) = (n, st2) ->
    fails_midstream st2 fd1 (remaining - n) ->
    fails_midstream st fd remaining.


(** ** Vocabulary of the further properties *)

(** An extension as the two nodes have it: a dot, then characters that are
    neither dots nor slashes. *)
Definition dotted_ext (x : cstr) : bool :=
  match x with
  | c :: rest =>
      Ascii.eqb c "."%char
      && negb (existsb (fun a => Ascii.eqb a "."%char) rest)
      && negb (existsb is_slash rest)
  | [] => false
  end.

(** A token of a command line: not empty, without space and without NUL. *)
Definition token_ok (t : cstr) : bool :=
  nonempty t
  && negb (existsb (fun a => Ascii.eqb a " "%char) t)
  && negb (existsb (fun a => Ascii.eqb a zero) t).

(** The command line the gateway sends: the tokens with single spaces
    between them. *)
Definition command_line (tokens : list cstr) : cstr :=
  match tokens with
  | [] => []
  | t :: ts => t ++ concat (map (fun u => " "%char :: u) ts)
  end.

(** No directory below [n] has two entries of the same name. *)
Fixpoint distinct_names (n : node) : bool :=
  match n with
  | File _ => true
  | Dir _ ents =>
      (fix all (l : list (cstr * node)) : bool :=
         match l with
         | [] => true
         | (k, m) :: l' =>
             negb (existsb (fun km => streq k (fst km)) l')
             && distinct_names m && all l'
         end) ents
  end.

(** The listing of a tree, read off the tree itself: depth first, in
    directory order, one line for every regular file whose name has the
    owned extension, with the path relative to the directory the listing
    started in. *)
Fixpoint tree_lines (nd : Node) (relative_path : cstr) (n : node)
  : list cstr :=
  match n with
  | File _ => []
  | Dir _ ents =>
      (fix each (l : list (cstr * node)) : list cstr :=
         match l with
         | [] => []
         | (k, m) :: l' =>
             match m with
             | File _ =>
                 if has_ext nd k
                 then [output_path_of relative_path k ++ [LF]] else []
             | Dir _ _ =>
                 tree_lines nd
                   (if streq relative_path []
                    then snprintf MAX_PATH_LEN k
                    else snprintf MAX_PATH_LEN (relative_path ++ lit "/" ++ k))
                   m
             end ++ each l'
         end) ents
  end.

(** The path [find] prints for the names [ks] below its starting point. *)
Definition join_path (path : cstr) (ks : list cstr) : cstr :=
  path ++ concat (map (fun k => lit "/" ++ k) ks).

(** The names [ks] joined by slashes: a relative path. *)
Fixpoint slash_join (ks : list cstr) : cstr :=
  match ks with
  | [] => []
  | k :: ks' =>
      match ks' with
      | [] => k
      | _ :: _ => k ++ lit "/" ++ slash_join ks'
      end
  end.
(** ** The model on small inputs *)

Example strtok_all_uploadf :
  strtok_all (lit "uploadf  /tmp/report.pdf ~S1/docs ")
  = [lit "uploadf"; lit "/tmp/report.pdf"; lit "~S1/docs"].
Proof. reflexivity. Qed.

Example basename_examples :
  basename (lit "/tmp/report.pdf") = lit "report.pdf" /\
  basename (lit "report.pdf") = lit "report.pdf" /\
  basename (lit "/tmp/dir//") = lit "dir" /\
  basename (lit "//") = lit "/" /\
  basename [] = lit ".".
Proof. repeat split. Qed.

Example has_ext_examples :
  has_ext S2 (lit "/tmp/report.pdf") = true /\
  has_ext S2 (lit "/tmp/report.pdf.txt") = false /\
  has_ext S2 (lit "/tmp/v1.pdf/report") = false /\
  has_ext S2 (lit "report") = false /\
  has_ext S4 (lit "old.zip") = true /\
  has_ext S4 (lit "report.pdf") = false.
Proof. repeat split. Qed.

Example off_t_bytes_15 :
  off_t_bytes 15
  = [ascii_of_nat 15; zero; zero; zero; zero; zero; zero; zero].
Proof. reflexivity. Qed.

Example stat_examples :
  stat (dir_size env0) fs0 [] (lit "/tmp/report.pdf")
  = Ok {| st_isdir := false; st_size := 15 |} /\
  stat (dir_size env0) fs0 [] (lit "/tmp//./report.pdf")
  = Ok {| st_isdir := false; st_size := 15 |} /\
  stat (dir_size env0) fs0 [] (lit "/home/../tmp/")
  = Ok {| st_isdir := true; st_size := 4096 |} /\
  stat (dir_size env0) fs0 [] (lit "/tmp/report.pdf/") = Err ENOTDIR /\
  stat (dir_size env0) fs0 [] (lit "/tmp/report.pdf/x") = Err ENOTDIR /\
  stat (dir_size env0) fs0 [] (lit "/tmp/missing") = Err ENOENT /\
  stat (dir_size env0) fs0 [] (lit "/missing/..") = Err ENOENT /\
  stat (dir_size env0) fs0 [lit "tmp"] (lit "report.pdf")
  = Ok {| st_isdir := false; st_size := 15 |} /\
  stat (dir_size env0) fs0 [] [] = Err ENOENT.
Proof. repeat split. Qed.

Example mkdir_examples :
  mkdir fs0 [] (lit "/tmp") = Err EEXIST /\
  mkdir fs0 [] (lit "/tmp/report.pdf") = Err EEXIST /\
  mkdir fs0 [] (lit "/tmp/report.pdf/x") = Err ENOTDIR /\
  mkdir fs0 [] (lit "/a/b") = Err ENOENT /\
  mkdir (Dir true [(lit "ro", Dir false [])]) [] (lit "/ro/x") = Err EACCES /\
  mkdir (Dir true []) [] (lit "/a/")
  = Ok (Dir true [(lit "a", Dir true [])]).
Proof. repeat split. Qed.

(** A file in the way of a segment that has to be a directory: the first
    run fails, and so does the second, on the same state. *)
Example create_directory_tree_through_file :
  create_directory_tree env0 (connect fs0) (lit "/tmp/report.pdf/x")
  = ((-1)%Z, connect fs0) /\
  create_directory_tree env0 (connect fs0) (lit "/tmp/new/report.pdf/x")
  = (0%Z, connect (put [lit "tmp"; lit "new"; lit "report.pdf"; lit "x"]
                       (Dir true [])
                    (put [lit "tmp"; lit "new"; lit "report.pdf"] (Dir true [])
                       (put [lit "tmp"; lit "new"] (Dir true []) fs0)))).
Proof. split; vm_compute; reflexivity. Qed.

Example rename_examples :
  rename fs0 [] (lit "/tmp/missing.pdf") (lit "/tmp/x.pdf") = Err ENOENT /\
  rename fs0 [] (lit "/tmp/report.pdf") (lit "/home/u") = Err EISDIR /\
  rename fs0 [] (lit "/tmp/report.pdf") (lit "/home/v/report.pdf")
  = Err ENOENT /\
  rename fs0 [] (lit "/tmp") (lit "/tmp/sub") = Err EINVAL /\
  rename fs0 [] (lit "/tmp/report.pdf") (lit "/tmp/report.pdf") = Ok fs0 /\
  rename fs0 [] (lit "/tmp/report.pdf") (lit "/tmp/notes.txt")
  = Ok (Dir true
          [ (lit "tmp", Dir true [ (lit "notes.txt", File report) ]);
            (lit "home", Dir true [ (lit "u", Dir true []) ]) ]).
Proof. repeat split. Qed.

(** The scenario of the specification, with the destination as the node
    reads it: upload, listing of the root, removal, second removal. *)
Example scenario_upload_list_remove :
  exists st1 st2 st3 st4,
    handle_client flat_archive S2 env0 2 (connect fs0)
      (lit "uploadf /tmp/report.pdf ~S1/docs") = Some st1 /\
    sent (sk st1) = lit "SUCCESS: PDF file stored in S2" /\
    handle_client flat_archive S2 env0 2 (connect (fs st1))
      (lit "dispfnames ~S1") = Some st2 /\
    sent (sk st2) = lit "~S1/docs/report.pdf" ++ [LF] /\
    handle_client flat_archive S2 env0 2 (connect (fs st1))
      (lit "removef ~S1/docs/report.pdf") = Some st3 /\
    sent (sk st3) = lit "SUCCESS: PDF file deleted from S" /\
    stat (dir_size env0) (fs st3) [] (lit "/home/u/S2/docs/report.pdf") = Err ENOENT /\
    handle_client flat_archive S2 env0 2 (connect (fs st3))
      (lit "removef ~S1/docs/report.pdf") = Some st4 /\
    sent (sk st4) = lit "ERROR: PDF file not found in S".
Proof.
  do 4 eexists. repeat (split; [vm_compute; reflexivity|]).
  vm_compute. reflexivity.
Qed.

Example unknown_commands :
  option_map (fun st => sent (sk st))
    (handle_client flat_archive S2 env0 0 (connect fs0) (lit "bogus"))
  = Some (lit "ERROR: Unknown comman") /\
  option_map (fun st => sent (sk st))
    (handle_client flat_archive S4 env0 0 (connect fs0) (lit "downltar"))
  = Some (lit "ERROR: Unknown comman") /\
  option_map (fun st => sent (sk st))
    (handle_client flat_archive S2 env0 0 (connect fs0) (lit "downlf"))
  = Some (lit "ERROR: Invalid downlf command form") /\
  option_map (fun st => sent (sk st))
    (handle_client flat_archive S2 env0 0 (connect fs0) [])
  = Some (lit "ERROR: Invalid command").
Proof. repeat split. Qed.

(** ** Strings *)

Lemma streq_true_iff (a b : cstr) : streq a b = true <-> a = b.
Proof.
  unfold streq. destruct (list_eq_dec ascii_dec a b); split; congruence.
Qed.

Lemma streq_refl (a : cstr) : streq a a = true.
Proof. now apply streq_true_iff. Qed.

Lemma strrchr_suffix (s : cstr) (c : ascii) (r : cstr) :
  strrchr s c = Some r -> exists pre, s = pre ++ r.
Proof.
  revert r. induction s as [|x s IH]; intros r H; simpl in H.
  - discriminate.
  - destruct (strrchr s c) as [r'|] eqn:E.
    + inversion H; subst r'. destruct (IH r eq_refl) as [pre Hp].
      exists (x :: pre). now rewrite Hp.
    + destruct (Ascii.eqb x c); inversion H. now exists [].
Qed.

Lemma has_ext_ends_with (nd : Node) (name : cstr) :
  has_ext nd name = true -> ends_with (ext nd) name.
Proof.
  unfold has_ext, ends_with. intros H.
  destruct (strrchr name "."%char) as [r|] eqn:E; [|discriminate].
  apply streq_true_iff in H. subst r. eapply strrchr_suffix; eauto.
Qed.

Lemma ends_withb_spec (suf s : cstr) :
  ends_withb suf s = true <-> ends_with suf s.
Proof.
  unfold ends_withb, ends_with. rewrite andb_true_iff, streq_true_iff.
  rewrite Nat.leb_le. split.
  - intros [H _]. exists (firstn (length s - length suf) s).
    rewrite <- H at 2. symmetry. apply firstn_skipn.
  - intros [pre ->]. rewrite length_app. split; [|lia].
    replace (length pre + length suf - length suf) with (length pre + 0) by lia.
    now rewrite skipn_app, Nat.add_0_r, skipn_all, Nat.sub_diag.
Qed.

(** ** Socket writes *)

Lemma write_inv (st : state) (buf : bytes) (count : nat) (r : Z) (st' : state) :
  write st buf count = (r, st') ->
  fs st' = fs st /\ rscript st' = rscript st /\
  wlog (sk st') = wlog (sk st) ++ [firstn count buf] /\
  exists k, sent (sk st') = sent (sk st) ++ firstn k (firstn count buf) /\
            (r = (-1)%Z /\ k = 0 \/
             r = Z.of_nat (length (firstn k (firstn count buf)))) /\
            (script (sk st) = [] -> k = count /\ script (sk st') = []).
Proof.
  unfold write, sock_put. intros H.
  destruct (script (sk st)) as [|[|n] k] eqn:Es; inversion H; subst; simpl;
    (split; [reflexivity|split; [reflexivity|split; [reflexivity|]]]).
  - exists count. rewrite firstn_firstn, Nat.min_id. auto.
  - exists 0. simpl. rewrite app_nil_r. split; [reflexivity|].
    split; [now left|discriminate].
  - exists n. split; [reflexivity|]. split; [now right|discriminate].
Qed.

Lemma write_healthy (st : state) (buf : bytes) (count : nat) :
  script (sk st) = [] ->
  write st buf count =
  (Z.of_nat (length (firstn count buf)),
   with_sk st {| sent := sent (sk st) ++ firstn count buf;
                 wlog := wlog (sk st) ++ [firstn count buf];
                 script := [] |}).
Proof. unfold write, sock_put. now intros ->. Qed.

(** ** Upload validation *)

(** C3.  An upload whose source name does not end in the owned extension
    returns -1, hands exactly one piece of data to the socket, the first 31
    bytes of the node's "only handles" error text, and leaves the file
    system as it was: no directory is created and nothing is moved. *)
Theorem upload_foreign_extension_rejected
    (nd : Node) (e : env) (st : state) (filename dest_path : cstr) :
  ~ ends_with (ext nd) filename ->
  exists st',
    upload_file nd e st filename dest_path = ((-1)%Z, st') /\
    fs st' = fs st /\
    wlog (sk st') = wlog (sk st) ++ [firstn 31 (msg_only nd)] /\
    (script (sk st) = [] ->
     sent (sk st') = sent (sk st) ++ firstn 31 (msg_only nd)).
Proof.
  intros Hext. unfold upload_file.
  destruct (has_ext nd filename) eqn:E.
  - exfalso. apply Hext. now apply has_ext_ends_with.
  - simpl. destruct (write st (msg_only nd) 31) as [r st'] eqn:W.
    exists st'. destruct (write_inv _ _ _ W) as (Hfs & _ & Hlog & k & Hs & _ & Hh).
    repeat split; auto. intros Hsc. destruct (Hh Hsc) as (-> & _).
    now rewrite Hs, firstn_firstn, Nat.min_id.
Qed.

Lemma upload_foreign_extension_rejected_witness :
  exists st',
    upload_file S2 env0 (connect fs0) (lit "/tmp/notes.txt") (lit "~S1/docs")
    = ((-1)%Z, st') /\
    fs st' = fs0 /\
    wlog (sk st') = [lit "ERROR: S2 only handles PDF file"] /\
    (script (sk (connect fs0)) = [] ->
     sent (sk st') = lit "ERROR: S2 only handles PDF file").
Proof.
  apply (@upload_foreign_extension_rejected S2 env0 (connect fs0)
           (lit "/tmp/notes.txt") (lit "~S1/docs")).
  intros H. apply ends_withb_spec in H. vm_compute in H. discriminate.
Defined.

(** ** Listing of a missing directory *)

(** C9.  When the translated path of a [dispfnames] request names nothing
    or names something that is not a directory, the node returns 0 and its
    only write is the empty one: no byte reaches the peer, no error text is
    written and the file system is untouched, whatever the fuel. *)
Theorem listing_of_missing_directory_is_empty
    (nd : Node) (e : env) (fuel : nat) (st : state) (pathname : cstr) :
  (forall s, stat (dir_size e) (fs st) (cwd e) (listing_path nd e pathname) = Ok s ->
             st_isdir s = false) ->
  exists st',
    display_filenames nd e fuel st pathname = Some (0%Z, st') /\
    sent (sk st') = sent (sk st) /\
    wlog (sk st') = wlog (sk st) ++ [[]] /\
    fs st' = fs st.
Proof.
  intros Hnd. unfold display_filenames.
  assert (Hl : match stat (dir_size e) (fs st) (cwd e) (listing_path nd e pathname) with
               | Ok s => st_isdir s
               | Err _ => false
               end = false).
  { destruct (stat (dir_size e) (fs st) (cwd e) (listing_path nd e pathname)); auto. }
  rewrite Hl. simpl negb. cbv iota.
  destruct (write st [] 0) as [r st'] eqn:W.
  exists st'. destruct (write_inv _ _ _ W) as (Hfs & _ & Hlog & k & Hs & _).
  simpl in Hs, Hlog. rewrite firstn_nil, app_nil_r in Hs. auto.
Qed.

Lemma listing_of_missing_directory_is_empty_witness :
  exists st',
    display_filenames S2 env0 0 (connect fs0) (lit "~S1/docs")
    = Some (0%Z, st') /\
    sent (sk st') = [] /\ wlog (sk st') = [[]] /\ fs st' = fs0.
Proof.
  apply (@listing_of_missing_directory_is_empty S2 env0 0 (connect fs0)
           (lit "~S1/docs")).
  intros s H. vm_compute in H. discriminate.
Defined.

(** ** Path translation *)

Lemma snprintf_fits (size : nat) (s : cstr) :
  length s < size -> snprintf size s = s.
Proof. intros H. unfold snprintf. apply firstn_all2. lia. Qed.

Lemma snprintf_length (size : nat) (s : cstr) :
  length (snprintf size s) <= size - 1.
Proof. unfold snprintf. rewrite length_firstn. lia. Qed.

Lemma snprintf_app_idem (size : nat) (a b : cstr) :
  snprintf size (snprintf size a ++ b) = snprintf size (a ++ b).
Proof.
  unfold snprintf. rewrite !firstn_app, firstn_firstn, Nat.min_id.
  rewrite length_firstn.
  destruct (Nat.le_gt_cases (size - 1) (length a)).
  - rewrite Nat.min_l by lia.
    replace (size - 1 - (size - 1)) with 0 by lia.
    replace (size - 1 - length a) with 0 by lia. reflexivity.
  - now rewrite Nat.min_r by lia.
Qed.

(** C6, as stated, fails: a command line of 1018 characters whose virtual
    path is the root marker followed by 1008 characters is translated to a
    local path that is not the storage root followed by the suffix. *)
Lemma path_translation_counterexample :
  length (lit "downlf ~S1" ++ long_suffix) < BUFFER_SIZE /\
  local_path S2 long_home (lit "~S1" ++ long_suffix)
  <> HOME long_home ++ lit "/" ++ store S2 ++ long_suffix.
Proof.
  split.
  - vm_compute. lia.
  - intros H. apply (f_equal (@length ascii)) in H. vm_compute in H.
    discriminate.
Qed.

(** C6, amended.  The translation is a function of the node, the
    environment variable and the path string alone (it takes no file
    system).  On the root marker followed by [suffix] it yields the first
    [MAX_PATH_LEN - 1] characters of storage root followed by [suffix], in
    [display_filenames] as well as in the other operations; so it is
    exactly the storage root followed by [suffix] when that is shorter than
    [MAX_PATH_LEN], and exactly the storage root when [suffix] is empty. *)
Theorem path_translation (nd : Node) (e : env) (suffix : cstr) :
  length (HOME e ++ lit "/" ++ store nd ++ suffix) < MAX_PATH_LEN ->
  local_path nd e (lit "~S1" ++ suffix)
  = HOME e ++ lit "/" ++ store nd ++ suffix /\
  listing_path nd e (lit "~S1" ++ suffix)
  = HOME e ++ lit "/" ++ store nd ++ suffix /\
  local_path nd e (lit "~S1") = HOME e ++ lit "/" ++ store nd /\
  listing_path nd e (lit "~S1") = HOME e ++ lit "/" ++ store nd /\
  (forall suffix',
     local_path nd e (lit "~S1" ++ suffix')
     = firstn (MAX_PATH_LEN - 1)
         (HOME e ++ lit "/" ++ store nd ++ suffix')).
Proof.
  intros Hlen.
  assert (Hl : forall suffix',
               length (HOME e ++ lit "/" ++ store nd ++ suffix')
               < MAX_PATH_LEN ->
               local_path nd e (lit "~S1" ++ suffix')
               = HOME e ++ lit "/" ++ store nd ++ suffix').
  { intros suffix' H'. unfold local_path, s2_path, ptr_add. simpl skipn.
    now apply snprintf_fits. }
  assert (Hd : forall suffix',
               length (HOME e ++ lit "/" ++ store nd ++ suffix')
               < MAX_PATH_LEN ->
               listing_path nd e (lit "~S1" ++ suffix')
               = HOME e ++ lit "/" ++ store nd ++ suffix').
  { intros suffix' H'. unfold listing_path.
    destruct (streq (lit "~S1" ++ suffix') (lit "~S1")) eqn:E.
    - apply streq_true_iff in E.
      assert (suffix' = []) as -> by (simpl in E; now inversion E).
      unfold s2_path. now apply snprintf_fits.
    - now apply Hl. }
  assert (H0 : length (HOME e ++ lit "/" ++ store nd ++ []) < MAX_PATH_LEN).
  { revert Hlen. rewrite !length_app. simpl. lia. }
  split; [now apply Hl|]. split; [now apply Hd|].
  split; [|split].
  - generalize (Hl [] H0). now rewrite !app_nil_r.
  - generalize (Hd [] H0). now rewrite !app_nil_r.
  - intros suffix'. reflexivity.
Qed.

Lemma path_translation_witness :
  local_path S2 env0 (lit "~S1" ++ lit "/docs/report.pdf")
  = lit "/home/u/S2/docs/report.pdf" /\
  listing_path S2 env0 (lit "~S1" ++ lit "/docs/report.pdf")
  = lit "/home/u/S2/docs/report.pdf" /\
  local_path S2 env0 (lit "~S1") = lit "/home/u/S2" /\
  listing_path S2 env0 (lit "~S1") = lit "/home/u/S2" /\
  (forall suffix',
     local_path S2 env0 (lit "~S1" ++ suffix')
     = firstn (MAX_PATH_LEN - 1)
         (HOME env0 ++ lit "/" ++ store S2 ++ suffix')).
Proof.
  apply (@path_translation S2 env0 (lit "/docs/report.pdf")).
  vm_compute. lia.
Defined.
(** ** Streaming a file *)

Lemma read_inv (st : state) (fd : fdesc) (count : nat)
    (n : Z) (buf : bytes) (fd' : fdesc) (st' : state) :
  read st fd count = (n, buf, fd', st') ->
  fs st' = fs st /\ sk st' = sk st /\
  (n = (-1)%Z \/
   n = Z.of_nat (length buf) /\
   buf = firstn (length buf) (fd_avail fd count) /\
   fd' = fd_skip fd (length buf)).
Proof.
  unfold read. intros H.
  destruct (fd_node fd) eqn:En.
  - destruct (rscript st) as [|[|m] k]; inversion H; subst; simpl; auto.
    + repeat split; auto. right. repeat split; auto.
      now rewrite firstn_all.
    + repeat split; auto. right. repeat split; auto.
      rewrite length_firstn, <- firstn_firstn. now rewrite firstn_all.
  - inversion H; subst; auto.
Qed.

Lemma fd_avail_length (fd : fdesc) (count : nat) :
  length (fd_avail fd count) <= count.
Proof.
  unfold fd_avail. destruct (fd_node fd); simpl; [|lia].
  rewrite length_firstn. lia.
Qed.

Lemma fd_avail_firstn (fd : fdesc) (a b : nat) :
  a <= b -> firstn a (fd_avail fd b) = fd_avail fd a.
Proof.
  intros H. unfold fd_avail. destruct (fd_node fd).
  - rewrite firstn_firstn. now rewrite Nat.min_l.
  - now rewrite firstn_nil.
Qed.

Lemma fd_avail_split (fd : fdesc) (a b : nat) :
  length (fd_avail fd a) = a ->
  fd_avail fd (a + b) = fd_avail fd a ++ fd_avail (fd_skip fd a) b.
Proof.
  unfold fd_avail, fd_skip. simpl. destruct (fd_node fd); [|reflexivity].
  intros _. set (l := skipn (fd_off fd) data).
  replace (skipn (fd_off fd + a) data) with (skipn a l)
    by (unfold l; rewrite skipn_skipn; f_equal; lia).
  rewrite <- (firstn_skipn a l) at 1.
  rewrite firstn_app, firstn_firstn.
  destruct (Nat.le_gt_cases a (length l)).
  - rewrite length_firstn, Nat.min_r, Nat.min_l by lia.
    now replace (a + b - a) with b by lia.
  - rewrite (skipn_all2 l) by lia. rewrite !firstn_nil, !app_nil_r.
    rewrite Nat.min_r by lia. reflexivity.
Qed.

Lemma fd_avail_0 (fd : fdesc) : fd_avail fd 0 = [].
Proof. unfold fd_avail. now destruct (fd_node fd). Qed.

Lemma transfer_failed_length : length transfer_failed = 27.
Proof. reflexivity. Qed.

Lemma send_data_step (fuel : nat) (st : state) (fd : fdesc) (remaining : Z) :
  send_data (S fuel) st fd remaining =
  if (remaining >? 0)%Z then
    let count := if (remaining <? Z.of_nat BUFFER_SIZE)%Z
                 then Z.to_nat remaining else BUFFER_SIZE in
    let '(n, buffer, fd1, st1) := read st fd count in
    if (n <=? 0)%Z then
      let (_, st2) := write st1 transfer_failed 27 in Some ((-1)%Z, st2)
    else
      let (w, st2) := write st1 buffer (Z.to_nat n) in
      if negb (w =? n)%Z then
        let (_, st3) := write st2 transfer_failed 27 in Some ((-1)%Z, st3)
      else send_data fuel st2 fd1 (remaining - n)
  else Some (0%Z, st).
Proof. reflexivity. Qed.

(** What the streaming loop does: on success the peer has received exactly
    [remaining] bytes of the file; on failure fewer, followed by what the
    socket took of the error text, which is the last thing written. *)
Lemma send_data_inv (fuel : nat) :
  forall (st : state) (fd : fdesc) (remaining : Z) (r : Z) (st' : state),
    send_data fuel st fd remaining = Some (r, st') ->
    fs st' = fs st /\
    exists payload calls,
      payload = fd_avail fd (length payload) /\
      (r = 0%Z /\
       sent (sk st') = sent (sk st) ++ payload /\
       wlog (sk st') = wlog (sk st) ++ calls /\
       concat calls = payload /\
       length payload = Z.to_nat remaining /\
       (script (sk st) = [] -> script (sk st') = [])
       \/
       r = (-1)%Z /\
       (Z.of_nat (length payload) < remaining)%Z /\
       wlog (sk st') = wlog (sk st) ++ calls ++ [transfer_failed] /\
       exists k,
         sent (sk st') = sent (sk st) ++ payload ++ firstn k transfer_failed /\
         (script (sk st) = [] -> k = 27)).
Proof.
  induction fuel as [|fuel IH]; intros st fd remaining r st' H.
  - simpl in H. destruct (Z.gtb_spec remaining 0); [discriminate|].
    inversion H; subst. split; auto. exists [], []. split; [symmetry; apply fd_avail_0|].
    left. rewrite !app_nil_r. repeat split; auto. simpl. lia.
  - rewrite send_data_step in H.
    destruct (Z.gtb_spec remaining 0) as [Hpos|Hle].
    2:{ inversion H; subst. split; auto. exists [], [].
        split; [symmetry; apply fd_avail_0|].
        left. rewrite !app_nil_r. repeat split; auto. simpl. lia. }
    cbv zeta in H.
    set (count := if (remaining <? Z.of_nat BUFFER_SIZE)%Z
                  then Z.to_nat remaining else BUFFER_SIZE) in H.
    assert (Hcount : (Z.of_nat count <= remaining)%Z).
    { unfold count. destruct (Z.ltb_spec remaining (Z.of_nat BUFFER_SIZE)); lia. }
    destruct (read st fd count) as [[[n buffer] fd1] st1] eqn:R.
    destruct (read_inv _ _ _ R) as (Rfs & Rsk & Rn).
    destruct (Z.leb_spec n 0) as [Hn|Hn].
    + (* the read failed or hit the end of the file *)
      destruct (write st1 transfer_failed 27) as [w st2] eqn:W.
      injection H as <- <-.
      destruct (write_inv _ _ _ W) as (Wfs & _ & Wlog & k & Ws & _ & Wh).
      split; [congruence|]. exists [], []. split; [symmetry; apply fd_avail_0|].
      right. simpl. split; [reflexivity|]. split; [lia|].
      split; [rewrite Wlog, Rsk; reflexivity|].
      exists (Nat.min k 27). rewrite Ws, Rsk, firstn_firstn. split; auto.
      intros Hsc. rewrite Rsk in Wh. destruct (Wh Hsc) as (-> & _).
      reflexivity.
    + destruct Rn as [->|(Hnlen & Hbuf & Hfd1)]; [lia|].
      assert (Hblen : length buffer <= count).
      { rewrite Hbuf, length_firstn. pose proof (fd_avail_length fd count). lia. }
      assert (Hbavail : buffer = fd_avail fd (length buffer)).
      { rewrite Hbuf at 1. now apply fd_avail_firstn. }
      destruct (write st1 buffer (Z.to_nat n)) as [w st2] eqn:W.
      destruct (write_inv _ _ _ W) as (Wfs & _ & Wlog & k & Ws & Wr & Wh).
      assert (Hfull : firstn (Z.to_nat n) buffer = buffer).
      { apply firstn_all2. lia. }
      rewrite Hfull in Ws, Wlog, Wr.
      destruct (Z.eqb_spec w n) as [Hwn|Hwn]; simpl in H.
      * (* the chunk was written whole *)
        assert (Htaken : firstn k buffer = buffer).
        { destruct Wr as [[Hw _]|Hw]; [lia|].
          apply firstn_all2. rewrite length_firstn in Hw. lia. }
        rewrite Htaken in Ws.
        destruct (IH _ _ _ _ _ H) as (Ifs & payload & calls & Ipay & Icase).
        split; [congruence|].
        assert (Hjoin : buffer ++ payload
                        = fd_avail fd (length (buffer ++ payload))).
        { rewrite length_app, fd_avail_split.
          - rewrite <- Hbavail. f_equal. rewrite Hfd1 in Ipay. exact Ipay.
          - now rewrite <- Hbavail. }
        exists (buffer ++ payload), (buffer :: calls). split; [exact Hjoin|].
        destruct Icase as [(-> & Is & Il & Ic & Ilen & Ih)
                          |(-> & Ilen & Il & k' & Is & Ih)].
        -- left. split; [reflexivity|].
           rewrite Is, Ws, Il, Wlog, Rsk, <- !app_assoc. simpl.
           repeat split; auto.
           ++ now rewrite Ic.
           ++ rewrite length_app, Ilen. lia.
           ++ intros Hsc. rewrite Rsk in Wh. destruct (Wh Hsc) as (_ & Hsc2).
              auto.
        -- right. split; [reflexivity|]. split.
           { rewrite length_app. lia. }
           split.
           { rewrite Il, Wlog, Rsk, <- !app_assoc. reflexivity. }
           exists k'. rewrite Is, Ws, Rsk, <- !app_assoc. split; auto.
           intros Hsc. rewrite Rsk in Wh. destruct (Wh Hsc) as (_ & Hsc2).
           auto.
      * (* short write *)
        destruct (write st2 transfer_failed 27) as [w' st3] eqn:W'.
        injection H as <- <-.
        destruct (write_inv _ _ _ W') as (Wfs' & _ & Wlog' & k' & Ws' & _ & Wh').
        split; [congruence|].
        assert (Hshort : length (firstn k buffer) < length buffer).
        { destruct Wr as [[_ ->]|Hw]; [simpl; lia|].
          rewrite length_firstn in *.
          destruct (Nat.le_gt_cases (length buffer) k); [|lia].
          exfalso. apply Hwn. lia. }
        exists (firstn k buffer), [buffer]. split.
        { assert (Hk : length (firstn k buffer) = k /\ k <= length buffer)
            by (rewrite length_firstn in *; lia).
          destruct Hk as [-> Hk]. rewrite Hbavail at 1.
          now apply fd_avail_firstn. }
        right. split; [reflexivity|]. split; [lia|]. split.
        { rewrite Wlog', Wlog, Rsk, <- !app_assoc. reflexivity. }
        exists (Nat.min k' 27).
        rewrite Ws', Ws, Rsk, firstn_firstn, <- !app_assoc. split; auto.
        intros Hsc. rewrite Rsk in Wh. destruct (Wh Hsc) as (-> & Hsc2).
        exfalso. rewrite length_firstn in Hshort. lia.
Qed.

(** The loop ends within [remaining] iterations. *)
Lemma send_data_total (fuel : nat) :
  forall (st : state) (fd : fdesc) (remaining : Z),
    Z.to_nat remaining <= fuel ->
    exists r st', send_data fuel st fd remaining = Some (r, st').
Proof.
  induction fuel as [|fuel IH]; intros st fd remaining Hf.
  - simpl. destruct (Z.gtb_spec remaining 0); [lia|eauto].
  - rewrite send_data_step.
    destruct (Z.gtb_spec remaining 0) as [Hpos|Hle]; [|eauto].
    cbv zeta.
    destruct (read st fd _) as [[[n buffer] fd1] st1] eqn:R.
    destruct (Z.leb_spec n 0) as [Hn|Hn].
    + destruct (write st1 transfer_failed 27); eauto.
    + destruct (write st1 buffer (Z.to_nat n)) as [w st2].
      destruct (negb (w =? n)%Z).
      * destruct (write st2 transfer_failed 27); eauto.
      * apply IH. lia.
Qed.
Lemma le_bytes_length (n : nat) (z : Z) : length (le_bytes n z) = n.
Proof. revert z. induction n; intros z; simpl; auto. Qed.

Lemma off_t_bytes_length (z : Z) : length (off_t_bytes z) = sizeof_off_t.
Proof. apply le_bytes_length. Qed.

(** A write of the size frame that returns [sizeof(off_t)] has delivered
    the whole frame. *)
Lemma frame_written (st st1 : state) (z : Z) :
  write st (off_t_bytes z) sizeof_off_t = (Z.of_nat sizeof_off_t, st1) ->
  fs st1 = fs st /\
  sent (sk st1) = sent (sk st) ++ off_t_bytes z /\
  wlog (sk st1) = wlog (sk st) ++ [off_t_bytes z].
Proof.
  intros W. destruct (write_inv _ _ _ W) as (Wfs & _ & Wlog & k & Ws & Wr & _).
  assert (Hf : firstn sizeof_off_t (off_t_bytes z) = off_t_bytes z).
  { apply firstn_all2. now rewrite off_t_bytes_length. }
  rewrite Hf in *. repeat split; auto.
  rewrite Ws. f_equal. destruct Wr as [[Hw _]|Hw]; [discriminate|].
  apply firstn_all2. rewrite off_t_bytes_length.
  rewrite length_firstn, off_t_bytes_length in Hw. lia.
Qed.

(** [download_file] always returns once the fuel covers the file size. *)
Lemma download_file_total (nd : Node) (e : env) (fuel : nat) (st : state)
    (filename : cstr) :
  (forall s, stat (dir_size e) (fs st) (cwd e) (local_path nd e filename) = Ok s ->
             Z.to_nat (st_size s) <= fuel) ->
  exists r st', download_file nd e fuel st filename = Some (r, st').
Proof.
  intros Hf. unfold download_file.
  destruct (stat (dir_size e) (fs st) (cwd e) (local_path nd e filename)) as [s|] eqn:Es.
  - destruct (open (fs st) (cwd e) (local_path nd e filename)) as [fd|].
    + destruct (write st (off_t_bytes (st_size s)) sizeof_off_t) as [w st1].
      destruct (negb (w =? Z.of_nat sizeof_off_t)%Z).
      * destruct (write st1 _ 31); eauto.
      * apply send_data_total. now apply Hf.
    + destruct (write st (msg_open_failed nd) 29); eauto.
  - destruct (write st (msg_not_found nd) 30); eauto.
Qed.

(** ** Download of a path that names no regular file *)





(** ** Failure in the middle of a download *)

(** A read that returns no data ends the loop with the error text. *)
Lemma send_data_read_fails (fuel : nat) (st : state) (fd : fdesc)
    (remaining n : Z) (buffer : bytes) (fd1 : fdesc) (st1 : state) :
  (0 < remaining)%Z ->
  read st fd (if (remaining <? Z.of_nat BUFFER_SIZE)%Z
              then Z.to_nat remaining else BUFFER_SIZE)
  = (n, buffer, fd1, st1) ->
  (n <= 0)%Z ->
  send_data (S fuel) st fd remaining
  = Some ((-1)%Z, snd (write st1 (lit "ERROR: File transfer failed") 27)).
Proof.
  intros Hpos R Hn. rewrite send_data_step.
  destruct (Z.gtb_spec remaining 0); [|lia]. cbv zeta. rewrite R.
  destruct (Z.leb_spec n 0); [|lia].
  change (lit "ERROR: File transfer failed") with transfer_failed.
  now destruct (write st1 transfer_failed 27).
Qed.

(** A short write ends the loop with the error text. *)
Lemma send_data_short_write (fuel : nat) (st : state) (fd : fdesc)
    (remaining n w : Z) (buffer : bytes) (fd1 : fdesc) (st1 st2 : state) :
  (0 < remaining)%Z ->
  read st fd (if (remaining <? Z.of_nat BUFFER_SIZE)%Z
              then Z.to_nat remaining else BUFFER_SIZE)
  = (n, buffer, fd1, st1) ->
  (0 < n)%Z ->
  write st1 buffer (Z.to_nat n) = (w, st2) -> w <> n ->
  send_data (S fuel) st fd remaining
  = Some ((-1)%Z, snd (write st2 (lit "ERROR: File transfer failed") 27)).
Proof.
  intros Hpos R Hn W Hw. rewrite send_data_step.
  destruct (Z.gtb_spec remaining 0); [|lia]. cbv zeta. rewrite R.
  destruct (Z.leb_spec n 0); [lia|]. rewrite W.
  destruct (Z.eqb_spec w n); [contradiction|]. simpl negb. cbv iota.
  change (lit "ERROR: File transfer failed") with transfer_failed.
  now destruct (write st2 transfer_failed 27).
Qed.

(** A transfer that ends with -1 met a failure. *)
Lemma send_data_fails (fuel : nat) :
  forall (st : state) (fd : fdesc) (remaining : Z) (st' : state),
    send_data fuel st fd remaining = Some ((-1)%Z, st') ->
    fails_midstream st fd remaining.
Proof.
  induction fuel as [|fuel IH]; intros st fd remaining st' H.
  - simpl in H. destruct (remaining >? 0)%Z; discriminate.
  - rewrite send_data_step in H.
    destruct (Z.gtb_spec remaining 0) as [Hpos|Hle]; [|discriminate].
    cbv zeta in H.
    destruct (read st fd _) as [[[n buffer] fd1] st1] eqn:R.
    destruct (Z.leb_spec n 0) as [Hn|Hn].
    + eapply read_fails; eauto.
    + destruct (write st1 buffer (Z.to_nat n)) as [w st2] eqn:W.
      destruct (Z.eqb_spec w n) as [->|Hw].
      * eapply round_passes; eauto.
      * eapply write_short; eauto.
Qed.

(** A transfer that meets a failure ends with -1, if it ends. *)
Lemma fails_send_data (st : state) (fd : fdesc) (remaining : Z) :
  fails_midstream st fd remaining ->
  forall fuel r st',
    send_data fuel st fd remaining = Some (r, st') -> r = (-1)%Z.
Proof.
  induction 1 as [st fd remaining n buffer fd1 st1 Hpos R Hn
                 |st fd remaining n w buffer fd1 st1 st2 Hpos R Hn W Hw
                 |st fd remaining n buffer fd1 st1 st2 Hpos R Hn W Hrest IH];
    intros fuel r st' H; destruct fuel as [|fuel];
    try (simpl in H; destruct (Z.gtb_spec remaining 0); [discriminate|lia]).
  - rewrite (send_data_read_fails fuel _ _ Hpos R Hn) in H. congruence.
  - rewrite (send_data_short_write fuel _ _ Hpos R Hn W Hw) in H. congruence.
  - rewrite send_data_step in H.
    destruct (Z.gtb_spec remaining 0); [|lia]. cbv zeta in H. rewrite R in H.
    destruct (Z.leb_spec n 0); [lia|]. rewrite W, Z.eqb_refl in H.
    simpl negb in H. cbv iota in H. eapply IH; eauto.
Qed.

(** C10, as stated, fails in its last part.  A file of 30 bytes is
    announced; the first [read] returns three bytes and the second returns
    none (end of file, or an error).  The node sends the frame, the three
    bytes and the 27 bytes of the error text: after the frame the peer
    receives exactly the 30 bytes that were announced. *)
Lemma download_failure_fills_the_frame_counterexample :
  (exists st',
     download_file S2 env0 30 (connect_with fs30 [] [RUpTo 3; RUpTo 0])
       (lit "~S1/thirty.pdf")
     = Some ((-1)%Z, st') /\
     fails_midstream
       (snd (write (connect_with fs30 [] [RUpTo 3; RUpTo 0])
               (off_t_bytes 30) sizeof_off_t))
       {| fd_node := File thirty; fd_off := 0 |} 30 /\
     sent (sk st')
     = off_t_bytes 30 ++ lit "%PD" ++ lit "ERROR: File transfer failed" /\
     length (skipn sizeof_off_t (sent (sk st'))) = 30) /\
  (exists st',
     download_file S2 env0 30 (connect_with fs30 [] [RUpTo 3; RErr])
       (lit "~S1/thirty.pdf")
     = Some ((-1)%Z, st') /\
     fails_midstream
       (snd (write (connect_with fs30 [] [RUpTo 3; RErr])
               (off_t_bytes 30) sizeof_off_t))
       {| fd_node := File thirty; fd_off := 0 |} 30 /\
     sent (sk st')
     = off_t_bytes 30 ++ lit "%PD" ++ lit "ERROR: File transfer failed" /\
     length (skipn sizeof_off_t (sent (sk st'))) = 30).
Proof.
  split; eexists;
    (split; [vm_compute; reflexivity|]);
    (split; [|split; vm_compute; reflexivity]);
    eapply (@send_data_fails 30); vm_compute; reflexivity.
Qed.

(** C10, amended.  Let the path of a [downlf] request name something that
    exists and can be opened, and let the size frame have been written
    whole.  With fuel for the announced size the download returns, and
    the file system is untouched.  When a read returns no data or a write
    is short in some round of the transfer, the result is -1, the last
    data the node hands to the socket is the 27 bytes "ERROR: File
    transfer failed", and what has reached the peer is the size frame,
    then a prefix of the file strictly shorter than the announced size,
    then what the socket took of the error text (all of it when no write
    outcome is scripted after the frame).  When no round fails, the result
    is 0, no error text is written, and the peer has received the frame
    followed by exactly the announced number of file bytes.  (The bytes
    that follow the frame after a failure can number exactly the
    announced size: the counterexample above.) *)
Theorem download_midstream_failure
    (nd : Node) (e : env) (fuel : nat) (st : state) (filename : cstr)
    (s : stat_t) (fd : fdesc) (st1 : state) :
  stat (dir_size e) (fs st) (cwd e) (local_path nd e filename) = Ok s ->
  open (fs st) (cwd e) (local_path nd e filename) = Ok fd ->
  write st (off_t_bytes (st_size s)) sizeof_off_t
  = (Z.of_nat sizeof_off_t, st1) ->
  Z.to_nat (st_size s) <= fuel ->
  exists r st',
    download_file nd e fuel st filename = Some (r, st') /\
    fs st' = fs st /\
    (fails_midstream st1 fd (st_size s) ->
     r = (-1)%Z /\
     exists payload calls k,
       payload = fd_avail fd (length payload) /\
       (Z.of_nat (length payload) < st_size s)%Z /\
       wlog (sk st') = wlog (sk st) ++ [off_t_bytes (st_size s)] ++ calls
                       ++ [lit "ERROR: File transfer failed"] /\
       sent (sk st') = sent (sk st) ++ off_t_bytes (st_size s) ++ payload
                       ++ firstn k (lit "ERROR: File transfer failed") /\
       (script (sk st1) = [] -> k = 27)) /\
    (~ fails_midstream st1 fd (st_size s) ->
     r = 0%Z /\
     exists payload calls,
       payload = fd_avail fd (length payload) /\
       length payload = Z.to_nat (st_size s) /\
       concat calls = payload /\
       wlog (sk st') = wlog (sk st) ++ [off_t_bytes (st_size s)] ++ calls /\
       sent (sk st') = sent (sk st) ++ off_t_bytes (st_size s) ++ payload).
Proof.
  intros Hstat Hopen W Hfuel. unfold download_file.
  rewrite Hstat, Hopen, W, Z.eqb_refl. simpl negb. cbv iota.
  destruct (frame_written _ _ W) as (Ffs & Fs & Fl).
  destruct (@send_data_total fuel st1 fd (st_size s) Hfuel) as (r & st' & H).
  destruct (send_data_inv _ _ _ _ H) as (Ifs & payload & calls & Ipay & Icase).
  exists r, st'. split; [exact H|]. split; [congruence|].
  destruct Icase as [(-> & Is & Il & Ic & Ilen & _)
                    |(-> & Ilen & Il & k & Is & Ih)].
  - split.
    + intros Hf. pose proof (fails_send_data Hf _ H). discriminate.
    + intros _. split; [reflexivity|]. exists payload, calls.
      rewrite Is, Il, Fs, Fl, <- !app_assoc. auto.
  - split.
    + intros _. split; [reflexivity|]. exists payload, calls, k.
      split; [exact Ipay|]. split; [exact Ilen|].
      split; [rewrite Il, Fl, <- !app_assoc; reflexivity|].
      rewrite Is, Fs, <- !app_assoc. auto.
    + intros Hn. exfalso. apply Hn. eapply send_data_fails; eauto.
Qed.

Lemma download_midstream_failure_witness :
  fails_midstream
    (snd (write (connect_with fs1 [] [RUpTo 4; RErr])
            (off_t_bytes 15) sizeof_off_t))
    {| fd_node := File report; fd_off := 0 |} 15 /\
  exists r st',
    download_file S2 env0 15 (connect_with fs1 [] [RUpTo 4; RErr])
                  (lit "~S1/docs/report.pdf") = Some (r, st') /\
    fs st' = fs1 /\
    (fails_midstream
       (snd (write (connect_with fs1 [] [RUpTo 4; RErr])
               (off_t_bytes 15) sizeof_off_t))
       {| fd_node := File report; fd_off := 0 |} 15 ->
     r = (-1)%Z /\
     exists payload calls k,
       payload = fd_avail {| fd_node := File report; fd_off := 0 |}
                          (length payload) /\
       (Z.of_nat (length payload) < 15)%Z /\
       wlog (sk st') = [] ++ [off_t_bytes 15] ++ calls
                       ++ [lit "ERROR: File transfer failed"] /\
       sent (sk st') = [] ++ off_t_bytes 15 ++ payload
                       ++ firstn k (lit "ERROR: File transfer failed") /\
       (script (sk (snd (write (connect_with fs1 [] [RUpTo 4; RErr])
                               (off_t_bytes 15) sizeof_off_t))) = [] ->
        k = 27)) /\
    (~ fails_midstream
         (snd (write (connect_with fs1 [] [RUpTo 4; RErr])
                 (off_t_bytes 15) sizeof_off_t))
         {| fd_node := File report; fd_off := 0 |} 15 ->
     r = 0%Z /\
     exists payload calls,
       payload = fd_avail {| fd_node := File report; fd_off := 0 |}
                          (length payload) /\
       length payload = Z.to_nat 15 /\
       concat calls = payload /\
       wlog (sk st') = [] ++ [off_t_bytes 15] ++ calls /\
       sent (sk st') = [] ++ off_t_bytes 15 ++ payload).
Proof.
  split.
  - eapply (@send_data_fails 15). vm_compute. reflexivity.
  - apply (@download_midstream_failure S2 env0 15
             (connect_with fs1 [] [RUpTo 4; RErr]) (lit "~S1/docs/report.pdf")
             {| st_isdir := false; st_size := 15 |}
             {| fd_node := File report; fd_off := 0 |}
             (snd (write (connect_with fs1 [] [RUpTo 4; RErr])
                         (off_t_bytes 15) sizeof_off_t))).
    + vm_compute. reflexivity.
    + vm_compute. reflexivity.
    + vm_compute. reflexivity.
    + vm_compute. lia.
Defined.

(** A run with a read cut to four bytes and a failing read after it: four
    bytes of the file, then the error text. *)
Lemma download_midstream_failure_run :
  exists st',
    download_file S2 env0 15 (connect_with fs1 [] [RUpTo 4; RErr])
                  (lit "~S1/docs/report.pdf") = Some ((-1)%Z, st') /\
    sent (sk st')
    = off_t_bytes 15 ++ lit "%PDF" ++ lit "ERROR: File transfer failed".
Proof. eexists. split; vm_compute; reflexivity. Qed.

(** ** The temporary archive of [downltar] *)

(** On every path on which [download_tar] returns -1 the file system is
    left as the [tar] command left it: nothing is unlinked. *)
Lemma download_tar_failure_fs
    (tar_format : list (cstr * bytes) -> bytes) (nd : Node) (e : env)
    (fuel : nat) (st : state) (tarfile : cstr) (st' : state) :
  download_tar tar_format nd e fuel st tarfile = Some ((-1)%Z, st') ->
  fs st' = fs (snd (system_find_tar tar_format nd e st
                      (snprintf MAX_PATH_LEN (HOME e ++ lit "/" ++ store nd))
                      tarfile)).
Proof.
  unfold download_tar.
  destruct (system_find_tar tar_format nd e st _ tarfile) as [status st0].
  simpl snd. destruct (negb (status =? 0)%Z).
  { destruct (write st0 _ 32) as [w st1] eqn:W. intros H.
    injection H as <-. now destruct (write_inv _ _ _ W) as (-> & _). }
  destruct (stat (dir_size e) (fs st0) (cwd e) tarfile) as [s|].
  2:{ destruct (write st0 _ 25) as [w st1] eqn:W. intros H.
      injection H as <-. now destruct (write_inv _ _ _ W) as (-> & _). }
  destruct (open (fs st0) (cwd e) tarfile) as [fd|].
  2:{ destruct (write st0 _ 30) as [w st1] eqn:W. intros H.
      injection H as <-. now destruct (write_inv _ _ _ W) as (-> & _). }
  destruct (write st0 _ sizeof_off_t) as [w st1] eqn:W.
  destruct (write_inv _ _ _ W) as (Wfs & _).
  assert (Hloop : forall fuel st fd remaining ok st2,
             send_archive fuel st fd remaining = Some (ok, st2) ->
             fs st2 = fs st).
  { clear. induction fuel as [|fuel IH]; intros st fd remaining ok st2 H;
      simpl in H; destruct (remaining >? 0)%Z; try discriminate;
      try (injection H as _ <-; reflexivity).
    destruct (sendfile st fd (Z.to_nat remaining)) as [[n fd1] st1] eqn:S.
    assert (Hs : fs st1 = fs st).
    { unfold sendfile in S. destruct (fd_node fd).
      - destruct (sock_put (sk st) _). now injection S as _ _ <-.
      - now injection S as _ _ <-. }
    destruct (n <=? 0)%Z.
    - destruct (write st1 transfer_failed 27) as [w st3] eqn:W.
      injection H as _ <-. destruct (write_inv _ _ _ W) as (-> & _). exact Hs.
    - rewrite (IH _ _ _ _ _ H). exact Hs. }
  destruct (send_archive fuel st1 fd (st_size s)) as [[[|] st2]|] eqn:L;
    try discriminate.
  - destruct (unlink (fs st2) (cwd e) tarfile); discriminate.
  - intros H. injection H as <-. rewrite (Hloop _ _ _ _ _ _ L). exact Wfs.
Qed.

(** C5 fails on the code.  The peer takes the size frame and then closes:
    [sendfile] fails, [download_tar] returns -1 and /tmp/pdffiles.tar is
    still there with the whole archive in it.  On the same file system a
    transfer that succeeds does unlink it. *)
Theorem download_tar_failed_transfer_keeps_archive :
  (exists st',
     download_tar flat_archive S2 env0 1
       (connect_with fs1 [WUpTo 8; WErr] []) (lit "/tmp/pdffiles.tar")
     = Some ((-1)%Z, st') /\
     lookup [lit "tmp"; lit "pdffiles.tar"] (fs st')
     = Some (File (flat_archive [(lit "/home/u/S2/docs/report.pdf", report)])))
  /\
  (exists st',
     download_tar flat_archive S2 env0 1
       (connect fs1) (lit "/tmp/pdffiles.tar")
     = Some (0%Z, st') /\
     lookup [lit "tmp"; lit "pdffiles.tar"] (fs st') = None).
Proof.
  split; eexists; (split; [vm_compute; reflexivity|]); vm_compute; reflexivity.
Qed.
(** ** Listing *)

(** C1 fails on the code.  After [uploadf /tmp/report.pdf ~S1/docs] has
    stored the file as docs/report.pdf under the storage root, the reply to
    [dispfnames ~S1/docs] is the line ~S1/report.pdf: the path is relative
    to the directory that was listed, so the line is not the virtual path
    of the file.  Only a listing of the root marker itself gives
    ~S1/docs/report.pdf.  The ZIP node does the same. *)
Theorem dispfnames_of_subdirectory_drops_prefix :
  (exists st1 st2 st3,
     handle_client flat_archive S2 env0 1 (connect fs0)
       (lit "uploadf /tmp/report.pdf ~S1/docs") = Some st1 /\
     fs st1 = fs1 /\
     sent (sk st1) = lit "SUCCESS: PDF file stored in S2" /\
     handle_client flat_archive S2 env0 1 (connect (fs st1))
       (lit "dispfnames ~S1/docs") = Some st2 /\
     sent (sk st2) = lit "~S1/report.pdf" ++ [LF] /\
     sent (sk st2) <> lit "~S1/docs/report.pdf" ++ [LF] /\
     handle_client flat_archive S2 env0 2 (connect (fs st1))
       (lit "dispfnames ~S1") = Some st3 /\
     sent (sk st3) = lit "~S1/docs/report.pdf" ++ [LF])
  /\
  (exists st2,
     handle_client flat_archive S4 env0 1 (connect fs_zip)
       (lit "dispfnames ~S1/docs") = Some st2 /\
     sent (sk st2) = lit "~S1/old.zip" ++ [LF] /\
     sent (sk st2) <> lit "~S1/docs/old.zip" ++ [LF]).
Proof.
  split.
  - do 3 eexists.
    split; [vm_compute; reflexivity|].
    split; [vm_compute; reflexivity|].
    split; [vm_compute; reflexivity|].
    split; [vm_compute; reflexivity|].
    split; [vm_compute; reflexivity|].
    split; [vm_compute; discriminate|].
    split; vm_compute; reflexivity.
  - eexists.
    split; [vm_compute; reflexivity|].
    split; [vm_compute; reflexivity|].
    vm_compute. discriminate.
Qed.

(** The buffer [file_list] is always the listing so far, cut to
    [BUFFER_SIZE - 1] characters. *)
Lemma strncat_cut (X src : cstr) :
  strncat (firstn (BUFFER_SIZE - 1) X) src
          (BUFFER_SIZE - length (firstn (BUFFER_SIZE - 1) X) - 1)
  = firstn (BUFFER_SIZE - 1) (X ++ src).
Proof.
  unfold strncat. rewrite firstn_app, length_firstn. f_equal. f_equal.
  unfold BUFFER_SIZE. lia.
Qed.


Section Listing.

Variable nd : Node.
Variable e : env.
Variable root : node.




End Listing.


(** ** The file-system tree *)

Lemma streq_false_iff (a b : cstr) : streq a b = false <-> a <> b.
Proof.
  unfold streq. destruct (list_eq_dec ascii_dec a b); split; congruence.
Qed.

Lemma assoc_set_same (k : cstr) (v : node) (l : list (cstr * node)) :
  assoc k (set_entry k v l) = Some v.
Proof.
  induction l as [|[k' v'] l IH]; simpl.
  - now rewrite streq_refl.
  - destruct (streq k k') eqn:E; simpl.
    + now rewrite streq_refl.
    + now rewrite E.
Qed.

Lemma assoc_set_other (k k2 : cstr) (v : node) (l : list (cstr * node)) :
  k2 <> k -> assoc k2 (set_entry k v l) = assoc k2 l.
Proof.
  intros Hne. apply streq_false_iff in Hne.
  induction l as [|[k' v'] l IH]; simpl.
  - now rewrite Hne.
  - destruct (streq k k') eqn:E; simpl.
    + apply streq_true_iff in E. subst k'. now rewrite Hne.
    + now rewrite IH.
Qed.

Lemma assoc_del_same (k : cstr) (l : list (cstr * node)) :
  assoc k (del_entry k l) = None.
Proof.
  induction l as [|[k' v'] l IH]; simpl; auto.
  destruct (streq k k') eqn:E; simpl; auto. now rewrite E.
Qed.

Lemma assoc_del_other (k k2 : cstr) (l : list (cstr * node)) :
  k2 <> k -> assoc k2 (del_entry k l) = assoc k2 l.
Proof.
  intros Hne. apply streq_false_iff in Hne.
  induction l as [|[k' v'] l IH]; simpl; auto.
  destruct (streq k k') eqn:E; simpl.
  - apply streq_true_iff in E. subst k'. now rewrite Hne.
  - now rewrite IH.
Qed.

Lemma same_kind_refl (m : node) : same_kind m m.
Proof. now destruct m. Qed.

Lemma same_kind_trans (a b c : node) :
  same_kind a b -> same_kind b c -> same_kind a c.
Proof. destruct a, b, c; simpl; congruence || tauto. Qed.

Lemma extends_refl (root : node) : extends root root.
Proof. intros q m H. exists m. split; [exact H|apply same_kind_refl]. Qed.

Lemma extends_trans (a b c : node) :
  extends a b -> extends b c -> extends a c.
Proof.
  intros Hab Hbc q m H. destruct (Hab _ _ H) as (m1 & H1 & K1).
  destruct (Hbc _ _ H1) as (m2 & H2 & K2). exists m2. split; auto.
  eapply same_kind_trans; eauto.
Qed.

(** Binding a name that was free keeps everything else. *)
Lemma put_extends (new : node) :
  forall (c : list cstr) (root : node),
    lookup c root = None -> extends root (put c new root).
Proof.
  induction c as [|k c IH]; intros root Hnone; [discriminate|].
  intros q m Hq. destruct root as [d|w ents].
  { exists m. split; [exact Hq|apply same_kind_refl]. }
  simpl in Hnone. cbn [put].
  destruct q as [|k2 q].
  { injection Hq as <-. destruct (assoc k ents); [|destruct c];
      eexists; (split; [reflexivity|reflexivity]). }
  cbn [lookup] in Hq.
  destruct (list_eq_dec ascii_dec k2 k) as [->|Hne].
  - destruct (assoc k ents) as [sub|] eqn:Ea; [|discriminate].
    cbn [lookup]. rewrite assoc_set_same. now apply IH.
  - assert (Hsame : forall v, lookup (k2 :: q) (Dir w (set_entry k v ents))
                              = lookup (k2 :: q) (Dir w ents)).
    { intros v. cbn [lookup]. now rewrite assoc_set_other. }
    destruct (assoc k ents) as [sub|].
    + rewrite Hsame. exists m. split; [exact Hq|apply same_kind_refl].
    + destruct c.
      * rewrite Hsame. exists m. split; [exact Hq|apply same_kind_refl].
      * exists m. split; [exact Hq|apply same_kind_refl].
Qed.

(** The name that was bound is there afterwards. *)
Lemma lookup_put (new : node) :
  forall (c : list cstr) (root : node) (w : bool) (ents : list (cstr * node)),
    c <> [] -> lookup (removelast c) root = Some (Dir w ents) ->
    lookup c (put c new root) = Some new.
Proof.
  induction c as [|k c IH]; intros root w ents Hne Hpar; [congruence|].
  destruct c as [|k1 c].
  - simpl in Hpar. injection Hpar as ->. cbn [put].
    destruct (assoc k ents); cbn [lookup]; now rewrite assoc_set_same.
  - change (removelast (k :: k1 :: c)) with (k :: removelast (k1 :: c)) in Hpar.
    destruct root as [d|w0 ents0]; [discriminate|].
    cbn [lookup] in Hpar. cbn [put].
    destruct (assoc k ents0) as [sub|] eqn:Ea; [|discriminate].
    cbn [lookup]. rewrite assoc_set_same.
    apply (IH sub w ents); [discriminate|exact Hpar].
Qed.

Lemma walk_extends (root root' : node) :
  extends root root' ->
  forall (comps cur c : list cstr),
    walk root cur comps = Ok c -> walk root' cur comps = Ok c.
Proof.
  intros Hext. induction comps as [|x comps IH]; intros cur c H; simpl in *.
  - exact H.
  - destruct (lookup cur root) as [[d|w ents]|] eqn:El; try discriminate.
    destruct (Hext _ _ El) as (m' & -> & K).
    destruct m' as [d'|w' ents']; [contradiction|].
    destruct (streq x _); [now apply IH|].
    destruct (streq x _); now apply IH.
Qed.

Lemma resolve_extends (root root' : node) (cwd : list cstr) (path : cstr)
    (l : located) :
  extends root root' ->
  resolve root cwd path = Ok l -> resolve root' cwd path = Ok l.
Proof.
  intros Hext. unfold resolve. destruct path as [|c0 path]; [discriminate|].
  destruct (walk root _ _) as [p|] eqn:Ew; [|discriminate].
  now rewrite (walk_extends Hext _ _ Ew).
Qed.

Lemma mkdir_ok_inv (root root' : node) (cwd : list cstr) (path : cstr) :
  mkdir root cwd path = Ok root' ->
  exists l,
    resolve root cwd path = Ok l /\
    lookup (at_path l) root = None /\
    dir_writable (removelast (at_path l)) root = true /\
    root' = put (at_path l) (Dir true []) root.
Proof.
  unfold mkdir. destruct (resolve root cwd path) as [l|]; [|discriminate].
  destruct (lookup (at_path l) root) eqn:El; [discriminate|].
  destruct (dir_writable _ root) eqn:Ew; [|discriminate].
  intros H. injection H as <-. now exists l.
Qed.

Lemma mkdir_eexist_iff (root : node) (cwd : list cstr) (path : cstr) :
  mkdir root cwd path = Err EEXIST <->
  exists l m, resolve root cwd path = Ok l /\ lookup (at_path l) root = Some m.
Proof.
  unfold mkdir, resolve. destruct path as [|c0 path].
  { split; [discriminate|]. intros (l & m & H & _). discriminate. }
  destruct (walk root _ _) as [p|err] eqn:Ew.
  - cbn [at_path]. destruct (lookup p root) as [m|] eqn:El.
    + split; auto. intros _. eexists. exists m. split; [reflexivity|exact El].
    + split.
      * destruct (dir_writable _ root); discriminate.
      * intros (l & m & H & Hl). injection H as <-. simpl in Hl. congruence.
  - split.
    + intros H. exfalso. injection H as ->. clear -Ew.
      revert Ew. generalize (if is_slash c0 then [] else cwd).
      induction (components (c0 :: path)) as [|x comps IH]; intros cur;
        simpl; [discriminate|].
      destruct (lookup cur root) as [[d|w ents]|]; try discriminate.
      destruct (streq x _); [apply IH|]. destruct (streq x _); apply IH.
    + intros (l & m & H & _). discriminate.
Qed.

Lemma mkdir_extends (root root' : node) (cwd : list cstr) (path : cstr) :
  mkdir root cwd path = Ok root' -> extends root root'.
Proof.
  intros H. destruct (mkdir_ok_inv _ _ _ H) as (l & _ & Hn & _ & ->).
  now apply put_extends.
Qed.

(** What [mkdir] has made exists. *)
Lemma mkdir_makes (e : env) (root root' : node) (path : cstr) :
  mkdir root (cwd e) path = Ok root' -> exists_at e root' path.
Proof.
  intros H. pose proof (mkdir_extends _ _ _ H) as Hext.
  destruct (mkdir_ok_inv _ _ _ H) as (l & Hr & Hn & Hw & ->).
  apply mkdir_eexist_iff. exists l, (Dir true []). split.
  - eapply resolve_extends; eauto.
  - unfold dir_writable in Hw.
    destruct (lookup (removelast (at_path l)) root) as [[d|w ents]|] eqn:Ep;
      try discriminate.
    apply lookup_put with (w := w) (ents := ents); [|exact Ep].
    intros E. rewrite E in Hn. discriminate.
Qed.

(** What exists keeps existing when the file system grows. *)
Lemma exists_at_extends (e : env) (root root' : node) (path : cstr) :
  extends root root' -> exists_at e root path -> exists_at e root' path.
Proof.
  intros Hext H. apply mkdir_eexist_iff in H. destruct H as (l & m & Hr & Hl).
  apply mkdir_eexist_iff. destruct (Hext _ _ Hl) as (m' & Hl' & _).
  exists l, m'. split; [eapply resolve_extends; eauto|exact Hl'].
Qed.

(** ** Directory materialisation *)

Section Materializer.

Variable e : env.

Lemma mkdir_segments_run :
  forall (rest pre : cstr) (st : state) (ok : bool) (st1 : state),
    mkdir_segments e pre rest st = (ok, st1) ->
    extends (fs st) (fs st1) /\ sk st1 = sk st /\ rscript st1 = rscript st /\
    (ok = true -> Forall (exists_at e (fs st1)) (segments_from pre rest)) /\
    (ok = false ->
     exists seg err, In seg (segments_from pre rest) /\ err <> EEXIST /\
                     mkdir (fs st1) (cwd e) seg = Err err).
Proof.
  induction rest as [|c rest IH]; intros pre st ok st1 H; simpl in H |- *.
  - injection H as <- <-.
    split; [|split; [|split; [|split]]]; auto using extends_refl.
    discriminate.
  - destruct (is_slash c).
    + destruct (mkdir (fs st) (cwd e) pre) as [root'|err] eqn:Em.
      * destruct (IH _ _ _ _ H) as (Hext & Hsk & Hrs & Hok & Hfail).
        simpl in Hext, Hsk, Hrs.
        pose proof (mkdir_extends _ _ _ Em) as Hext0.
        split; [|split; [|split; [|split]]]; auto.
        -- eapply extends_trans; eauto.
        -- intros Ht. constructor; [|now apply Hok].
           eapply exists_at_extends; [exact Hext|]. eapply mkdir_makes; eauto.
        -- intros Hf. destruct (Hfail Hf) as (seg & err & Hin & Hne & Hm).
           exists seg, err. split; [now right|now split].
      * destruct err;
          try (injection H as <- <-;
               (split; [|split; [|split; [|split]]]);
               auto using extends_refl;
               [discriminate|intros _; eexists; eexists;
                split; [now left|split; [|exact Em]]; discriminate]).
        destruct (IH _ _ _ _ H) as (Hext & Hsk & Hrs & Hok & Hfail).
        split; [|split; [|split; [|split]]]; auto.
        -- intros Ht. constructor; [|now apply Hok].
           eapply exists_at_extends; [exact Hext|exact Em].
        -- intros Hf. destruct (Hfail Hf) as (seg & err & Hin & Hne & Hm).
           exists seg, err. split; [now right|now split].
    + apply (IH _ _ _ _ H).
Qed.

Lemma mkdir_segments_existing :
  forall (rest pre : cstr) (st : state),
    Forall (exists_at e (fs st)) (segments_from pre rest) ->
    mkdir_segments e pre rest st = (true, st).
Proof.
  induction rest as [|c rest IH]; intros pre st H; simpl in H |- *.
  - reflexivity.
  - destruct (is_slash c).
    + inversion H as [|x l Hx Hl]; subst. unfold exists_at in Hx. rewrite Hx.
      now apply IH.
    + now apply IH.
Qed.

Lemma mkdir_segments_fails_again :
  forall (rest pre : cstr) (st st1 : state),
    mkdir_segments e pre rest st = (false, st1) ->
    mkdir_segments e pre rest st1 = (false, st1).
Proof.
  induction rest as [|c rest IH]; intros pre st st1 H; simpl in H |- *.
  - discriminate.
  - destruct (is_slash c).
    + destruct (mkdir (fs st) (cwd e) pre) as [root'|err] eqn:Em.
      * destruct (mkdir_segments_run _ _ _ H) as (Hext & _).
        assert (Hx : exists_at e (fs st1) pre).
        { eapply exists_at_extends; [exact Hext|]. eapply mkdir_makes; eauto. }
        unfold exists_at in Hx. rewrite Hx. eapply IH; eauto.
      * destruct err; try (injection H as <-; now rewrite Em).
        destruct (mkdir_segments_run _ _ _ H) as (Hext & _).
        assert (Hx : exists_at e (fs st1) pre).
        { eapply exists_at_extends; [exact Hext|exact Em]. }
        unfold exists_at in Hx. rewrite Hx. eapply IH; eauto.
    + eapply IH; eauto.
Qed.

Lemma with_fs_same (st : state) : with_fs st (fs st) = st.
Proof. now destruct st. Qed.

(** The outcome of [create_directory_tree] and of a second run. *)
Lemma create_directory_tree_spec
    (st : state) (path : cstr) (r : Z) (st1 : state) :
  create_directory_tree e st path = (r, st1) ->
  create_directory_tree e st1 path = (r, st1) /\
  (r = 0%Z /\ Forall (exists_at e (fs st1)) (segments path) \/
   r = (-1)%Z /\
   exists seg err, In seg (segments path) /\ err <> EEXIST /\
                   mkdir (fs st1) (cwd e) seg = Err err) /\
  (Forall (exists_at e (fs st)) (segments path) -> r = 0%Z /\ st1 = st) /\
  extends (fs st) (fs st1) /\ sk st1 = sk st.
Proof.
  unfold create_directory_tree, segments.
  set (tmp := snprintf MAX_PATH_LEN path).
  set (start := match tmp with
                | c :: t => if is_slash c then ([c], t) else ([], tmp)
                | [] => ([], [])
                end).
  assert (Hstart : match tmp with
                   | c :: t => if is_slash c then segments_from [c] t
                               else segments_from [] tmp
                   | [] => []
                   end = segments_from (fst start) (snd start)).
  { unfold start. destruct tmp as [|c t]; [reflexivity|].
    now destruct (is_slash c). }
  rewrite Hstart. destruct start as [pre rest]. cbn [fst snd].
  destruct (mkdir_segments e pre rest st) as [ok st0] eqn:Es.
  destruct (mkdir_segments_run _ _ _ Es) as (Hext & Hsk & Hrs & Hok & Hfail).
  assert (Hall : Forall (exists_at e (fs st)) (segments_from pre rest ++ [tmp])
                 -> ok = true /\ st0 = st /\ exists_at e (fs st) tmp).
  { intros Hf. apply Forall_app in Hf. destruct Hf as [Hf Ht].
    rewrite (mkdir_segments_existing _ _ _ Hf) in Es. injection Es as <- <-.
    inversion Ht; auto. }
  destruct ok.
  - specialize (Hok eq_refl).
    destruct (mkdir (fs st0) (cwd e) tmp) as [root'|err] eqn:Em.
    + intros H. injection H as <- <-.
      pose proof (mkdir_extends _ _ _ Em) as Hext1.
      pose proof (mkdir_makes e _ _ Em) as Hmade.
      assert (Hsegs : Forall (exists_at e root') (segments_from pre rest)).
      { eapply Forall_impl; [|exact Hok]. intros p.
        now apply exists_at_extends. }
      split; [|split; [|split; [|split]]].
      * rewrite (mkdir_segments_existing rest pre (with_fs st0 root') Hsegs).
        unfold exists_at in Hmade. simpl fs. now rewrite Hmade.
      * left. split; [reflexivity|]. apply Forall_app. split; [exact Hsegs|].
        constructor; [exact Hmade|constructor].
      * intros Hf. destruct (Hall Hf) as (_ & -> & Hx).
        unfold exists_at in Hx. congruence.
      * simpl. eapply extends_trans; eauto.
      * exact Hsk.
    + destruct err;
        try (intros H; injection H as <- <-;
             (split; [|split; [|split; [|split]]]);
             [rewrite (mkdir_segments_existing rest pre st0 Hok);
              now rewrite Em
             |right; split; [reflexivity|]; eexists; eexists;
              split; [apply in_or_app; right; now left|];
              split; [|exact Em]; discriminate
             |intros Hf; destruct (Hall Hf) as (_ & -> & Hx);
              unfold exists_at in Hx; congruence
             |exact Hext|exact Hsk]).
      intros H. injection H as <- <-.
      split; [|split; [|split; [|split]]]; auto.
      * rewrite (mkdir_segments_existing rest pre st0 Hok). now rewrite Em.
      * left. split; [reflexivity|]. apply Forall_app. split; [exact Hok|].
        constructor; [exact Em|constructor].
      * intros Hf. destruct (Hall Hf) as (_ & -> & _). auto.
  - intros H. injection H as <- <-.
    split; [|split; [|split; [|split]]]; auto.
    + now rewrite (mkdir_segments_fails_again _ _ _ Es).
    + right. split; [reflexivity|].
      destruct (Hfail eq_refl) as (seg & err & Hin & Hne & Hm).
      exists seg, err. repeat split; auto. apply in_or_app. now left.
    + intros Hf. destruct (Hall Hf) as (Habs & _). discriminate.
Qed.

End Materializer.

(** C7.  [create_directory_tree] returns 0 or -1, and running it again on
    the state it produced returns the same value and leaves that state as
    it is.  When every path it hands to [mkdir] already exists it returns
    0 and changes nothing.  When it returns 0 all those paths exist
    afterwards; when it returns -1 one of them is refused by [mkdir] with
    an error other than [EEXIST]. *)
Theorem create_directory_tree_idempotent
    (e : env) (st : state) (path : cstr) (r : Z) (st1 : state) :
  create_directory_tree e st path = (r, st1) ->
  create_directory_tree e st1 path = (r, st1) /\
  (r = 0%Z /\ Forall (exists_at e (fs st1)) (segments path) \/
   r = (-1)%Z /\
   exists seg err, In seg (segments path) /\ err <> EEXIST /\
                   mkdir (fs st1) (cwd e) seg = Err err) /\
  (Forall (exists_at e (fs st)) (segments path) -> r = 0%Z /\ st1 = st) /\
  extends (fs st) (fs st1) /\ sk st1 = sk st.
Proof.
  intros H. exact (@create_directory_tree_spec e st path r st1 H).
Qed.
Lemma create_directory_tree_idempotent_witness :
  exists st1,
    create_directory_tree env0 (connect fs0) (lit "/home/u/S2/docs")
    = (0%Z, st1) /\
    create_directory_tree env0 st1 (lit "/home/u/S2/docs") = (0%Z, st1) /\
    (0%Z = 0%Z /\
     Forall (exists_at env0 (fs st1)) (segments (lit "/home/u/S2/docs")) \/
     0%Z = (-1)%Z /\
     exists seg err, In seg (segments (lit "/home/u/S2/docs")) /\
                     err <> EEXIST /\
                     mkdir (fs st1) (cwd env0) seg = Err err) /\
    (Forall (exists_at env0 (fs (connect fs0)))
            (segments (lit "/home/u/S2/docs")) -> 0%Z = 0%Z /\ st1 = connect fs0) /\
    extends (fs (connect fs0)) (fs st1) /\ sk st1 = sk (connect fs0).
Proof.
  eexists. split.
  - vm_compute. reflexivity.
  - apply (@create_directory_tree_idempotent env0 (connect fs0)
             (lit "/home/u/S2/docs") 0%Z).
    vm_compute. reflexivity.
Defined.

(** ** Moving a file *)

Lemma path_prefixb_refl (p : list cstr) : path_prefixb p p = true.
Proof. induction p; simpl; auto. now rewrite streq_refl. Qed.

Lemma path_eqb_eq (p q : list cstr) : path_eqb p q = true -> p = q.
Proof.
  unfold path_eqb. revert q. induction p as [|a p IH]; intros [|b q]; simpl;
    try discriminate; auto.
  rewrite !andb_true_iff. intros [[Hab Hpq] [_ Hqp]].
    apply streq_true_iff in Hab. subst b. f_equal. apply IH.
    now rewrite Hpq, Hqp.
Qed.

Lemma lookup_below_file (d : bytes) (q : list cstr) :
  dir_flag (lookup q (File d)) = None.
Proof. now destruct q. Qed.

(** Removing a file leaves every directory in place and makes none. *)
Lemma del_dir_flag (d : bytes) :
  forall (lo : list cstr) (root : node) (q : list cstr),
    lookup lo root = Some (File d) ->
    dir_flag (lookup q (del lo root)) = dir_flag (lookup q root).
Proof.
  induction lo as [|k lo IH]; intros root q H; [reflexivity|].
  destruct root as [d0|w ents]; [discriminate|].
  cbn [lookup] in H. destruct (assoc k ents) as [sub|] eqn:Ea; [|discriminate].
  cbn [del]. rewrite Ea.
  destruct q as [|k2 q]; [now destruct lo|].
  destruct (list_eq_dec ascii_dec k2 k) as [->|Hne].
  - destruct lo as [|k1 lo].
    + cbn [lookup]. rewrite assoc_del_same, Ea.
      simpl in H. injection H as ->. now rewrite lookup_below_file.
    + cbn [lookup]. rewrite assoc_set_same, Ea. now apply IH.
  - destruct lo as [|k1 lo]; cbn [lookup].
    + now rewrite assoc_del_other.
    + now rewrite assoc_set_other.
Qed.

(** Binding a name that is free or names a file to a file leaves every
    directory in place and makes none. *)
Lemma put_file_dir_flag (d : bytes) :
  forall (c : list cstr) (root : node) (q : list cstr),
    dir_flag (lookup c root) = None ->
    dir_flag (lookup q (put c (File d) root)) = dir_flag (lookup q root).
Proof.
  induction c as [|k c IH]; intros root q H.
  - simpl in H |- *. destruct root as [d0|w ents]; [|discriminate].
    now rewrite !lookup_below_file.
  - destruct root as [d0|w ents]; [reflexivity|].
    cbn [lookup] in H. cbn [put].
    destruct (assoc k ents) as [sub|] eqn:Ea.
    + destruct q as [|k2 q]; [reflexivity|]. cbn [lookup].
      destruct (list_eq_dec ascii_dec k2 k) as [->|Hne].
      * rewrite assoc_set_same, Ea. now apply IH.
      * now rewrite assoc_set_other.
    + destruct c as [|k1 c]; [|reflexivity].
      destruct q as [|k2 q]; [reflexivity|]. cbn [lookup].
      destruct (list_eq_dec ascii_dec k2 k) as [->|Hne].
      * rewrite assoc_set_same, Ea. now rewrite lookup_below_file.
      * now rewrite assoc_set_other.
Qed.

Lemma walk_dir_flag (root root' : node) :
  (forall q, dir_flag (lookup q root') = dir_flag (lookup q root)) ->
  forall (comps cur c : list cstr),
    walk root cur comps = Ok c -> walk root' cur comps = Ok c.
Proof.
  intros Hk. induction comps as [|x comps IH]; intros cur c H; simpl in *.
  - exact H.
  - specialize (Hk cur).
    destruct (lookup cur root) as [[d|w ents]|] eqn:El; try discriminate.
    destruct (lookup cur root') as [[d'|w' ents']|]; try discriminate.
    destruct (streq x _); [now apply IH|].
    destruct (streq x _); now apply IH.
Qed.

Lemma resolve_dir_flag (root root' : node) (cwd : list cstr) (path : cstr)
    (l : located) :
  (forall q, dir_flag (lookup q root') = dir_flag (lookup q root)) ->
  resolve root cwd path = Ok l -> resolve root' cwd path = Ok l.
Proof.
  intros Hk. unfold resolve. destruct path as [|c0 path]; [discriminate|].
  destruct (walk root _ _) as [p|] eqn:Ew; [|discriminate].
  now rewrite (@walk_dir_flag root root' Hk _ _ _ Ew).
Qed.

Lemma locate_file_inv (root : node) (cwd : list cstr) (path : cstr)
    (data : bytes) :
  locate root cwd path = Ok (File data) ->
  exists l, resolve root cwd path = Ok l /\
            lookup (at_path l) root = Some (File data) /\ trailing l = false.
Proof.
  unfold locate. destruct (resolve root cwd path) as [l|]; [|discriminate].
  destruct (lookup (at_path l) root) as [[d|w ents]|] eqn:El;
    try discriminate.
  destruct (trailing l) eqn:Et; [discriminate|].
  intros H. injection H as ->. now exists l.
Qed.

Lemma locate_file_intro (root : node) (cwd : list cstr) (path : cstr)
    (l : located) (data : bytes) :
  resolve root cwd path = Ok l ->
  lookup (at_path l) root = Some (File data) -> trailing l = false ->
  locate root cwd path = Ok (File data).
Proof. unfold locate. now intros -> -> ->. Qed.

(** A file keeps its contents while directories are made. *)
Lemma locate_file_extends (root root' : node) (cwd : list cstr) (path : cstr)
    (data : bytes) :
  extends root root' ->
  locate root cwd path = Ok (File data) ->
  locate root' cwd path = Ok (File data).
Proof.
  intros Hext H. destruct (locate_file_inv _ _ _ H) as (l & Hr & Hl & Ht).
  destruct (Hext _ _ Hl) as (m' & Hl' & K).
  destruct m' as [d'|]; [|contradiction]. simpl in K. subst d'.
  eapply locate_file_intro; eauto. eapply resolve_extends; eauto.
Qed.

(** After [rename] of a regular file, the new path names a regular file
    with the old contents. *)
Lemma rename_file (root root' : node) (cwd : list cstr) (old new : cstr)
    (data : bytes) :
  locate root cwd old = Ok (File data) ->
  rename root cwd old new = Ok root' ->
  locate root' cwd new = Ok (File data).
Proof.
  intros Hloc. destruct (locate_file_inv _ _ _ Hloc) as (lo & Hro & Hlo & Hto).
  unfold rename. rewrite Hro.
  destruct (resolve root cwd new) as [ln|] eqn:Hrn; [|discriminate].
  rewrite Hlo, Hto. simpl orb.
  destruct (negb (named lo) || negb (named ln)); [discriminate|].
  destruct (trailing ln) eqn:Htn; [discriminate|].
  destruct (path_eqb (at_path lo) (at_path ln)) eqn:Heq.
  - intros H. injection H as <-. apply path_eqb_eq in Heq.
    eapply locate_file_intro; eauto. now rewrite <- Heq.
  - assert (Hnd : dir_flag (lookup (at_path ln) root) = None ->
                  (if dir_writable (removelast (at_path lo)) root
                      && dir_writable (removelast (at_path ln)) root
                   then Ok (put (at_path ln) (File data)
                              (del (at_path lo) root))
                   else Err EACCES) = Ok root' ->
                  locate root' cwd new = Ok (File data)).
    { intros Hflag H.
      destruct (dir_writable (removelast (at_path lo)) root); [|discriminate].
      destruct (dir_writable (removelast (at_path ln)) root) eqn:Hw;
        [|discriminate].
      injection H as <-.
      assert (Hk : forall q,
                 dir_flag (lookup q (put (at_path ln) (File data)
                                       (del (at_path lo) root)))
                 = dir_flag (lookup q root)).
      { intros q. rewrite put_file_dir_flag.
        - now apply del_dir_flag with (d := data).
        - rewrite (del_dir_flag _ _ _ Hlo). exact Hflag. }
      eapply locate_file_intro; [eapply resolve_dir_flag; eauto| |exact Htn].
      unfold dir_writable in Hw.
      destruct (lookup (removelast (at_path ln)) root) as [[d|w ents]|] eqn:Ep;
        try discriminate.
      assert (Hp : dir_flag (lookup (removelast (at_path ln))
                               (del (at_path lo) root)) = Some w).
      { rewrite (del_dir_flag _ _ _ Hlo), Ep. reflexivity. }
      destruct (lookup (removelast (at_path ln)) (del (at_path lo) root))
        as [[d|w' ents']|] eqn:Ep'; try discriminate.
      apply lookup_put with (w := w') (ents := ents'); [|exact Ep'].
      intros E. rewrite E in Ep, Hflag. simpl in Ep. injection Ep as ->.
      discriminate. }
    destruct (lookup (at_path ln) root) as [[d|w ents]|] eqn:Eln;
      try discriminate; now apply Hnd.
Qed.
(** ** Upload, then download *)

(** On a connection that takes every write, with reads that are not cut
    short, the loop delivers the next [remaining] bytes of the file. *)
Lemma send_data_healthy (d : bytes) (fuel : nat) :
  forall (st : state) (fd : fdesc) (remaining : Z),
    script (sk st) = [] -> rscript st = [] -> fd_node fd = File d ->
    Z.to_nat remaining <= fuel ->
    (remaining <= Z.of_nat (length d - fd_off fd))%Z ->
    exists st',
      send_data fuel st fd remaining = Some (0%Z, st') /\
      sent (sk st') = sent (sk st) ++ fd_avail fd (Z.to_nat remaining) /\
      fs st' = fs st.
Proof.
  induction fuel as [|fuel IH]; intros st fd remaining Hsc Hrs Hfd Hfuel Hav.
  - simpl. destruct (Z.gtb_spec remaining 0); [lia|].
    exists st. replace (Z.to_nat remaining) with 0 by lia.
    now rewrite fd_avail_0, app_nil_r.
  - rewrite send_data_step. destruct (Z.gtb_spec remaining 0) as [Hpos|Hle].
    2:{ exists st. replace (Z.to_nat remaining) with 0 by lia.
        now rewrite fd_avail_0, app_nil_r. }
    cbv zeta.
    set (count := if (remaining <? Z.of_nat BUFFER_SIZE)%Z
                  then Z.to_nat remaining else BUFFER_SIZE).
    assert (Hcount : 0 < count /\ (Z.of_nat count <= remaining)%Z).
    { pose proof (eq_refl : BUFFER_SIZE = 1024). unfold count.
      destruct (Z.ltb_spec remaining (Z.of_nat BUFFER_SIZE)); lia. }
    assert (Hlen : length (fd_avail fd count) = count).
    { unfold fd_avail. rewrite Hfd, length_firstn, length_skipn. lia. }
    unfold read. rewrite Hfd, Hrs.
    rewrite Hlen.
    destruct (Z.leb_spec (Z.of_nat count) 0) as [Hn|Hn]; [lia|].
    rewrite write_healthy by exact Hsc.
    rewrite Nat2Z.id, firstn_all2 by lia. rewrite Hlen, Z.eqb_refl.
    simpl negb. cbv iota.
    match goal with
    | |- exists st', send_data fuel ?s ?f ?r = _ /\ _ => 
        destruct (IH s f r) as (st' & Hs & Hsent & Hfs)
    end; try reflexivity; try exact Hrs; try exact Hfd.
    + lia.
    + unfold fd_skip. simpl. lia.
    + exists st'. split; [exact Hs|]. split; [|exact Hfs].
      rewrite Hsent. simpl. rewrite <- app_assoc. f_equal.
      replace (Z.to_nat remaining)
        with (count + Z.to_nat (remaining - Z.of_nat count)) by lia.
      symmetry. now apply fd_avail_split.
Qed.

Lemma local_path_join (nd : Node) (e : env) (dest base : cstr) :
  3 <= length dest ->
  local_path nd e (dest ++ lit "/" ++ base)
  = snprintf MAX_PATH_LEN (local_path nd e dest ++ lit "/" ++ base).
Proof.
  intros H. unfold local_path, s2_path, ptr_add.
  rewrite snprintf_app_idem, skipn_app.
  replace (3 - length dest) with 0 by lia. simpl skipn at 2.
  now rewrite <- !app_assoc.
Qed.

Lemma upload_file_ok_inv (nd : Node) (e : env) (st st1 : state)
    (filename dest_path : cstr) :
  upload_file nd e st filename dest_path = (0%Z, st1) ->
  has_ext nd filename = true /\
  exists st0 root',
    create_directory_tree e st (local_path nd e dest_path) = (0%Z, st0) /\
    rename (fs st0) (cwd e) filename
      (snprintf MAX_PATH_LEN
         (local_path nd e dest_path ++ lit "/" ++ basename filename))
    = Ok root' /\
    exists w, write (with_fs st0 root') (msg_stored nd) 30 = (w, st1).
Proof.
  unfold upload_file. destruct (has_ext nd filename).
  2:{ simpl. destruct (write st _ 31). discriminate. }
  simpl negb. cbv iota.
  destruct (create_directory_tree e st (local_path nd e dest_path))
    as [r st0] eqn:Ec.
  destruct (@create_directory_tree_spec e _ _ _ _ Ec)
    as (_ & [(-> & _)|(-> & _)] & _).
  2:{ simpl. destruct (write st0 _ 32). discriminate. }
  simpl Z.ltb. cbv iota.
  destruct (rename (fs st0) (cwd e) filename _) as [root'|err] eqn:Er.
  2:{ destruct (write st0 _ 38). discriminate. }
  destruct (write (with_fs st0 root') (msg_stored nd) 30) as [w st2] eqn:W.
  intros H. injection H as <-. split; [reflexivity|].
  exists st0, root'. split; [reflexivity|]. split; [exact Er|].
  now exists w.
Qed.
(** C2, as stated, fails: the destination of [uploadf] is a directory.
    [uploadf /tmp/report.pdf ~S1/docs/report.pdf] on the empty node
    succeeds and makes docs/report.pdf a directory (the file is
    docs/report.pdf/report.pdf); the download of ~S1/docs/report.pdf then
    sends the size of that directory and the error text, not the file. *)
Lemma upload_download_same_path_counterexample :
  exists st1 st2,
    upload_file S2 env0 (connect fs0)
      (lit "/tmp/report.pdf") (lit "~S1/docs/report.pdf") = (0%Z, st1) /\
    locate (fs st1) (cwd env0) (lit "/home/u/S2/docs/report.pdf")
    = Ok (Dir true [(lit "report.pdf", File report)]) /\
    download_file S2 env0 4096 (connect (fs st1)) (lit "~S1/docs/report.pdf")
    = Some ((-1)%Z, st2) /\
    sent (sk st2) = off_t_bytes 4096 ++ lit "ERROR: File transfer failed" /\
    sent (sk st2) <> off_t_bytes (Z.of_nat (length report)) ++ report.
Proof.
  do 2 eexists.
  split; [vm_compute; reflexivity|].
  split; [vm_compute; reflexivity|].
  split; [vm_compute; reflexivity|].
  split; [vm_compute; reflexivity|].
  vm_compute. discriminate.
Qed.

(** C2, amended.  Let [filename] name a regular file with contents [data]
    and let [uploadf filename dest_path] succeed.  Then the name ends in
    the owned extension, the one thing written to the socket is the
    success text, and the file is now at the translation of
    [dest_path/basename(filename)] with the same contents.  A later
    download of that virtual path, on a connection that takes every write
    and with reads that return what they are asked for, returns 0 and
    sends exactly the size frame of [data] followed by [data]. *)
Theorem upload_then_download_roundtrip
    (nd : Node) (e : env) (st st1 : state) (filename dest_path : cstr)
    (data : bytes) :
  locate (fs st) (cwd e) filename = Ok (File data) ->
  3 <= length dest_path ->
  upload_file nd e st filename dest_path = (0%Z, st1) ->
  ends_with (ext nd) filename /\
  wlog (sk st1) = wlog (sk st) ++ [firstn 30 (msg_stored nd)] /\
  locate (fs st1) (cwd e)
    (local_path nd e (dest_path ++ lit "/" ++ basename filename))
  = Ok (File data) /\
  forall (fuel : nat) (st2 : state),
    fs st2 = fs st1 -> script (sk st2) = [] -> rscript st2 = [] ->
    length data <= fuel ->
    exists st3,
      download_file nd e fuel st2 (dest_path ++ lit "/" ++ basename filename)
      = Some (0%Z, st3) /\
      sent (sk st3)
      = sent (sk st2) ++ off_t_bytes (Z.of_nat (length data)) ++ data /\
      fs st3 = fs st2.
Proof.
  intros Hfile Hlen Hup.
  destruct (upload_file_ok_inv _ _ _ _ _ Hup)
    as (Hext & st0 & root' & Hc & Hr & w & W).
  destruct (@create_directory_tree_spec e _ _ _ _ Hc)
    as (_ & _ & _ & Hgrow & Hsk).
  pose proof (@locate_file_extends _ _ _ _ _ Hgrow Hfile) as Hfile0.
  pose proof (@rename_file _ _ _ _ _ _ Hfile0 Hr) as Hnew.
  destruct (write_inv _ _ _ W) as (Wfs & _ & Wlog & _).
  simpl in Wfs, Wlog. rewrite Hsk in Wlog.
  rewrite <- local_path_join in Hnew by exact Hlen.
  rewrite <- Wfs in Hnew.
  split; [now apply has_ext_ends_with|]. split; [exact Wlog|].
  split; [exact Hnew|].
  intros fuel st2 Hfs Hsc Hrs Hfuel. unfold download_file, stat, open.
  rewrite Hfs, Hnew. cbn [st_size].
  rewrite write_healthy by exact Hsc.
  rewrite firstn_all2 by (rewrite off_t_bytes_length; lia).
  rewrite off_t_bytes_length, Z.eqb_refl. simpl negb. cbv iota.
  match goal with
  | |- exists st3, send_data fuel ?s ?f ?r = _ /\ _ =>
      destruct (@send_data_healthy data fuel s f r)
        as (st3 & Hs & Hsent & Hfs3)
  end; try reflexivity; try exact Hrs;
    try (cbn [fd_off]; rewrite ?Nat2Z.id; lia).
  exists st3. split; [exact Hs|]. split.
  - rewrite Hsent. unfold with_sk. cbn [sk sent].
    rewrite <- app_assoc. do 2 f_equal.
    unfold fd_avail. cbn [fd_node fd_off skipn].
    rewrite Nat2Z.id. apply firstn_all.
  - rewrite Hfs3. exact Hfs.
Qed.

Lemma upload_then_download_roundtrip_witness :
  exists st1,
    upload_file S2 env0 (connect fs0) (lit "/tmp/report.pdf") (lit "~S1/docs")
    = (0%Z, st1) /\
    fs st1 = fs1 /\
    ends_with (ext S2) (lit "/tmp/report.pdf") /\
    wlog (sk st1) = [] ++ [lit "SUCCESS: PDF file stored in S2"] /\
    locate (fs st1) (cwd env0) (lit "/home/u/S2/docs/report.pdf")
    = Ok (File report) /\
    forall (fuel : nat) (st2 : state),
      fs st2 = fs st1 -> script (sk st2) = [] -> rscript st2 = [] ->
      length report <= fuel ->
      exists st3,
        download_file S2 env0 fuel st2 (lit "~S1/docs/report.pdf")
        = Some (0%Z, st3) /\
        sent (sk st3)
        = sent (sk st2) ++ off_t_bytes (Z.of_nat (length report)) ++ report /\
        fs st3 = fs st2.
Proof.
  eexists. split; [vm_compute; reflexivity|].
  split; [vm_compute; reflexivity|].
  apply (@upload_then_download_roundtrip S2 env0 (connect fs0) _
           (lit "/tmp/report.pdf") (lit "~S1/docs") report).
  - vm_compute. reflexivity.
  - vm_compute. lia.
  - vm_compute. reflexivity.
Defined.
(** ** Path strings and the tree *)

Lemma split_on_nonempty (d : ascii) (s : cstr) : split_on d s <> [].
Proof.
  destruct s as [|c s]; simpl; [discriminate|].
  destruct (Ascii.eqb c d); [discriminate|].
  destruct (split_on d s); discriminate.
Qed.

Lemma split_on_app (d : ascii) (a b : cstr) :
  split_on d (a ++ d :: b) = split_on d a ++ split_on d b.
Proof.
  induction a as [|c a IH]; simpl.
  - now rewrite Ascii.eqb_refl.
  - destruct (Ascii.eqb c d); [now rewrite IH|].
    rewrite IH. pose proof (split_on_nonempty d a) as Hne.
    destruct (split_on d a) as [|w ws]; [congruence|reflexivity].
Qed.

Lemma split_on_plain (d : ascii) (k : cstr) :
  existsb (fun c => Ascii.eqb c d) k = false -> split_on d k = [k].
Proof.
  induction k as [|c k IH]; simpl; [reflexivity|].
  destruct (Ascii.eqb c d); [discriminate|]. intros H. now rewrite IH.
Qed.

Lemma is_entry_name_inv (k : cstr) :
  is_entry_name k = true ->
  nonempty k = true /\ existsb is_slash k = false /\
  streq k (lit ".") = false /\ streq k (lit "..") = false.
Proof.
  unfold is_entry_name, is_name. rewrite !andb_true_iff, !negb_true_iff.
  tauto.
Qed.

Lemma components_child (base k : cstr) :
  is_entry_name k = true ->
  components (base ++ lit "/" ++ k) = components base ++ [k].
Proof.
  intros H. destruct (is_entry_name_inv _ H) as (Hne & Hsl & _).
  unfold components. change (lit "/" ++ k) with ("/"%char :: k).
  rewrite split_on_app, filter_app. f_equal.
  rewrite split_on_plain by exact Hsl. simpl. now rewrite Hne.
Qed.

Lemma walk_app (root : node) :
  forall (a b cur : list cstr),
    walk root cur (a ++ b)
    = match walk root cur a with
      | Ok c => walk root c b
      | Err err => Err err
      end.
Proof.
  induction a as [|x a IH]; intros b cur; simpl; [reflexivity|].
  destruct (lookup cur root) as [[d|w ents]|]; try reflexivity.
  destruct (streq x _); [apply IH|]. destruct (streq x _); apply IH.
Qed.

Lemma lookup_snoc :
  forall (p : list cstr) (root : node) (k : cstr),
    lookup (p ++ [k]) root
    = match lookup p root with
      | Some (Dir _ ents) => assoc k ents
      | _ => None
      end.
Proof.
  induction p as [|x p IH]; intros root k; simpl.
  - destruct root as [d|w ents]; [reflexivity|]. now destruct (assoc k ents).
  - destruct root as [d|w ents]; [reflexivity|].
    destruct (assoc x ents); [apply IH|reflexivity].
Qed.

Lemma last_app_nonempty (a b : cstr) (d : ascii) :
  b <> [] -> last (a ++ b) d = last b d.
Proof.
  intros Hb. induction a as [|c a IH]; [reflexivity|].
  simpl. rewrite IH. destruct (a ++ b) eqn:E; [|reflexivity].
  apply app_eq_nil in E. tauto.
Qed.

Lemma last_in_name (k : cstr) (c0 : ascii) :
  nonempty k = true -> existsb is_slash k = false ->
  is_slash (last k c0) = false.
Proof.
  induction k as [|c k IH]; [discriminate|]. intros _ H. simpl in H.
  apply orb_false_iff in H. destruct H as [Hc Hk].
  destruct k as [|c1 k]; [exact Hc|]. now apply IH.
Qed.

Lemma locate_dir_inv (root : node) (cwd : list cstr) (path : cstr)
    (w : bool) (ents : list (cstr * node)) :
  locate root cwd path = Ok (Dir w ents) ->
  exists l, resolve root cwd path = Ok l /\
            lookup (at_path l) root = Some (Dir w ents).
Proof.
  unfold locate. destruct (resolve root cwd path) as [l|]; [|discriminate].
  destruct (lookup (at_path l) root) as [[d|w' ents']|] eqn:El;
    try discriminate.
  - destruct (trailing l); discriminate.
  - intros H. injection H as -> ->. now exists l.
Qed.

(** Opening [base/k] reaches the entry [k] of the directory [base]. *)
Lemma locate_child (root : node) (cwd : list cstr) (base k : cstr)
    (w : bool) (ents : list (cstr * node)) :
  locate root cwd base = Ok (Dir w ents) ->
  is_entry_name k = true ->
  locate root cwd (base ++ lit "/" ++ k)
  = match assoc k ents with
    | Some m => Ok m
    | None => Err ENOENT
    end.
Proof.
  intros Hloc Hk. destruct (locate_dir_inv _ _ _ Hloc) as (l & Hr & Hl).
  destruct (is_entry_name_inv _ Hk) as (Hne & Hsl & Hdot & Hdd).
  unfold resolve in Hr. destruct base as [|c0 base]; [discriminate|].
  destruct (walk root _ (components (c0 :: base))) as [p|] eqn:Ew;
    [|discriminate].
  injection Hr as <-. cbn [at_path] in Hl.
  unfold locate, resolve. cbn [app].
  change (c0 :: base ++ lit "/" ++ k) with ((c0 :: base) ++ lit "/" ++ k).
  rewrite components_child by exact Hk. rewrite walk_app, Ew.
  cbn [walk]. rewrite Hl, Hdot, Hdd. cbn [at_path trailing].
  rewrite lookup_snoc, Hl.
  assert (Hlast : is_slash (last ((c0 :: base) ++ lit "/" ++ k) c0) = false).
  { rewrite app_assoc, last_app_nonempty by (destruct k; discriminate).
    now apply last_in_name. }
  rewrite Hlast. destruct (assoc k ents) as [[d|w' ents']|]; reflexivity.
Qed.
(** ** The listing returns *)

Lemma assoc_in (k : cstr) (ents : list (cstr * node)) (m : node) :
  assoc k ents = Some m -> In (k, m) ents.
Proof.
  induction ents as [|[k' v] ents IH]; simpl; [discriminate|].
  destruct (streq k k') eqn:E.
  - apply streq_true_iff in E. subst k'. intros H. injection H as ->.
    now left.
  - intros H. right. now apply IH.
Qed.

Lemma well_named_entry (w : bool) (ents : list (cstr * node)) (k : cstr)
    (m : node) :
  well_named (Dir w ents) = true -> In (k, m) ents ->
  is_entry_name k = true /\ well_named m = true.
Proof.
  simpl. induction ents as [|[k' v] ents IH]; intros H Hin; [contradiction|].
  apply andb_true_iff in H. destruct H as [H Hrest].
  apply andb_true_iff in H. destruct H as [Hk Hv].
  destruct Hin as [E|Hin]; [injection E as <- <-; now split|now apply IH].
Qed.

Lemma height_cons (w : bool) (k : cstr) (m : node)
    (l : list (cstr * node)) :
  height (Dir w ((k, m) :: l)) = Nat.max (S (height m)) (height (Dir w l)).
Proof. reflexivity. Qed.

Lemma reach_cons (w : bool) (k : cstr) (m : node) (l : list (cstr * node)) :
  reach (Dir w ((k, m) :: l))
  = Nat.max (1 + length k + reach m) (reach (Dir w l)).
Proof. reflexivity. Qed.

Lemma height_entry (w : bool) (ents : list (cstr * node)) (k : cstr)
    (m : node) :
  In (k, m) ents -> height m < height (Dir w ents).
Proof.
  induction ents as [|[k' v] ents IH]; intros Hin; [contradiction|].
  rewrite height_cons. destruct Hin as [E|Hin].
  - injection E as <- <-. lia.
  - specialize (IH Hin). lia.
Qed.

Lemma reach_entry (w : bool) (ents : list (cstr * node)) (k : cstr)
    (m : node) :
  In (k, m) ents -> 1 + length k + reach m <= reach (Dir w ents).
Proof.
  induction ents as [|[k' v] ents IH]; intros Hin; [contradiction|].
  rewrite reach_cons. destruct Hin as [E|Hin].
  - injection E as <- <-. lia.
  - specialize (IH Hin). lia.
Qed.

Lemma height_dir_pos (w : bool) (ents : list (cstr * node)) :
  0 < height (Dir w ents).
Proof. simpl. lia. Qed.

Section ListingReturns.

Variable nd : Node.
Variable e : env.
Variable root : node.



End ListingReturns.









(** ** The extension test *)

Lemma strrchr_none (s : cstr) (c : ascii) :
  existsb (fun a => Ascii.eqb a c) s = false <-> strrchr s c = None.
Proof.
  induction s as [|x s IH]; simpl; [tauto|].
  rewrite orb_false_iff, IH. destruct (strrchr s c).
  - split; [intros [_ H]; discriminate|discriminate].
  - destruct (Ascii.eqb x c); split; try tauto; try discriminate.
    intros [H _]. discriminate.
Qed.

(** [strrchr] returns the part from the last occurrence on. *)
Lemma strrchr_split (s : cstr) (c : ascii) (t : cstr) :
  strrchr s c = Some t ->
  exists pre r, s = pre ++ c :: r /\ t = c :: r /\
                existsb (fun a => Ascii.eqb a c) r = false.
Proof.
  revert t. induction s as [|x s IH]; intros t H; simpl in H; [discriminate|].
  destruct (strrchr s c) as [r0|] eqn:E.
  - injection H as <-. destruct (IH r0 eq_refl) as (pre & r & -> & -> & Hr).
    exists (x :: pre), r. auto.
  - destruct (Ascii.eqb_spec x c) as [->|]; [|discriminate].
    injection H as <-. exists [], s. repeat split. now apply strrchr_none.
Qed.

Lemma strrchr_last (pre r : cstr) (c : ascii) :
  existsb (fun a => Ascii.eqb a c) r = false ->
  strrchr (pre ++ c :: r) c = Some (c :: r).
Proof.
  intros Hr. induction pre as [|x pre IH]; simpl.
  - apply strrchr_none in Hr. now rewrite Hr, Ascii.eqb_refl.
  - now rewrite IH.
Qed.

Lemma dotted_ext_inv (x : cstr) :
  dotted_ext x = true ->
  exists rest, x = "."%char :: rest /\
               existsb (fun a => Ascii.eqb a "."%char) rest = false /\
               existsb is_slash rest = false.
Proof.
  destruct x as [|c rest]; simpl; [discriminate|].
  rewrite !andb_true_iff, !negb_true_iff. intros [[Hc Hd] Hs].
  apply Ascii.eqb_eq in Hc. subst c. now exists rest.
Qed.

Lemma ends_with_has_ext (nd : Node) (name : cstr) :
  dotted_ext (ext nd) = true ->
  ends_with (ext nd) name -> has_ext nd name = true.
Proof.
  intros Hd. destruct (dotted_ext_inv _ Hd) as (rest & Hx & Hdot & _).
  intros [pre ->]. unfold has_ext. rewrite Hx.
  rewrite strrchr_last by exact Hdot. apply streq_refl.
Qed.

(** X1.  For an extension made of a dot and dot-free characters, as both
    nodes have it, the test of [upload_file] and of the listing
    ([strrchr] then [strcmp]) accepts exactly the names that end in the
    extension. *)
Theorem has_ext_iff_ends_with (nd : Node) (name : cstr) :
  dotted_ext (ext nd) = true ->
  (has_ext nd name = true <-> ends_with (ext nd) name).
Proof.
  intros Hd. split; [apply has_ext_ends_with|now apply ends_with_has_ext].
Qed.

Lemma has_ext_iff_ends_with_witness :
  (has_ext S2 (lit "a.tar.pdf") = true <-> ends_with (ext S2) (lit "a.tar.pdf"))
  /\ (has_ext S4 (lit ".zip") = true <-> ends_with (ext S4) (lit ".zip")).
Proof.
  split.
  - apply (@has_ext_iff_ends_with S2 (lit "a.tar.pdf")). reflexivity.
  - apply (@has_ext_iff_ends_with S4 (lit ".zip")). reflexivity.
Defined.

Lemma drop_slashes_head (c : ascii) (s : cstr) :
  is_slash c = false -> drop_slashes (c :: s) = c :: s.
Proof. intros H. simpl. now rewrite H. Qed.

Lemma rev_ends (pre suf : cstr) (c : ascii) (rest : cstr) :
  rev suf = c :: rest -> rev (pre ++ suf) = c :: rest ++ rev pre.
Proof. intros H. now rewrite rev_app_distr, H. Qed.

Lemma existsb_last_false (f : ascii -> bool) (l : cstr) (d : ascii) :
  l <> [] -> existsb f l = false -> f (last l d) = false.
Proof.
  induction l as [|a l IH]; [congruence|]. intros _ H. simpl in H.
  apply orb_false_iff in H. destruct H as [Ha Hl].
  destruct l as [|b l]; [exact Ha|]. apply IH; [discriminate|exact Hl].
Qed.

Lemma basename_plain (path : cstr) :
  path <> [] -> rev (drop_slashes (rev path)) = path ->
  basename path = match strrchr path "/"%char with
                  | Some (_ :: r) => r
                  | _ => path
                  end.
Proof.
  intros Hne Hs. unfold basename. rewrite Hs.
  destruct path; [congruence|reflexivity].
Qed.

(** X2.  A source name that passes the extension test has no trailing
    slash, so [basename] gives the part after its last slash; that name has
    no slash, is not empty, and passes the extension test again: what
    [upload_file] stores is a name the listing accepts. *)
Theorem basename_of_accepted_name (nd : Node) (filename : cstr) :
  dotted_ext (ext nd) = true ->
  has_ext nd filename = true ->
  has_ext nd (basename filename) = true /\
  existsb is_slash (basename filename) = false /\
  ends_with (basename filename) filename.
Proof.
  intros Hd Hx.
  destruct (dotted_ext_inv _ Hd) as (rest & Hext & Hdot & Hsl).
  pose proof (has_ext_ends_with nd filename Hx) as [pre Hf].
  assert (Hxs : existsb is_slash (ext nd) = false).
  { rewrite Hext. simpl. exact Hsl. }
  assert (Hne : ext nd <> []) by (rewrite Hext; discriminate).
  (* no trailing slash: the stripping of [basename] does nothing *)
  assert (Hstrip : rev (drop_slashes (rev filename)) = filename).
  { rewrite Hf, rev_app_distr.
    destruct (rev (ext nd)) as [|c r] eqn:Er.
    - apply (f_equal (@rev ascii)) in Er. rewrite rev_involutive in Er.
      simpl in Er. contradiction.
    - assert (Hc : is_slash c = false).
      { assert (Hl : last (ext nd) c = c).
        { rewrite <- (rev_involutive (ext nd)), Er. simpl. apply last_last. }
        rewrite <- Hl. now apply existsb_last_false. }
      cbn [app]. rewrite drop_slashes_head by exact Hc.
      change (c :: r ++ rev pre) with ((c :: r) ++ rev pre).
      now rewrite <- Er, <- rev_app_distr, rev_involutive. }
  assert (Hnil : filename <> []).
  { rewrite Hf. intros E. apply app_eq_nil in E. tauto. }
  rewrite (basename_plain Hnil Hstrip).
  destruct (strrchr filename "/"%char) as [t|] eqn:Es.
  - destruct (strrchr_split _ _ Es) as (p & r & Hp & -> & Hr).
    assert (Hends : ends_with (ext nd) r).
    { rewrite Hf in Hp.
      change (p ++ "/"%char :: r) with (p ++ ["/"%char] ++ r) in Hp.
      rewrite app_assoc in Hp. symmetry in Hp.
      apply app_eq_app in Hp. destruct Hp as (l & [[Hp1 Hp2]|[Hp1 Hp2]]).
      - destruct l as [|a l].
        + rewrite app_nil_l in Hp2. exists []. now rewrite Hp2.
        + exfalso.
          assert (Hlast : last (a :: l) a = "/"%char).
          { rewrite <- (@last_app_nonempty pre (a :: l) a) by discriminate.
            rewrite <- Hp1. apply last_last. }
          assert (Hin : existsb is_slash (a :: l) = false).
          { rewrite Hp2, existsb_app in Hxs.
            now apply orb_false_iff in Hxs. }
          assert (Hc := @existsb_last_false is_slash (a :: l) a
                          ltac:(discriminate) Hin).
          rewrite Hlast in Hc. discriminate.
      - exists l. exact Hp2. }
    split; [now apply ends_with_has_ext|].
    split; [exact Hr|].
    exists (p ++ ["/"%char]). rewrite Hp, <- app_assoc. reflexivity.
  - split; [exact Hx|].
    split; [now apply strrchr_none|]. exists []. reflexivity.
Qed.

Lemma basename_of_accepted_name_witness :
  has_ext S2 (basename (lit "/tmp/in/report.pdf")) = true /\
  existsb is_slash (basename (lit "/tmp/in/report.pdf")) = false /\
  ends_with (basename (lit "/tmp/in/report.pdf")) (lit "/tmp/in/report.pdf").
Proof.
  apply (@basename_of_accepted_name S2 (lit "/tmp/in/report.pdf"));
    reflexivity.
Defined.

(** ** The command line *)

Lemma c_string_plain (s : cstr) :
  existsb (fun a => Ascii.eqb a zero) s = false -> c_string s = s.
Proof.
  induction s as [|c s IH]; simpl; [reflexivity|].
  destruct (Ascii.eqb c zero); [discriminate|]. intros H. now rewrite IH.
Qed.

Lemma token_ok_inv (t : cstr) :
  token_ok t = true ->
  nonempty t = true /\
  existsb (fun a => Ascii.eqb a " "%char) t = false /\
  existsb (fun a => Ascii.eqb a zero) t = false.
Proof.
  unfold token_ok. rewrite !andb_true_iff, !negb_true_iff. tauto.
Qed.

Lemma strtok_all_tokens (ts : list cstr) :
  Forall (fun t => token_ok t = true) ts ->
  forall t, token_ok t = true ->
    strtok_all (t ++ concat (map (fun u => " "%char :: u) ts)) = t :: ts.
Proof.
  unfold strtok_all. induction 1 as [|u ts Hu Hts IH]; intros t Ht;
    destruct (token_ok_inv _ Ht) as (Hne & Hsp & _); simpl.
  - rewrite app_nil_r, split_on_plain by exact Hsp. simpl. now rewrite Hne.
  - rewrite split_on_app, filter_app, split_on_plain by exact Hsp.
    simpl. rewrite Hne. simpl. f_equal. now apply IH.
Qed.

Lemma no_nul_command_line (ts : list cstr) :
  Forall (fun t => token_ok t = true) ts ->
  existsb (fun a => Ascii.eqb a zero) (command_line ts) = false.
Proof.
  intros H. destruct H as [|t ts Ht Hts]; [reflexivity|].
  simpl. rewrite existsb_app.
  destruct (token_ok_inv _ Ht) as (_ & _ & ->). simpl.
  induction Hts as [|u us Hu Hus IH]; [reflexivity|].
  simpl. rewrite existsb_app.
  destruct (token_ok_inv _ Hu) as (_ & _ & ->). exact IH.
Qed.

(** X3.  [handle_client] reads a command line of tokens joined by single
    spaces back as those tokens, when no token is empty or holds a space or
    a NUL and the line is shorter than [BUFFER_SIZE]. *)
Theorem strtok_all_command_line (ts : list cstr) :
  Forall (fun t => token_ok t = true) ts ->
  length (command_line ts) < BUFFER_SIZE ->
  strtok_all (c_string (firstn (BUFFER_SIZE - 1) (command_line ts))) = ts.
Proof.
  intros Hts Hlen. rewrite firstn_all2 by lia.
  rewrite c_string_plain by now apply no_nul_command_line.
  destruct Hts as [|t ts Ht Hts]; [reflexivity|].
  now apply strtok_all_tokens.
Qed.

Lemma strtok_all_command_line_witness :
  strtok_all
    (c_string
       (firstn (BUFFER_SIZE - 1)
          (command_line [lit "uploadf"; lit "/tmp/report.pdf"; lit "~S1/docs"])))
  = [lit "uploadf"; lit "/tmp/report.pdf"; lit "~S1/docs"].
Proof.
  apply (@strtok_all_command_line
           [lit "uploadf"; lit "/tmp/report.pdf"; lit "~S1/docs"]).
  - repeat constructor.
  - vm_compute. lia.
Defined.
(** ** One connection *)

Lemma write_one (st : state) (buf : bytes) (count : nat) :
  fs (snd (write st buf count)) = fs st /\
  wlog (sk (snd (write st buf count))) = wlog (sk st) ++ [firstn count buf].
Proof.
  destruct (write st buf count) as [r st'] eqn:W.
  destruct (write_inv _ _ _ W) as (Hfs & _ & Hlog & _). auto.
Qed.

Lemma upload_file_one_write (nd : Node) (e : env) (st : state)
    (filename dest_path : cstr) :
  exists data,
    wlog (sk (snd (upload_file nd e st filename dest_path)))
    = wlog (sk st) ++ [data].
Proof.
  unfold upload_file. destruct (negb (has_ext nd filename)).
  { destruct (write st (msg_only nd) 31) as [r st1] eqn:W.
    destruct (write_inv _ _ _ W) as (_ & _ & Hlog & _). eauto. }
  destruct (create_directory_tree e st (local_path nd e dest_path))
    as [r st1] eqn:Ec.
  destruct (@create_directory_tree_spec e _ _ _ _ Ec) as (_ & _ & _ & _ & Hsk).
  destruct (r <? 0)%Z.
  { destruct (write st1 _ 32) as [r2 st2] eqn:W.
    destruct (write_inv _ _ _ W) as (_ & _ & Hlog & _).
    rewrite Hsk in Hlog. eauto. }
  destruct (rename (fs st1) (cwd e) filename _) as [root'|err].
  - destruct (write (with_fs st1 root') (msg_stored nd) 30) as [r2 st2] eqn:W.
    destruct (write_inv _ _ _ W) as (_ & _ & Hlog & _).
    simpl in Hlog. rewrite Hsk in Hlog. eauto.
  - destruct (write st1 _ 38) as [r2 st2] eqn:W.
    destruct (write_inv _ _ _ W) as (_ & _ & Hlog & _).
    rewrite Hsk in Hlog. eauto.
Qed.

Lemma remove_file_one_write (nd : Node) (e : env) (st : state)
    (filename : cstr) :
  exists data,
    wlog (sk (snd (remove_file nd e st filename))) = wlog (sk st) ++ [data].
Proof.
  unfold remove_file. destruct (unlink (fs st) (cwd e) _) as [root'|err].
  - destruct (write (with_fs st root') (msg_deleted nd) 32) as [r st1] eqn:W.
    destruct (write_inv _ _ _ W) as (_ & _ & Hlog & _). simpl in Hlog. eauto.
  - destruct (write st (msg_not_found nd) 30) as [r st1] eqn:W.
    destruct (write_inv _ _ _ W) as (_ & _ & Hlog & _). eauto.
Qed.

Lemma display_filenames_one_write (nd : Node) (e : env) (fuel : nat)
    (st : state) (pathname : cstr) (r : Z) (st' : state) :
  display_filenames nd e fuel st pathname = Some (r, st') ->
  fs st' = fs st /\ exists data, wlog (sk st') = wlog (sk st) ++ [data].
Proof.
  unfold display_filenames. destruct (negb _).
  - destruct (write st [] 0) as [r0 st1] eqn:W. intros H.
    injection H as _ <-.
    destruct (write_inv _ _ _ W) as (Hfs & _ & Hlog & _). eauto.
  - destruct (list_pdf_files nd e fuel (fs st) _ _ _) as [fl|]; [|discriminate].
    destruct (write st fl (length fl)) as [r0 st1] eqn:W. intros H.
    injection H as _ <-.
    destruct (write_inv _ _ _ W) as (Hfs & _ & Hlog & _). eauto.
Qed.

Lemma download_file_fs (nd : Node) (e : env) (fuel : nat) (st : state)
    (filename : cstr) (r : Z) (st' : state) :
  download_file nd e fuel st filename = Some (r, st') -> fs st' = fs st.
Proof.
  unfold download_file.
  destruct (stat (dir_size e) (fs st) (cwd e) _) as [s|].
  2:{ destruct (write st (msg_not_found nd) 30) as [w st1] eqn:W.
      intros H. injection H as _ <-. now destruct (write_inv _ _ _ W). }
  destruct (open (fs st) (cwd e) _) as [fd|].
  2:{ destruct (write st (msg_open_failed nd) 29) as [w st1] eqn:W.
      intros H. injection H as _ <-. now destruct (write_inv _ _ _ W). }
  destruct (write st _ sizeof_off_t) as [w st1] eqn:W.
  destruct (write_inv _ _ _ W) as (Wfs & _).
  destruct (negb _).
  - destruct (write st1 _ 31) as [w2 st2] eqn:W2.
    intros H. injection H as _ <-.
    destruct (write_inv _ _ _ W2) as (-> & _). exact Wfs.
  - intros H. destruct (send_data_inv _ _ _ _ H) as (-> & _). exact Wfs.
Qed.

Ltac one_write :=
  match goal with
  | |- context [write ?s ?b ?c] =>
      destruct (write_one s b c) as [_ ->]; eauto
  end.

(** X4.  Whatever the request, a connection whose command is neither
    [downlf] nor [downltar] gets exactly one reply: when [handle_client]
    returns, it has called [write] once.  It does return, whatever the
    fuel, unless the command is [dispfnames]. *)
Theorem one_write_per_connection
    (tar_format : list (cstr * bytes) -> bytes) (nd : Node) (e : env)
    (fuel : nat) (st : state) (request : bytes) :
  (forall cmd args,
     strtok_all (c_string (firstn (BUFFER_SIZE - 1) request)) = cmd :: args ->
     cmd <> lit "downlf" /\ cmd <> lit "downltar") ->
  (forall st', handle_client tar_format nd e fuel st request = Some st' ->
               exists data, wlog (sk st') = wlog (sk st) ++ [data]) /\
  ((forall cmd args,
      strtok_all (c_string (firstn (BUFFER_SIZE - 1) request)) = cmd :: args ->
      cmd <> lit "dispfnames") ->
   exists st', handle_client tar_format nd e fuel st request = Some st').
Proof.
  intros Hcmd. unfold handle_client.
  destruct (strtok_all (c_string (firstn (BUFFER_SIZE - 1) request)))
    as [|cmd args].
  { split; [|eauto]. intros st' H. injection H as <-.
    one_write. }
  destruct (Hcmd cmd args eq_refl) as [Hdl Hdt].
  apply streq_false_iff in Hdl, Hdt. rewrite Hdl, Hdt.
  destruct (streq cmd (lit "uploadf")).
  { split; [|destruct args as [|a [|b args]]; eauto].
    intros st' H. destruct args as [|a [|b args]]; injection H as <-;
      try one_write.
    apply upload_file_one_write. }
  destruct (streq cmd (lit "removef")).
  { split; [|destruct args; eauto].
    intros st' H. destruct args as [|a args]; injection H as <-.
    - one_write.
    - apply remove_file_one_write. }
  destruct (streq cmd (lit "dispfnames")) eqn:Ed.
  { split.
    - intros st' H. destruct args as [|a args].
      + injection H as <-.
        one_write.
      + destruct (display_filenames nd e fuel st a) as [[r st1]|] eqn:Ef;
          [|discriminate].
        injection H as <-. now destruct (display_filenames_one_write _ _ _ _ _ Ef).
    - intros Hnd. apply streq_true_iff in Ed.
      exfalso. now apply (Hnd cmd args). }
  split; [|eauto]. intros st' H. injection H as <-.
  one_write.
Qed.

Lemma one_write_per_connection_witness :
  (forall st',
     handle_client flat_archive S2 env0 0 (connect fs1)
       (lit "removef ~S1/docs/report.pdf") = Some st' ->
     exists data, wlog (sk st') = wlog (sk (connect fs1)) ++ [data]) /\
  ((forall cmd args,
      strtok_all (c_string (firstn (BUFFER_SIZE - 1)
                              (lit "removef ~S1/docs/report.pdf")))
      = cmd :: args ->
      cmd <> lit "dispfnames") ->
   exists st',
     handle_client flat_archive S2 env0 0 (connect fs1)
       (lit "removef ~S1/docs/report.pdf") = Some st').
Proof.
  apply (@one_write_per_connection flat_archive S2 env0 0 (connect fs1)
           (lit "removef ~S1/docs/report.pdf")).
  intros cmd args H. vm_compute in H. injection H as <- _.
  split; discriminate.
Defined.

Ltac same_fs :=
  match goal with
  | |- context [write ?s ?b ?c] =>
      destruct (write_one s b c) as [-> _]; reflexivity
  end.

(** X5.  A connection whose command is not [uploadf], [removef] or
    [downltar] leaves the file system as it is: downloads, listings,
    unknown commands and commands with missing arguments change
    nothing. *)
Theorem only_three_commands_change_files
    (tar_format : list (cstr * bytes) -> bytes) (nd : Node) (e : env)
    (fuel : nat) (st : state) (request : bytes) (st' : state) :
  (forall cmd args,
     strtok_all (c_string (firstn (BUFFER_SIZE - 1) request)) = cmd :: args ->
     cmd <> lit "uploadf" /\ cmd <> lit "removef" /\ cmd <> lit "downltar") ->
  handle_client tar_format nd e fuel st request = Some st' ->
  fs st' = fs st.
Proof.
  intros Hcmd. unfold handle_client.
  destruct (strtok_all (c_string (firstn (BUFFER_SIZE - 1) request)))
    as [|cmd args].
  { intros H. injection H as <-. same_fs. }
  destruct (Hcmd cmd args eq_refl) as (Hu & Hr & Ht).
  apply streq_false_iff in Hu, Hr, Ht. rewrite Hu, Hr, Ht.
  destruct (streq cmd (lit "downlf")).
  { destruct args as [|a args]; intros H.
    - injection H as <-. same_fs.
    - destruct (download_file nd e fuel st a) as [[r st1]|] eqn:Ef;
        [|discriminate].
      injection H as <-. eapply download_file_fs; eauto. }
  destruct (streq cmd (lit "dispfnames")).
  { destruct args as [|a args]; intros H.
    - injection H as <-. same_fs.
    - destruct (display_filenames nd e fuel st a) as [[r st1]|] eqn:Ef;
        [|discriminate].
      injection H as <-. now destruct (display_filenames_one_write _ _ _ _ _ Ef). }
  intros H. injection H as <-. same_fs.
Qed.

Lemma only_three_commands_change_files_witness :
  exists st',
    handle_client flat_archive S2 env0 15 (connect fs1)
      (lit "downlf ~S1/docs/report.pdf") = Some st' /\
    fs st' = fs (connect fs1).
Proof.
  eexists. split; [vm_compute; reflexivity|].
  apply (@only_three_commands_change_files flat_archive S2 env0 15
           (connect fs1) (lit "downlf ~S1/docs/report.pdf")).
  - intros cmd args H. vm_compute in H. injection H as <- _.
    repeat split; discriminate.
  - vm_compute. reflexivity.
Defined.
(** ** Removal *)

Lemma lookup_del_same (d : bytes) :
  forall (lo : list cstr) (root : node),
    lo <> [] -> lookup lo root = Some (File d) ->
    lookup lo (del lo root) = None.
Proof.
  induction lo as [|k lo IH]; intros root Hne H; [congruence|].
  destruct root as [d0|w ents]; [discriminate|].
  cbn [lookup] in H. destruct (assoc k ents) as [sub|] eqn:Ea; [|discriminate].
  cbn [del]. destruct lo as [|k1 lo].
  - cbn [lookup]. now rewrite assoc_del_same.
  - rewrite Ea. cbn [lookup]. rewrite assoc_set_same.
    apply IH; [discriminate|exact H].
Qed.

Lemma del_keeps_files (d : bytes) :
  forall (lo : list cstr) (root : node) (q : list cstr) (d2 : bytes),
    lookup lo root = Some (File d) -> q <> lo ->
    lookup q root = Some (File d2) ->
    lookup q (del lo root) = Some (File d2).
Proof.
  induction lo as [|k lo IH]; intros root q d2 H Hne Hq; [exact Hq|].
  destruct root as [d0|w ents]; [discriminate|].
  cbn [lookup] in H. destruct (assoc k ents) as [sub|] eqn:Ea; [|discriminate].
  destruct q as [|k2 q]; [discriminate|].
  cbn [lookup] in Hq. cbn [del]. rewrite Ea.
  destruct (list_eq_dec ascii_dec k2 k) as [->|Hk].
  - rewrite Ea in Hq. destruct lo as [|k1 lo].
    + simpl in H. injection H as ->.
      destruct q; [congruence|discriminate].
    + cbn [lookup]. rewrite assoc_set_same.
      apply IH; [exact H|congruence|exact Hq].
  - destruct lo as [|k1 lo]; cbn [lookup].
    + now rewrite assoc_del_other.
    + now rewrite assoc_set_other.
Qed.

Lemma unlink_ok_inv (root root' : node) (cwd : list cstr) (path : cstr) :
  unlink root cwd path = Ok root' ->
  exists l d,
    resolve root cwd path = Ok l /\
    lookup (at_path l) root = Some (File d) /\
    trailing l = false /\ at_path l <> [] /\
    root' = del (at_path l) root.
Proof.
  unfold unlink. destruct (resolve root cwd path) as [l|]; [|discriminate].
  destruct (lookup (at_path l) root) as [[d|w ents]|] eqn:El;
    try discriminate.
  destruct (trailing l) eqn:Et; [discriminate|].
  destruct (dir_writable _ root) eqn:Ew; [|discriminate].
  intros H. injection H as <-. exists l, d. repeat split; auto.
  intros E. rewrite E in El, Ew. simpl in El. injection El as ->.
  discriminate.
Qed.

Lemma unlink_not_file (root : node) (cwd : list cstr) (path : cstr) :
  (forall d, locate root cwd path <> Ok (File d)) ->
  exists err, unlink root cwd path = Err err.
Proof.
  intros Hn. destruct (unlink root cwd path) as [root'|err] eqn:Eu; [|eauto].
  exfalso. destruct (unlink_ok_inv _ _ _ Eu) as (l & d & Hr & Hl & Ht & _).
  apply (Hn d). eapply locate_file_intro; eauto.
Qed.

(** X6.  When [remove_file] returns 0, its path named a regular file; the
    one thing written is the first 32 bytes of the "deleted" text; the
    path then names nothing, so that [stat] answers [ENOENT] and a second
    removal returns -1; and every other regular file is still there with
    the contents it had (a path that no longer finds its file resolved to
    the removed one). *)
Theorem remove_file_deletes
    (nd : Node) (e : env) (st st1 : state) (filename : cstr) :
  remove_file nd e st filename = (0%Z, st1) ->
  (exists data,
     locate (fs st) (cwd e) (local_path nd e filename) = Ok (File data)) /\
  wlog (sk st1) = wlog (sk st) ++ [firstn 32 (msg_deleted nd)] /\
  stat (dir_size e) (fs st1) (cwd e) (local_path nd e filename) = Err ENOENT /\
  (forall st2, fs st2 = fs st1 ->
               fst (remove_file nd e st2 filename) = (-1)%Z) /\
  (forall p2 d2,
     locate (fs st) (cwd e) p2 = Ok (File d2) ->
     locate (fs st1) (cwd e) p2 = Ok (File d2) \/
     locate (fs st1) (cwd e) p2 = Err ENOENT /\
     exists l l2,
       resolve (fs st) (cwd e) (local_path nd e filename) = Ok l /\
       resolve (fs st) (cwd e) p2 = Ok l2 /\ at_path l2 = at_path l).
Proof.
  unfold remove_file.
  destruct (unlink (fs st) (cwd e) (local_path nd e filename))
    as [root'|err] eqn:Eu.
  2:{ destruct (write st (msg_not_found nd) 30). discriminate. }
  destruct (write (with_fs st root') (msg_deleted nd) 32) as [w st2] eqn:W.
  intros H. injection H as <-.
  destruct (write_inv _ _ _ W) as (Wfs & _ & Wlog & _). simpl in Wfs, Wlog.
  destruct (unlink_ok_inv _ _ _ Eu) as (l & d & Hr & Hl & Ht & Hne & Hroot).
  assert (Hk : forall q, dir_flag (lookup q root')
                         = dir_flag (lookup q (fs st))).
  { intros q. rewrite Hroot. now apply del_dir_flag with (d := d). }
  assert (Hr' : resolve root' (cwd e) (local_path nd e filename) = Ok l).
  { eapply resolve_dir_flag; eauto. }
  assert (Hgone : lookup (at_path l) root' = None).
  { rewrite Hroot. now apply lookup_del_same with (d := d). }
  assert (Hloc : locate root' (cwd e) (local_path nd e filename) = Err ENOENT).
  { unfold locate. now rewrite Hr', Hgone. }
  split; [exists d; eapply locate_file_intro; eauto|].
  split; [exact Wlog|].
  split; [unfold stat; rewrite Wfs, Hloc; reflexivity|].
  split.
  - intros st3 Hfs3. unfold remove_file.
    destruct (@unlink_not_file (fs st3) (cwd e) (local_path nd e filename))
      as [err ->].
    + intros d0. rewrite Hfs3, Wfs, Hloc. discriminate.
    + now destruct (write st3 (msg_not_found nd) 30).
  - intros p2 d2 Hp2. rewrite Wfs.
    destruct (locate_file_inv _ _ _ Hp2) as (l2 & Hr2 & Hl2 & Ht2).
    assert (Hr2' : resolve root' (cwd e) p2 = Ok l2).
    { eapply resolve_dir_flag; eauto. }
    destruct (list_eq_dec (list_eq_dec ascii_dec) (at_path l2) (at_path l))
      as [Heq|Hneq].
    + right. split; [|now exists l, l2].
      unfold locate. now rewrite Hr2', Heq, Hgone.
    + left. eapply locate_file_intro; eauto.
      rewrite Hroot. now apply del_keeps_files with (d := d).
Qed.

Lemma remove_file_deletes_witness :
  exists st1,
    remove_file S2 env0 (connect fs1) (lit "~S1/docs/report.pdf")
    = (0%Z, st1) /\
    fs st1
    = Dir true
        [ (lit "tmp", Dir true [ (lit "notes.txt", File (lit "plain")) ]);
          (lit "home",
           Dir true
             [ (lit "u",
                Dir true
                  [ (lit "S2", Dir true [ (lit "docs", Dir true []) ]) ]) ]) ]
    /\
    stat (dir_size env0) (fs st1) (cwd env0) (local_path S2 env0 (lit "~S1/docs/report.pdf"))
    = Err ENOENT.
Proof.
  eexists. split; [vm_compute; reflexivity|].
  split; [vm_compute; reflexivity|].
  apply (@remove_file_deletes S2 env0 (connect fs1) _
           (lit "~S1/docs/report.pdf")).
  vm_compute. reflexivity.
Defined.

(** X7.  When the path of [remove_file] does not name a regular file
    (nothing is there, or a directory is), it returns -1, the one thing
    written is the first 30 bytes of the "not found" text, and the file
    system is untouched. *)
Theorem remove_file_not_a_file
    (nd : Node) (e : env) (st : state) (filename : cstr) :
  (forall d,
     locate (fs st) (cwd e) (local_path nd e filename) <> Ok (File d)) ->
  exists st',
    remove_file nd e st filename = ((-1)%Z, st') /\
    fs st' = fs st /\
    wlog (sk st') = wlog (sk st) ++ [firstn 30 (msg_not_found nd)].
Proof.
  intros Hn. unfold remove_file.
  destruct (unlink_not_file _ _ _ Hn) as [err ->].
  destruct (write st (msg_not_found nd) 30) as [w st'] eqn:W.
  destruct (write_inv _ _ _ W) as (Wfs & _ & Wlog & _). eauto.
Qed.

Lemma remove_file_not_a_file_witness :
  exists st',
    remove_file S2 env0 (connect fs1) (lit "~S1/docs") = ((-1)%Z, st') /\
    fs st' = fs (connect fs1) /\
    wlog (sk st')
    = wlog (sk (connect fs1)) ++ [firstn 30 (msg_not_found S2)].
Proof.
  apply (@remove_file_not_a_file S2 env0 (connect fs1) (lit "~S1/docs")).
  intros d H. vm_compute in H. discriminate.
Defined.
(** ** Download *)

(** X8.  The download of an existing regular file, on a connection that
    takes every write and with reads that return what they are asked for,
    returns 0 once the fuel covers the size, and sends exactly the eight
    bytes of the size followed by the contents; the file system is
    untouched. *)
Theorem download_file_sends_frame_and_contents
    (nd : Node) (e : env) (fuel : nat) (st : state) (filename : cstr)
    (data : bytes) :
  locate (fs st) (cwd e) (local_path nd e filename) = Ok (File data) ->
  script (sk st) = [] -> rscript st = [] -> length data <= fuel ->
  exists st',
    download_file nd e fuel st filename = Some (0%Z, st') /\
    sent (sk st')
    = sent (sk st) ++ off_t_bytes (Z.of_nat (length data)) ++ data /\
    fs st' = fs st.
Proof.
  intros Hloc Hsc Hrs Hfuel. unfold download_file, stat, open.
  rewrite Hloc. cbn [st_size].
  rewrite write_healthy by exact Hsc.
  rewrite firstn_all2 by (rewrite off_t_bytes_length; lia).
  rewrite off_t_bytes_length, Z.eqb_refl. simpl negb. cbv iota.
  match goal with
  | |- exists st', send_data fuel ?s ?f ?r = _ /\ _ =>
      destruct (@send_data_healthy data fuel s f r)
        as (st' & Hs & Hsent & Hfs')
  end; try reflexivity; try exact Hrs;
    try (cbn [fd_off]; rewrite ?Nat2Z.id; lia).
  exists st'. split; [exact Hs|]. split.
  - rewrite Hsent. unfold with_sk. cbn [sk sent].
    rewrite <- app_assoc. do 2 f_equal.
    unfold fd_avail. cbn [fd_node fd_off skipn].
    rewrite Nat2Z.id. apply firstn_all.
  - rewrite Hfs'. reflexivity.
Qed.

Lemma download_file_sends_frame_and_contents_witness :
  exists st',
    download_file S2 env0 15 (connect fs1) (lit "~S1/docs/report.pdf")
    = Some (0%Z, st') /\
    sent (sk st')
    = sent (sk (connect fs1)) ++ off_t_bytes (Z.of_nat (length report))
      ++ report /\
    fs st' = fs (connect fs1).
Proof.
  apply (@download_file_sends_frame_and_contents S2 env0 15 (connect fs1)
           (lit "~S1/docs/report.pdf") report).
  - vm_compute. reflexivity.
  - reflexivity.
  - reflexivity.
  - vm_compute. lia.
Defined.

(** X9.  [download_file] only asks [stat] whether its path exists.  When
    the path names a directory, on a connection that takes every write,
    the node sends a size frame with the size [stat] reports for the
    directory.  When that size is positive the first [read] fails, the 27
    bytes of "ERROR: File transfer failed" follow the frame and the result
    is -1; when it is 0 the loop is not entered, nothing follows the frame
    and the result is 0. *)
Theorem download_file_of_directory
    (nd : Node) (e : env) (fuel : nat) (st : state) (filename : cstr)
    (w : bool) (ents : list (cstr * node)) :
  locate (fs st) (cwd e) (local_path nd e filename) = Ok (Dir w ents) ->
  script (sk st) = [] -> 0 < fuel ->
  exists st',
    download_file nd e fuel st filename
    = Some ((if (dir_size e ents >? 0)%Z then (-1)%Z else 0%Z), st') /\
    sent (sk st')
    = sent (sk st) ++ off_t_bytes (dir_size e ents)
      ++ (if (dir_size e ents >? 0)%Z
          then lit "ERROR: File transfer failed" else []) /\
    fs st' = fs st.
Proof.
  intros Hloc Hsc Hfuel. unfold download_file, stat, open.
  rewrite Hloc. cbn [st_size].
  rewrite write_healthy by exact Hsc.
  rewrite firstn_all2 by (rewrite off_t_bytes_length; lia).
  rewrite off_t_bytes_length, Z.eqb_refl. simpl negb. cbv iota.
  destruct fuel as [|fuel]; [lia|]. rewrite send_data_step.
  destruct (dir_size e ents >? 0)%Z; cbv iota zeta.
  - unfold read. cbn [fd_node]. cbv iota. simpl Z.leb. cbv iota.
    rewrite write_healthy by reflexivity.
    eexists. split; [reflexivity|]. split; [|reflexivity].
    unfold with_sk. cbn [sk sent]. now rewrite <- app_assoc.
  - eexists. split; [reflexivity|]. split; [|reflexivity].
    unfold with_sk. cbn [sk sent]. now rewrite app_nil_r.
Qed.

Lemma download_file_of_directory_witness :
  (exists st',
     download_file S2 env0 1 (connect fs1) (lit "~S1/docs")
     = Some ((if (dir_size env0 [(lit "report.pdf", File report)] >? 0)%Z
              then (-1)%Z else 0%Z), st') /\
     sent (sk st')
     = sent (sk (connect fs1))
       ++ off_t_bytes (dir_size env0 [(lit "report.pdf", File report)])
       ++ (if (dir_size env0 [(lit "report.pdf", File report)] >? 0)%Z
           then lit "ERROR: File transfer failed" else []) /\
     fs st' = fs (connect fs1)) /\
  (exists st',
     download_file S2 env_zero 1 (connect fs1) (lit "~S1/docs")
     = Some ((if (dir_size env_zero [(lit "report.pdf", File report)] >? 0)%Z
              then (-1)%Z else 0%Z), st') /\
     sent (sk st')
     = sent (sk (connect fs1))
       ++ off_t_bytes (dir_size env_zero [(lit "report.pdf", File report)])
       ++ (if (dir_size env_zero [(lit "report.pdf", File report)] >? 0)%Z
           then lit "ERROR: File transfer failed" else []) /\
     fs st' = fs (connect fs1)).
Proof.
  split.
  - apply (@download_file_of_directory S2 env0 1 (connect fs1)
             (lit "~S1/docs") true [(lit "report.pdf", File report)]).
    + vm_compute. reflexivity.
    + reflexivity.
    + lia.
  - apply (@download_file_of_directory S2 env_zero 1 (connect fs1)
             (lit "~S1/docs") true [(lit "report.pdf", File report)]).
    + vm_compute. reflexivity.
    + reflexivity.
    + lia.
Defined.

(** X10.  When the write of the size frame fails or is cut short,
    [download_file] sends no file data: its only other write is the 31
    bytes of "ERROR: Failed to send file size", and it returns -1. *)
Theorem download_file_frame_not_sent
    (nd : Node) (e : env) (fuel : nat) (st : state) (filename : cstr)
    (s : stat_t) (w : Z) (st1 : state) :
  stat (dir_size e) (fs st) (cwd e) (local_path nd e filename) = Ok s ->
  write st (off_t_bytes (st_size s)) sizeof_off_t = (w, st1) ->
  w <> Z.of_nat sizeof_off_t ->
  exists st',
    download_file nd e fuel st filename = Some ((-1)%Z, st') /\
    wlog (sk st')
    = wlog (sk st) ++ [off_t_bytes (st_size s);
                       lit "ERROR: Failed to send file size"] /\
    fs st' = fs st.
Proof.
  intros Hstat W Hw. unfold download_file. rewrite Hstat.
  assert (Hopen : exists fd,
             open (fs st) (cwd e) (local_path nd e filename) = Ok fd).
  { unfold stat in Hstat. unfold open.
    destruct (locate (fs st) (cwd e) (local_path nd e filename));
      [eauto|discriminate]. }
  destruct Hopen as [fd ->]. rewrite W.
  destruct (Z.eqb_spec w (Z.of_nat sizeof_off_t)); [contradiction|].
  simpl negb. cbv iota.
  destruct (write st1 (lit "ERROR: Failed to send file size") 31)
    as [w2 st2] eqn:W2.
  destruct (write_inv _ _ _ W) as (Wfs & _ & Wlog & _).
  destruct (write_inv _ _ _ W2) as (Wfs2 & _ & Wlog2 & _).
  exists st2. split; [reflexivity|]. split; [|congruence].
  rewrite Wlog2, Wlog, <- app_assoc.
  rewrite firstn_all2 by (rewrite off_t_bytes_length; lia). reflexivity.
Qed.

Lemma download_file_frame_not_sent_witness :
  exists st',
    download_file S2 env0 0 (connect_with fs1 [WUpTo 3] [])
                  (lit "~S1/docs/report.pdf") = Some ((-1)%Z, st') /\
    wlog (sk st')
    = wlog (sk (connect_with fs1 [WUpTo 3] []))
      ++ [off_t_bytes 15; lit "ERROR: Failed to send file size"] /\
    fs st' = fs (connect_with fs1 [WUpTo 3] []).
Proof.
  apply (@download_file_frame_not_sent S2 env0 0
           (connect_with fs1 [WUpTo 3] []) (lit "~S1/docs/report.pdf")
           {| st_isdir := false; st_size := 15 |} 3%Z
           (snd (write (connect_with fs1 [WUpTo 3] [])
                       (off_t_bytes 15) sizeof_off_t))).
  - vm_compute. reflexivity.
  - vm_compute. reflexivity.
  - vm_compute. discriminate.
Defined.
(** ** The size frame *)

Lemma byte_of_Z_inj (a b : Z) :
  (0 <= a < 256)%Z -> (0 <= b < 256)%Z ->
  ascii_of_N (Z.to_N a) = ascii_of_N (Z.to_N b) -> a = b.
Proof.
  intros Ha Hb H. apply (f_equal N_of_ascii) in H.
  rewrite !N_ascii_embedding in H by lia. lia.
Qed.

Lemma le_bytes_inj (n : nat) :
  forall z1 z2 : Z,
    (0 <= z1 < 256 ^ Z.of_nat n)%Z -> (0 <= z2 < 256 ^ Z.of_nat n)%Z ->
    le_bytes n z1 = le_bytes n z2 -> z1 = z2.
Proof.
  induction n as [|n IH]; intros z1 z2 H1 H2 H.
  - simpl in H1, H2. lia.
  - rewrite Nat2Z.inj_succ, Z.pow_succ_r in H1, H2 by lia.
    cbn [le_bytes] in H. injection H as Hh Ht.
    apply byte_of_Z_inj in Hh; try (apply Z.mod_pos_bound; lia).
    apply IH in Ht.
    + rewrite (Z.div_mod z1 256), (Z.div_mod z2 256) by lia. congruence.
    + split; [apply Z.div_pos; lia|apply Z.div_lt_upper_bound; lia].
    + split; [apply Z.div_pos; lia|apply Z.div_lt_upper_bound; lia].
Qed.

(** X11.  The size frame is eight bytes long, and two sizes below 2^64
    with the same frame are equal: the frame determines the size. *)
Theorem off_t_bytes_injective (z1 z2 : Z) :
  (0 <= z1 < 2 ^ 64)%Z -> (0 <= z2 < 2 ^ 64)%Z ->
  off_t_bytes z1 = off_t_bytes z2 ->
  z1 = z2 /\ length (off_t_bytes z1) = 8.
Proof.
  intros H1 H2 H. split; [|apply off_t_bytes_length].
  apply (le_bytes_inj sizeof_off_t); auto.
Qed.

Lemma off_t_bytes_injective_witness :
  4096%Z = 4096%Z /\ length (off_t_bytes 4096) = 8.
Proof.
  apply (@off_t_bytes_injective 4096 4096); [lia|lia|reflexivity].
Defined.
(** ** Upload: what is left behind *)

(** X12.  An upload that returns -1 has destroyed nothing: every file that
    existed is still there with its contents, every directory is still a
    directory, and exactly one error text was written.  Nothing is rolled
    back either: when the directories could be made and only the move
    failed, every path handed to [mkdir] exists afterwards. *)
Theorem upload_file_failure_keeps_files
    (nd : Node) (e : env) (st st' : state) (filename dest_path : cstr) :
  upload_file nd e st filename dest_path = ((-1)%Z, st') ->
  extends (fs st) (fs st') /\
  (wlog (sk st') = wlog (sk st) ++ [firstn 31 (msg_only nd)] /\
   fs st' = fs st
   \/
   wlog (sk st')
   = wlog (sk st) ++ [firstn 32 (lit "ERROR: Failed to create directory")]
   \/
   wlog (sk st')
   = wlog (sk st)
     ++ [firstn 38 (lit "ERROR: Failed to move file to destination")] /\
   Forall (exists_at e (fs st')) (segments (local_path nd e dest_path))).
Proof.
  unfold upload_file. destruct (negb (has_ext nd filename)).
  { destruct (write st (msg_only nd) 31) as [r st1] eqn:W.
    intros H. injection H as <-.
    destruct (write_inv _ _ _ W) as (Wfs & _ & Wlog & _).
    split; [rewrite Wfs; apply extends_refl|]. left. auto. }
  destruct (create_directory_tree e st (local_path nd e dest_path))
    as [r st1] eqn:Ec.
  destruct (@create_directory_tree_spec e _ _ _ _ Ec)
    as (_ & Hcase & _ & Hext & Hsk).
  destruct (r <? 0)%Z eqn:Er.
  { destruct (write st1 _ 32) as [r2 st2] eqn:W.
    intros H. injection H as <-.
    destruct (write_inv _ _ _ W) as (Wfs & _ & Wlog & _).
    split; [rewrite Wfs; exact Hext|]. right. left.
    rewrite Wlog, Hsk. reflexivity. }
  destruct (rename (fs st1) (cwd e) filename _) as [root'|err].
  { destruct (write (with_fs st1 root') (msg_stored nd) 30). discriminate. }
  destruct (write st1 _ 38) as [r2 st2] eqn:W.
  intros H. injection H as <-.
  destruct (write_inv _ _ _ W) as (Wfs & _ & Wlog & _).
  split; [rewrite Wfs; exact Hext|]. right. right.
  split; [rewrite Wlog, Hsk; reflexivity|].
  rewrite Wfs. destruct Hcase as [[_ Hall]|[-> _]]; [exact Hall|discriminate].
Qed.

Lemma upload_file_failure_keeps_files_witness :
  exists st',
    upload_file S2 env0 (connect fs0) (lit "/tmp/missing.pdf") (lit "~S1/docs")
    = ((-1)%Z, st') /\
    stat (dir_size env0) (fs st') [] (lit "/home/u/S2/docs")
    = Ok {| st_isdir := true; st_size := 4096 |} /\
    extends (fs (connect fs0)) (fs st') /\
    (wlog (sk st') = wlog (sk (connect fs0)) ++ [firstn 31 (msg_only S2)] /\
     fs st' = fs (connect fs0)
     \/
     wlog (sk st')
     = wlog (sk (connect fs0))
       ++ [firstn 32 (lit "ERROR: Failed to create directory")]
     \/
     wlog (sk st')
     = wlog (sk (connect fs0))
       ++ [firstn 38 (lit "ERROR: Failed to move file to destination")] /\
     Forall (exists_at env0 (fs st'))
            (segments (local_path S2 env0 (lit "~S1/docs")))).
Proof.
  eexists. split; [vm_compute; reflexivity|].
  split; [vm_compute; reflexivity|].
  apply (@upload_file_failure_keeps_files S2 env0 (connect fs0) _
           (lit "/tmp/missing.pdf") (lit "~S1/docs")).
  vm_compute. reflexivity.
Defined.

Lemma path_eqb_false_neq (p q : list cstr) : path_eqb p q = false -> p <> q.
Proof.
  intros H E. subst q. unfold path_eqb in H.
  now rewrite path_prefixb_refl in H.
Qed.

Lemma put_file_keeps_none (d : bytes) :
  forall (c : list cstr) (root : node) (q : list cstr),
    lookup q root = None -> q <> c ->
    lookup q (put c (File d) root) = None.
Proof.
  induction c as [|k c IH]; intros root q Hq Hne.
  - simpl. destruct q; [congruence|reflexivity].
  - destruct root as [d0|w ents]; [exact Hq|]. cbn [put].
    destruct q as [|k2 q]; [discriminate|]. cbn [lookup] in Hq.
    destruct (list_eq_dec ascii_dec k2 k) as [->|Hk].
    + destruct (assoc k ents) as [sub|] eqn:Ea.
      * cbn [lookup]. rewrite assoc_set_same.
        apply IH; [exact Hq|congruence].
      * destruct c as [|k1 c]; [|cbn [lookup]; now rewrite Ea].
        cbn [lookup]. rewrite assoc_set_same.
        destruct q; [congruence|reflexivity].
    + destruct (assoc k ents) as [sub|] eqn:Ea.
      * cbn [lookup]. now rewrite assoc_set_other.
      * destruct c as [|k1 c]; cbn [lookup];
          [now rewrite assoc_set_other|exact Hq].
Qed.

(** After [rename] of a regular file the old path names nothing, unless
    old and new path were the same file. *)
Lemma rename_file_moves (root root' : node) (cwd : list cstr) (old new : cstr)
    (data : bytes) :
  locate root cwd old = Ok (File data) ->
  rename root cwd old new = Ok root' ->
  locate root' cwd old = Err ENOENT \/
  root' = root /\
  exists lo ln, resolve root cwd old = Ok lo /\ resolve root cwd new = Ok ln /\
                at_path lo = at_path ln.
Proof.
  intros Hloc. destruct (locate_file_inv _ _ _ Hloc) as (lo & Hro & Hlo & Hto).
  unfold rename. rewrite Hro.
  destruct (resolve root cwd new) as [ln|] eqn:Hrn; [|discriminate].
  rewrite Hlo, Hto. simpl orb.
  destruct (negb (named lo) || negb (named ln)); [discriminate|].
  destruct (trailing ln) eqn:Htn; [discriminate|].
  destruct (path_eqb (at_path lo) (at_path ln)) eqn:Heq.
  { intros H. injection H as <-. right. split; [reflexivity|].
    exists lo, ln. repeat split; auto. now apply path_eqb_eq. }
  apply path_eqb_false_neq in Heq.
  assert (Hmoved : dir_flag (lookup (at_path ln) root) = None ->
                   (if dir_writable (removelast (at_path lo)) root
                       && dir_writable (removelast (at_path ln)) root
                    then Ok (put (at_path ln) (File data)
                               (del (at_path lo) root))
                    else Err EACCES) = Ok root' ->
                   locate root' cwd old = Err ENOENT).
  { intros Hflag H.
    destruct (dir_writable (removelast (at_path lo)) root) eqn:Hw;
      [|discriminate].
    destruct (dir_writable (removelast (at_path ln)) root); [|discriminate].
    injection H as <-.
    assert (Hne : at_path lo <> []).
    { intros E. rewrite E in Hlo, Hw. simpl in Hlo. injection Hlo as ->.
      discriminate. }
    assert (Hk : forall q,
               dir_flag (lookup q (put (at_path ln) (File data)
                                     (del (at_path lo) root)))
               = dir_flag (lookup q root)).
    { intros q. rewrite put_file_dir_flag.
      - now apply del_dir_flag with (d := data).
      - rewrite (del_dir_flag _ _ _ Hlo). exact Hflag. }
    unfold locate. rewrite (@resolve_dir_flag root _ cwd old lo Hk Hro).
    rewrite put_file_keeps_none; [reflexivity| |exact Heq].
    now apply lookup_del_same with (d := data). }
  destruct (lookup (at_path ln) root) as [[d|w ents]|] eqn:Eln;
    try discriminate; intros H; left; now apply Hmoved.
Qed.

(** X13.  A successful upload moves the staged file: afterwards the source
    path names nothing, unless the source already was the file at the
    destination. *)
Theorem upload_file_consumes_source
    (nd : Node) (e : env) (st st1 : state) (filename dest_path : cstr)
    (data : bytes) :
  locate (fs st) (cwd e) filename = Ok (File data) ->
  upload_file nd e st filename dest_path = (0%Z, st1) ->
  locate (fs st1) (cwd e) filename = Err ENOENT \/
  exists lo ln,
    resolve (fs st1) (cwd e) filename = Ok lo /\
    resolve (fs st1) (cwd e)
      (snprintf MAX_PATH_LEN
         (local_path nd e dest_path ++ lit "/" ++ basename filename))
    = Ok ln /\
    at_path lo = at_path ln.
Proof.
  intros Hfile Hup.
  destruct (upload_file_ok_inv _ _ _ _ _ Hup)
    as (_ & st0 & root' & Hc & Hr & w & W).
  destruct (@create_directory_tree_spec e _ _ _ _ Hc)
    as (_ & _ & _ & Hgrow & _).
  pose proof (@locate_file_extends _ _ _ _ _ Hgrow Hfile) as Hfile0.
  destruct (write_inv _ _ _ W) as (Wfs & _). simpl in Wfs. rewrite Wfs.
  destruct (@rename_file_moves _ _ _ _ _ _ Hfile0 Hr)
    as [Hgone|(-> & lo & ln & H1 & H2 & H3)].
  - now left.
  - right. now exists lo, ln.
Qed.

Lemma upload_file_consumes_source_witness :
  exists st1,
    upload_file S2 env0 (connect fs0) (lit "/tmp/report.pdf") (lit "~S1/docs")
    = (0%Z, st1) /\
    stat (dir_size env0) (fs st1) [] (lit "/tmp/report.pdf") = Err ENOENT /\
    (locate (fs st1) (cwd env0) (lit "/tmp/report.pdf") = Err ENOENT \/
     exists lo ln,
       resolve (fs st1) (cwd env0) (lit "/tmp/report.pdf") = Ok lo /\
       resolve (fs st1) (cwd env0)
         (snprintf MAX_PATH_LEN
            (local_path S2 env0 (lit "~S1/docs") ++ lit "/"
             ++ basename (lit "/tmp/report.pdf")))
       = Ok ln /\
       at_path lo = at_path ln).
Proof.
  eexists. split; [vm_compute; reflexivity|].
  split; [vm_compute; reflexivity|].
  apply (@upload_file_consumes_source S2 env0 (connect fs0) _
           (lit "/tmp/report.pdf") (lit "~S1/docs") report).
  - vm_compute. reflexivity.
  - vm_compute. reflexivity.
Defined.
(** ** The archive of all files *)






(** ** What [find] selects *)

Lemma find_files_cons (nd : Node) (path : cstr) (w : bool) (k : cstr)
    (m : node) (l : list (cstr * node)) :
  find_files nd path (Dir w ((k, m) :: l))
  = match m with
    | File d => if ends_withb (ext nd) k then [(path ++ lit "/" ++ k, d)] else []
    | Dir _ _ => find_files nd (path ++ lit "/" ++ k) m
    end ++ find_files nd path (Dir w l).
Proof. reflexivity. Qed.

Lemma find_files_in (nd : Node) (path : cstr) (w : bool) (p : cstr)
    (d : bytes) :
  forall ents : list (cstr * node),
    In (p, d) (find_files nd path (Dir w ents)) <->
    exists k m,
      In (k, m) ents /\
      (m = File d /\ ends_withb (ext nd) k = true /\ p = path ++ lit "/" ++ k
       \/
       (exists w' ents', m = Dir w' ents') /\
       In (p, d) (find_files nd (path ++ lit "/" ++ k) m)).
Proof.
  induction ents as [|[k m] l IH].
  - split; [intros []|intros (k & m & [] & _)].
  - rewrite find_files_cons, in_app_iff, IH. split.
    + intros [H|(k' & m' & Hin & H)].
      * exists k, m. split; [now left|].
        destruct m as [d0|w0 e0].
        -- destruct (ends_withb (ext nd) k) eqn:Ee; [|destruct H].
           destruct H as [H|[]]. injection H as <- <-. now left.
        -- right. split; [now exists w0, e0|exact H].
      * exists k', m'. split; [now right|exact H].
    + intros (k' & m' & [Hin|Hin] & H).
      * injection Hin as <- <-. left.
        destruct H as [(-> & -> & ->)|((w0 & e0 & ->) & H)];
          [now left|exact H].
      * right. now exists k', m'.
Qed.

Lemma distinct_names_cons (w : bool) (k : cstr) (m : node)
    (l : list (cstr * node)) :
  distinct_names (Dir w ((k, m) :: l))
  = negb (existsb (fun km => streq k (fst km)) l)
    && distinct_names m && distinct_names (Dir w l).
Proof. reflexivity. Qed.

(** In a directory without repeated names every entry is the one its name
    looks up. *)
Lemma distinct_names_entry (w : bool) (k : cstr) (m : node) :
  forall ents : list (cstr * node),
    distinct_names (Dir w ents) = true -> In (k, m) ents ->
    assoc k ents = Some m /\ distinct_names m = true.
Proof.
  induction ents as [|[k0 m0] l IH]; intros Hd Hin; [destruct Hin|].
  rewrite distinct_names_cons in Hd.
  apply andb_true_iff in Hd as [Hd Hl]. apply andb_true_iff in Hd as [Hn Hm].
  cbn [assoc]. destruct Hin as [Hin|Hin].
  - injection Hin as <- <-. now rewrite streq_refl.
  - destruct (streq k k0) eqn:Ek.
    + apply streq_true_iff in Ek. subst k0.
      apply negb_true_iff in Hn.
      assert (Hx : existsb (fun km => streq k (fst km)) l = true).
      { apply existsb_exists. exists (k, m). split; [exact Hin|].
        apply streq_refl. }
      congruence.
    + now apply IH.
Qed.

Lemma join_path_cons (path k : cstr) (ks : list cstr) :
  join_path path (k :: ks) = join_path (path ++ lit "/" ++ k) ks.
Proof. unfold join_path. cbn [map concat]. now rewrite !app_assoc. Qed.

Lemma find_files_sound (nd : Node) (p : cstr) (d : bytes) (h : nat) :
  forall (n : node) (path : cstr),
    height n <= h -> distinct_names n = true ->
    In (p, d) (find_files nd path n) ->
    exists ks, ks <> [] /\ p = join_path path ks /\
               lookup ks n = Some (File d) /\
               ends_withb (ext nd) (last ks []) = true.
Proof.
  induction h as [|h IH]; intros n path Hh Hd Hin.
  - destruct n as [d0|w ents]; [destruct Hin|].
    pose proof (height_dir_pos w ents). lia.
  - destruct n as [d0|w ents]; [destruct Hin|].
    apply find_files_in in Hin as (k & m & Hkm & H).
    destruct (@distinct_names_entry w k m ents Hd Hkm) as [Ha Hdm].
    destruct H as [(-> & He & ->)|(_ & H)].
    + exists [k]. split; [discriminate|].
      split; [unfold join_path; cbn [map concat]; now rewrite app_nil_r|].
      split; [cbn [lookup]; now rewrite Ha|exact He].
    + pose proof (@height_entry w ents k m Hkm) as Hlt.
      destruct (IH m (path ++ lit "/" ++ k)) as (ks & Hne & -> & Hl & He);
        [lia|exact Hdm|exact H|].
      exists (k :: ks). split; [discriminate|].
      split; [now rewrite join_path_cons|].
      split; [cbn [lookup]; now rewrite Ha|].
      destruct ks; [congruence|exact He].
Qed.

Lemma find_files_complete (nd : Node) (d : bytes) :
  forall (ks : list cstr) (n : node) (path : cstr),
    ks <> [] -> lookup ks n = Some (File d) ->
    ends_withb (ext nd) (last ks []) = true ->
    In (join_path path ks, d) (find_files nd path n).
Proof.
  induction ks as [|k ks IH]; intros n path Hne Hl He; [congruence|].
  destruct n as [d0|w ents]; [discriminate|]. cbn [lookup] in Hl.
  destruct (assoc k ents) as [m|] eqn:Ea; [|discriminate].
  apply assoc_in in Ea. apply find_files_in. exists k, m.
  split; [exact Ea|]. destruct ks as [|k2 ks].
  - cbn [lookup] in Hl. injection Hl as ->. left.
    split; [reflexivity|]. split; [exact He|].
    unfold join_path. cbn [map concat]. now rewrite app_nil_r.
  - right. destruct m as [d1|w1 e1]; [discriminate|].
    split; [now exists w1, e1|]. rewrite join_path_cons.
    apply IH; [discriminate|exact Hl|exact He].
Qed.

(** X15.  In a tree whose directories hold no name twice, the members the
    [find] of [downltar] hands to [tar] are exactly the regular files below
    the starting directory whose own name ends in the extension, each under
    the starting path followed by its names; a directory with such a name
    is entered, not archived. *)
Theorem find_files_exactly_owned_files
    (nd : Node) (path : cstr) (n : node) (p : cstr) (d : bytes) :
  distinct_names n = true ->
  (In (p, d) (find_files nd path n) <->
   exists ks, ks <> [] /\ p = join_path path ks /\
              lookup ks n = Some (File d) /\
              ends_with (ext nd) (last ks [])).
Proof.
  intros Hd. split.
  - intros Hin.
    destruct (@find_files_sound nd p d (height n) n path (le_n _) Hd Hin)
      as (ks & Hne & Hp & Hl & He).
    exists ks. apply ends_withb_spec in He. auto.
  - intros (ks & Hne & -> & Hl & He). apply ends_withb_spec in He.
    now apply find_files_complete.
Qed.

Lemma find_files_exactly_owned_files_witness :
  find_files S2 [] fs_mixed
  = [ (lit "/home/u/S2/docs/report.pdf", report);
      (lit "/home/u/S2/docs/old.pdf/scan.pdf", lit "scan") ] /\
  (In (lit "/home/u/S2/docs/old.pdf/scan.pdf", lit "scan")
      (find_files S2 [] fs_mixed)
   <->
   exists ks, ks <> [] /\
              lit "/home/u/S2/docs/old.pdf/scan.pdf" = join_path [] ks /\
              lookup ks fs_mixed = Some (File (lit "scan")) /\
              ends_with (ext S2) (last ks [])).
Proof.
  split; [vm_compute; reflexivity|].
  apply (@find_files_exactly_owned_files S2 [] fs_mixed
           (lit "/home/u/S2/docs/old.pdf/scan.pdf") (lit "scan")).
  reflexivity.
Defined.
(** ** The listing, line by line *)

Lemma tree_lines_cons (nd : Node) (rel : cstr) (w : bool) (k : cstr)
    (m : node) (l : list (cstr * node)) :
  tree_lines nd rel (Dir w ((k, m) :: l))
  = match m with
    | File _ =>
        if has_ext nd k then [output_path_of rel k ++ [LF]] else []
    | Dir _ _ =>
        tree_lines nd
          (if streq rel []
           then snprintf MAX_PATH_LEN k
           else snprintf MAX_PATH_LEN (rel ++ lit "/" ++ k))
          m
    end ++ tree_lines nd rel (Dir w l).
Proof. reflexivity. Qed.

Section ListingExact.

Variable nd : Node.
Variable e : env.
Variable root : node.

Lemma readdir_loop_exact
    (recurse : cstr -> cstr -> cstr -> option cstr)
    (base_path relative_path : cstr) (w : bool) :
  forall l : list (cstr * node),
    (forall k w' ents', In (k, Dir w' ents') l ->
       forall X,
         recurse (snprintf MAX_PATH_LEN (base_path ++ lit "/" ++ k))
           (if streq relative_path []
            then snprintf MAX_PATH_LEN k
            else snprintf MAX_PATH_LEN (relative_path ++ lit "/" ++ k))
           (firstn (BUFFER_SIZE - 1) X)
         = Some (firstn (BUFFER_SIZE - 1)
                   (X ++ concat
                      (tree_lines nd
                         (if streq relative_path []
                          then snprintf MAX_PATH_LEN k
                          else snprintf MAX_PATH_LEN
                                 (relative_path ++ lit "/" ++ k))
                         (Dir w' ents'))))) ->
    (forall k m, In (k, m) l -> is_entry_name k = true) ->
    forall X,
      readdir_loop nd recurse base_path relative_path (map dirent_of l)
        (firstn (BUFFER_SIZE - 1) X)
      = Some (firstn (BUFFER_SIZE - 1)
                (X ++ concat (tree_lines nd relative_path (Dir w l)))).
Proof.
  induction l as [|[k m] l IH]; intros Hrec Hnames X.
  - cbn [map readdir_loop tree_lines concat]. now rewrite app_nil_r.
  - assert (Hrest : forall Y,
               readdir_loop nd recurse base_path relative_path
                 (map dirent_of l) (firstn (BUFFER_SIZE - 1) Y)
               = Some (firstn (BUFFER_SIZE - 1)
                         (Y ++ concat
                            (tree_lines nd relative_path (Dir w l))))).
    { apply IH.
      - intros k' w' ents' Hin. apply Hrec. now right.
      - intros k' m' Hin. apply (Hnames k' m'). now right. }
    destruct (is_entry_name_inv _ (Hnames k m (or_introl eq_refl)))
      as (_ & _ & Hdot & Hdd).
    cbn [map readdir_loop dirent_of d_name d_type fst snd].
    rewrite Hdot, Hdd. cbn [orb].
    rewrite tree_lines_cons, concat_app.
    destruct m as [d|w' ents'].
    + destruct (has_ext nd k).
      * rewrite !strncat_cut. rewrite Hrest. do 2 f_equal.
        unfold output_path_of. cbn [concat].
        rewrite app_nil_r. now rewrite <- !app_assoc.
      * apply Hrest.
    + rewrite (Hrec k w' ents' (or_introl eq_refl)). rewrite Hrest.
      do 2 f_equal. now rewrite <- app_assoc.
Qed.

(** In a well-named tree without repeated names whose paths fit the path
    buffers, the traversal appends the lines of the tree, in order, and
    cuts at the capacity of the reply buffer. *)
Lemma list_pdf_files_exact (fuel : nat) :
  forall (base_path relative_path : cstr) (w : bool)
         (ents : list (cstr * node)) (X : cstr),
    locate root (cwd e) base_path = Ok (Dir w ents) ->
    well_named (Dir w ents) = true ->
    distinct_names (Dir w ents) = true ->
    length base_path + reach (Dir w ents) < MAX_PATH_LEN ->
    height (Dir w ents) <= fuel ->
    list_pdf_files nd e fuel root base_path relative_path
      (firstn (BUFFER_SIZE - 1) X)
    = Some (firstn (BUFFER_SIZE - 1)
              (X ++ concat (tree_lines nd relative_path (Dir w ents)))).
Proof.
  induction fuel as [|fuel IH];
    intros base_path relative_path w ents X Hloc Hwn Hdn Hfit Hh.
  { pose proof (height_dir_pos w ents). lia. }
  cbn [list_pdf_files]. unfold opendir. rewrite Hloc.
  change (readdir_loop nd (list_pdf_files nd e fuel root) base_path
            relative_path (map dirent_of ents) (firstn (BUFFER_SIZE - 1) X)
          = Some (firstn (BUFFER_SIZE - 1)
                    (X ++ concat
                       (tree_lines nd relative_path (Dir w ents))))).
  apply readdir_loop_exact.
  - intros k w' ents' Hin Y.
    destruct (@well_named_entry _ _ _ _ Hwn Hin) as [Hk Hwn1].
    destruct (@distinct_names_entry w k (Dir w' ents') ents Hdn Hin)
      as [Ha Hdn1].
    pose proof (@reach_entry w _ _ _ Hin) as Hr.
    pose proof (@height_entry w _ _ _ Hin) as Hhe.
    assert (Hlen : length (base_path ++ lit "/" ++ k) < MAX_PATH_LEN).
    { rewrite !length_app. simpl length at 2. lia. }
    rewrite snprintf_fits by exact Hlen.
    apply IH; auto.
    + rewrite (@locate_child _ _ _ _ _ _ Hloc Hk). now rewrite Ha.
    + rewrite !length_app. simpl length at 2. lia.
    + lia.
  - intros k m Hin. now destruct (@well_named_entry _ _ _ _ Hwn Hin).
Qed.

End ListingExact.

(** X16.  When the listed path is a directory whose tree is well named,
    holds no name twice, fits the path buffers and is no higher than the
    fuel, the listing returns 0 and its one write is the lines of the
    tree (depth first, in directory order, one line per regular file with
    the owned extension) cut to the 1023 characters of the reply buffer:
    no such file is left out before the buffer is full. *)
Theorem display_filenames_lists_the_tree
    (nd : Node) (e : env) (fuel : nat) (st : state) (pathname : cstr)
    (w : bool) (ents : list (cstr * node)) :
  locate (fs st) (cwd e) (listing_path nd e pathname) = Ok (Dir w ents) ->
  well_named (Dir w ents) = true ->
  distinct_names (Dir w ents) = true ->
  length (listing_path nd e pathname) + reach (Dir w ents) < MAX_PATH_LEN ->
  height (Dir w ents) <= fuel ->
  exists st',
    display_filenames nd e fuel st pathname = Some (0%Z, st') /\
    fs st' = fs st /\
    wlog (sk st')
    = wlog (sk st)
      ++ [firstn (BUFFER_SIZE - 1) (concat (tree_lines nd [] (Dir w ents)))].
Proof.
  intros Hloc Hwn Hdn Hfit Hh. unfold display_filenames, stat.
  rewrite Hloc. cbn [st_isdir negb].
  change (@nil ascii) with (firstn (BUFFER_SIZE - 1) (@nil ascii)) at 2.
  rewrite (@list_pdf_files_exact nd e (fs st) fuel _ [] w ents [])
    by assumption.
  cbn [app].
  destruct (write st _ _) as [r st1] eqn:W.
  destruct (write_inv _ _ _ W) as (Wfs & _ & Wlog & _).
  exists st1. split; [reflexivity|]. split; [exact Wfs|].
  rewrite Wlog. now rewrite firstn_all.
Qed.

Lemma display_filenames_lists_the_tree_witness :
  exists st',
    display_filenames S2 env0 3 (connect fs_mixed) (lit "~S1/docs")
    = Some (0%Z, st') /\
    fs st' = fs (connect fs_mixed) /\
    wlog (sk st')
    = wlog (sk (connect fs_mixed))
      ++ [firstn (BUFFER_SIZE - 1)
            (concat
               (tree_lines S2 []
                  (Dir true
                     [ (lit "report.pdf", File report);
                       (lit "notes.txt", File (lit "plain"));
                       (lit "old.pdf",
                        Dir true [ (lit "scan.pdf", File (lit "scan")) ]) ])))].
Proof.
  apply (@display_filenames_lists_the_tree S2 env0 3 (connect fs_mixed)
           (lit "~S1/docs") true).
  - vm_compute. reflexivity.
  - reflexivity.
  - reflexivity.
  - vm_compute. lia.
  - vm_compute. lia.
Defined.
Lemma tree_lines_file (nd : Node) (rel : cstr) (w : bool) (k : cstr)
    (d : bytes) :
  forall ents : list (cstr * node),
    In (k, File d) ents -> has_ext nd k = true ->
    In (output_path_of rel k ++ [LF]) (tree_lines nd rel (Dir w ents)).
Proof.
  induction ents as [|[k0 m0] l IH]; intros Hin He; [destruct Hin|].
  rewrite tree_lines_cons. apply in_or_app. destruct Hin as [Hin|Hin].
  - injection Hin as -> ->. left. rewrite He. now left.
  - right. now apply IH.
Qed.

Lemma tree_lines_dir (nd : Node) (rel : cstr) (w : bool) (k : cstr)
    (w' : bool) (ents' : list (cstr * node)) (x : cstr) :
  forall ents : list (cstr * node),
    In (k, Dir w' ents') ents ->
    In x (tree_lines nd
            (if streq rel []
             then snprintf MAX_PATH_LEN k
             else snprintf MAX_PATH_LEN (rel ++ lit "/" ++ k))
            (Dir w' ents')) ->
    In x (tree_lines nd rel (Dir w ents)).
Proof.
  induction ents as [|[k0 m0] l IH]; intros Hin Hx; [destruct Hin|].
  rewrite tree_lines_cons. apply in_or_app. destruct Hin as [Hin|Hin].
  - injection Hin as -> ->. now left.
  - right. now apply IH.
Qed.

(** Every owned file below [n] has its line among the lines of the tree,
    when the relative paths fit the path buffer. *)
Lemma tree_lines_complete (nd : Node) (d : bytes) :
  forall (ks : list cstr) (n : node) (rel : cstr),
    ks <> [] -> lookup ks n = Some (File d) ->
    has_ext nd (last ks []) = true ->
    well_named n = true ->
    length rel + reach n + 4 < MAX_PATH_LEN ->
    In (lit "~S1/"
        ++ (if streq rel [] then slash_join ks
            else rel ++ lit "/" ++ slash_join ks)
        ++ [LF])
       (tree_lines nd rel n).
Proof.
  induction ks as [|k ks IH]; intros n rel Hne Hl He Hwn Hfit; [congruence|].
  destruct n as [d0|w ents]; [discriminate|]. cbn [lookup] in Hl.
  destruct (assoc k ents) as [m|] eqn:Ea; [|discriminate].
  apply assoc_in in Ea.
  destruct (@well_named_entry _ _ _ _ Hwn Ea) as [Hk Hwm].
  pose proof (@reach_entry w _ _ _ Ea) as Hr.
  pose proof (eq_refl : MAX_PATH_LEN = 1024) as HM.
  assert (Hk1 : snprintf MAX_PATH_LEN k = k).
  { apply snprintf_fits. lia. }
  assert (Hk2 : snprintf MAX_PATH_LEN (rel ++ lit "/" ++ k)
                = rel ++ lit "/" ++ k).
  { apply snprintf_fits. rewrite !length_app. simpl length. lia. }
  destruct ks as [|k2 ks].
  - cbn [lookup] in Hl. injection Hl as ->. cbn [last] in He.
    pose proof (@tree_lines_file nd rel w k d ents Ea He) as Hin.
    unfold output_path_of in Hin. cbn [slash_join].
    revert Hin. destruct (streq rel []); intros Hin.
    + rewrite Hk1, snprintf_fits, <- app_assoc in Hin; [exact Hin|].
      rewrite length_app. simpl length. lia.
    + rewrite Hk2, snprintf_fits, <- app_assoc in Hin; [exact Hin|].
      rewrite !length_app. simpl length. lia.
  - destruct m as [d1|w1 e1]; [discriminate|].
    apply tree_lines_dir with (k := k) (w' := w1) (ents' := e1);
      [exact Ea|].
    change (slash_join (k :: k2 :: ks))
      with (k ++ lit "/" ++ slash_join (k2 :: ks)).
    destruct (is_entry_name_inv _ Hk) as (Hn & _).
    destruct (streq rel []) eqn:Erel.
    + rewrite Hk1.
      assert (Hnz : streq k [] = false).
      { apply streq_false_iff. destruct k; [discriminate|congruence]. }
      pose proof (IH (Dir w1 e1) k) as IHk. rewrite Hnz in IHk.
      apply IHk; auto; [discriminate|]. lia.
    + rewrite Hk2.
      assert (Hnz : streq (rel ++ lit "/" ++ k) [] = false).
      { apply streq_false_iff. destruct rel; discriminate. }
      pose proof (IH (Dir w1 e1) (rel ++ lit "/" ++ k)) as IHk.
      rewrite Hnz in IHk. rewrite <- !app_assoc in IHk.
      rewrite <- !app_assoc.
      apply IHk; auto; [discriminate|].
      rewrite !length_app. simpl length. lia.
Qed.

(** X17.  Under the conditions of X16, when also the relative paths fit
    the path buffer behind the root marker and the whole listing fits the
    reply buffer, every regular file below the listed directory whose
    name passes the extension test has its own line in the reply: the
    root marker, the names from the listed directory down to the file
    joined by slashes, and a line feed. *)
Theorem display_filenames_lists_every_owned_file
    (nd : Node) (e : env) (fuel : nat) (st : state) (pathname : cstr)
    (w : bool) (ents : list (cstr * node)) :
  locate (fs st) (cwd e) (listing_path nd e pathname) = Ok (Dir w ents) ->
  well_named (Dir w ents) = true ->
  distinct_names (Dir w ents) = true ->
  length (listing_path nd e pathname) + reach (Dir w ents) < MAX_PATH_LEN ->
  reach (Dir w ents) + 4 < MAX_PATH_LEN ->
  height (Dir w ents) <= fuel ->
  length (concat (tree_lines nd [] (Dir w ents))) < BUFFER_SIZE ->
  exists st' reply,
    display_filenames nd e fuel st pathname = Some (0%Z, st') /\
    wlog (sk st') = wlog (sk st) ++ [reply] /\
    forall ks d,
      ks <> [] -> lookup ks (Dir w ents) = Some (File d) ->
      has_ext nd (last ks []) = true ->
      exists before after,
        reply = before ++ (lit "~S1/" ++ slash_join ks ++ [LF]) ++ after.
Proof.
  intros Hloc Hwn Hdn Hfit Hrel Hh Hbuf. unfold display_filenames, stat.
  rewrite Hloc. cbn [st_isdir negb].
  change (@nil ascii) with (firstn (BUFFER_SIZE - 1) (@nil ascii)) at 2.
  rewrite (@list_pdf_files_exact nd e (fs st) fuel _ [] w ents [])
    by assumption.
  cbn [app].
  rewrite (firstn_all2 (n := BUFFER_SIZE - 1)) by lia.
  destruct (write st _ _) as [r st1] eqn:W.
  destruct (write_inv _ _ _ W) as (Wfs & _ & Wlog & _).
  exists st1, (concat (tree_lines nd [] (Dir w ents))).
  split; [reflexivity|]. split; [rewrite Wlog; now rewrite firstn_all|].
  intros ks d Hne Hl He.
  pose proof (@tree_lines_complete nd d ks (Dir w ents) [] Hne Hl He Hwn)
    as Hin.
  cbn [length Nat.add] in Hin. specialize (Hin Hrel).
  change (streq [] []) with true in Hin. cbv iota in Hin.
  apply in_split in Hin as (l1 & l2 & ->).
  exists (concat l1), (concat l2).
  now rewrite concat_app.
Qed.

Lemma display_filenames_lists_every_owned_file_witness :
  exists st' reply,
    display_filenames S2 env0 3 (connect fs_mixed) (lit "~S1")
    = Some (0%Z, st') /\
    wlog (sk st') = wlog (sk (connect fs_mixed)) ++ [reply] /\
    forall ks d,
      ks <> [] ->
      lookup ks
        (Dir true
           [ (lit "docs",
              Dir true
                [ (lit "report.pdf", File report);
                  (lit "notes.txt", File (lit "plain"));
                  (lit "old.pdf",
                   Dir true [ (lit "scan.pdf", File (lit "scan")) ]) ]);
             (lit "misc",
              Dir true
                [ (lit "a.txt", File (lit "a"));
                  (lit "b.zip", File (lit "b")) ]) ])
      = Some (File d) ->
      has_ext S2 (last ks []) = true ->
      exists before after,
        reply = before ++ (lit "~S1/" ++ slash_join ks ++ [LF]) ++ after.
Proof.
  apply (@display_filenames_lists_every_owned_file S2 env0 3
           (connect fs_mixed) (lit "~S1") true).
  - vm_compute. reflexivity.
  - reflexivity.
  - reflexivity.
  - vm_compute. lia.
  - vm_compute. lia.
  - vm_compute. lia.
  - vm_compute. lia.
Defined.
Lemma put_file_keeps_files (d : bytes) :
  forall (c : list cstr) (root : node) (q : list cstr) (d2 : bytes),
    lookup q root = Some (File d2) -> q <> c ->
    dir_flag (lookup c root) = None ->
    lookup q (put c (File d) root) = Some (File d2).
Proof.
  induction c as [|k c IH]; intros root q d2 Hq Hne Hc.
  - destruct q as [|k2 q]; [congruence|].
    destruct root as [d0|w ents]; discriminate.
  - destruct root as [d0|w ents]; [exact Hq|]. cbn [put].
    destruct q as [|k2 q]; [discriminate|]. cbn [lookup] in Hq, Hc.
    destruct (list_eq_dec ascii_dec k2 k) as [->|Hk].
    + destruct (assoc k ents) as [sub|] eqn:Ea; [|discriminate].
      cbn [lookup]. rewrite assoc_set_same.
      apply IH; [exact Hq|congruence|exact Hc].
    + destruct (assoc k ents) as [sub|] eqn:Ea.
      * cbn [lookup]. now rewrite assoc_set_other.
      * destruct c as [|k1 c]; cbn [lookup];
          [now rewrite assoc_set_other|exact Hq].
Qed.

(** [rename] of a regular file leaves the directories as they are and
    every file at a third path with its contents. *)
Lemma rename_file_keeps (root root' : node) (cwd : list cstr) (old new : cstr)
    (data : bytes) :
  locate root cwd old = Ok (File data) ->
  rename root cwd old new = Ok root' ->
  (forall q, dir_flag (lookup q root') = dir_flag (lookup q root)) /\
  exists lo ln,
    resolve root cwd old = Ok lo /\ resolve root cwd new = Ok ln /\
    forall q d2, lookup q root = Some (File d2) ->
                 q <> at_path lo -> q <> at_path ln ->
                 lookup q root' = Some (File d2).
Proof.
  intros Hloc. destruct (locate_file_inv _ _ _ Hloc) as (lo & Hro & Hlo & Hto).
  unfold rename. rewrite Hro.
  destruct (resolve root cwd new) as [ln|] eqn:Hrn; [|discriminate].
  rewrite Hlo, Hto. simpl orb.
  destruct (negb (named lo) || negb (named ln)); [discriminate|].
  destruct (trailing ln) eqn:Htn; [discriminate|].
  destruct (path_eqb (at_path lo) (at_path ln)) eqn:Heq.
  { intros H. injection H as <-. split; [reflexivity|].
    exists lo, ln. auto. }
  assert (Hmoved : dir_flag (lookup (at_path ln) root) = None ->
                   (if dir_writable (removelast (at_path lo)) root
                       && dir_writable (removelast (at_path ln)) root
                    then Ok (put (at_path ln) (File data)
                               (del (at_path lo) root))
                    else Err EACCES) = Ok root' ->
                   (forall q, dir_flag (lookup q root')
                              = dir_flag (lookup q root)) /\
                   forall q d2, lookup q root = Some (File d2) ->
                                q <> at_path lo -> q <> at_path ln ->
                                lookup q root' = Some (File d2)).
  { intros Hflag H.
    destruct (dir_writable (removelast (at_path lo)) root
              && dir_writable (removelast (at_path ln)) root);
      [|discriminate].
    injection H as <-.
    assert (Hflag' : dir_flag (lookup (at_path ln) (del (at_path lo) root))
                     = None).
    { rewrite (del_dir_flag _ _ _ Hlo). exact Hflag. }
    split.
    - intros q. rewrite put_file_dir_flag by exact Hflag'.
      now apply del_dir_flag with (d := data).
    - intros q d2 Hq Hqo Hqn.
      apply put_file_keeps_files; [|exact Hqn|exact Hflag'].
      now apply del_keeps_files with (d := data). }
  intros H. enough (Hm : (forall q, dir_flag (lookup q root')
                                    = dir_flag (lookup q root)) /\
                         forall q d2, lookup q root = Some (File d2) ->
                                      q <> at_path lo -> q <> at_path ln ->
                                      lookup q root' = Some (File d2)).
  { destruct Hm as [Hk Hq]. split; [exact Hk|]. exists lo, ln. auto. }
  destruct (lookup (at_path ln) root) as [[d|w ents]|] eqn:Eln;
    try discriminate; now apply Hmoved.
Qed.

(** X18.  A successful upload of a regular file touches two names only:
    every other regular file is afterwards where it was, with the contents
    it had.  A file that is not, is the uploaded source or stood at the
    destination name, which the move replaces without asking. *)
Theorem upload_file_keeps_other_files
    (nd : Node) (e : env) (st st1 : state) (filename dest_path : cstr)
    (data : bytes) (p : cstr) (d2 : bytes) :
  locate (fs st) (cwd e) filename = Ok (File data) ->
  upload_file nd e st filename dest_path = (0%Z, st1) ->
  locate (fs st) (cwd e) p = Ok (File d2) ->
  locate (fs st1) (cwd e) p = Ok (File d2) \/
  exists x l lx,
    (x = filename \/
     x = snprintf MAX_PATH_LEN
           (local_path nd e dest_path ++ lit "/" ++ basename filename)) /\
    resolve (fs st1) (cwd e) p = Ok l /\
    resolve (fs st1) (cwd e) x = Ok lx /\
    at_path l = at_path lx.
Proof.
  intros Hfile Hup Hp.
  destruct (upload_file_ok_inv _ _ _ _ _ Hup)
    as (_ & st0 & root' & Hc & Hr & w & W).
  destruct (@create_directory_tree_spec e _ _ _ _ Hc)
    as (_ & _ & _ & Hgrow & _).
  pose proof (@locate_file_extends _ _ _ _ _ Hgrow Hfile) as Hfile0.
  pose proof (@locate_file_extends _ _ _ _ _ Hgrow Hp) as Hp0.
  destruct (write_inv _ _ _ W) as (Wfs & _). simpl in Wfs. rewrite Wfs.
  destruct (@rename_file_keeps _ _ _ _ _ _ Hfile0 Hr)
    as (Hk & lo & ln & Hro & Hrn & Hkeep).
  destruct (locate_file_inv _ _ _ Hp0) as (l & Hrl & Hl & Htl).
  pose proof (@resolve_dir_flag (fs st0) root' (cwd e) p l Hk Hrl) as Hrl'.
  destruct (list_eq_dec (list_eq_dec ascii_dec) (at_path l) (at_path lo))
    as [Eo|No].
  { right. exists filename, l, lo. split; [now left|].
    split; [exact Hrl'|]. split; [|exact Eo].
    apply (@resolve_dir_flag (fs st0) root' (cwd e) filename lo Hk Hro). }
  destruct (list_eq_dec (list_eq_dec ascii_dec) (at_path l) (at_path ln))
    as [En|Nn].
  { right. eexists _, l, ln. split; [right; reflexivity|].
    split; [exact Hrl'|]. split; [|exact En].
    apply (@resolve_dir_flag (fs st0) root' (cwd e) _ ln Hk Hrn). }
  left. apply locate_file_intro with (l := l); auto.
Qed.

Lemma upload_file_keeps_other_files_witness :
  exists st1,
    upload_file S2 env0 (connect fs1) (lit "/home/u/S2/docs/report.pdf")
      (lit "~S1/new")
    = (0%Z, st1) /\
    (locate (fs st1) (cwd env0) (lit "/tmp/notes.txt")
     = Ok (File (lit "plain")) \/
     exists x l lx,
       (x = lit "/home/u/S2/docs/report.pdf" \/
        x = snprintf MAX_PATH_LEN
              (local_path S2 env0 (lit "~S1/new") ++ lit "/"
               ++ basename (lit "/home/u/S2/docs/report.pdf"))) /\
       resolve (fs st1) (cwd env0) (lit "/tmp/notes.txt") = Ok l /\
       resolve (fs st1) (cwd env0) x = Ok lx /\
       at_path l = at_path lx).
Proof.
  eexists. split; [vm_compute; reflexivity|].
  apply (@upload_file_keeps_other_files S2 env0 (connect fs1) _
           (lit "/home/u/S2/docs/report.pdf") (lit "~S1/new") report
           (lit "/tmp/notes.txt") (lit "plain")).
  - vm_compute. reflexivity.
  - vm_compute. reflexivity.
  - vm_compute. reflexivity.
Defined.
(** ** The transfer loops end *)

Lemma send_archive_total (fuel : nat) :
  forall (st : state) (fd : fdesc) (remaining : Z),
    Z.to_nat remaining <= fuel ->
    exists ok st', send_archive fuel st fd remaining = Some (ok, st').
Proof.
  induction fuel as [|fuel IH]; intros st fd remaining Hf.
  - simpl. destruct (Z.gtb_spec remaining 0); [lia|eauto].
  - cbn [send_archive].
    destruct (Z.gtb_spec remaining 0) as [Hpos|Hle]; [|eauto].
    destruct (sendfile st fd (Z.to_nat remaining)) as [[n fd1] st1].
    destruct (Z.leb_spec n 0) as [Hn|Hn].
    + destruct (write st1 transfer_failed 27); eauto.
    + apply IH. lia.
Qed.

(** X19.  A download cannot keep the worker busy forever: whatever the
    socket and the reads do, [download_file] returns, with 0 or -1, within
    as many rounds of its loop as the file has bytes, because every round
    either moves at least one byte or ends the transfer. *)
Theorem download_file_returns
    (nd : Node) (e : env) (fuel : nat) (st : state) (filename : cstr) :
  (forall s, stat (dir_size e) (fs st) (cwd e) (local_path nd e filename) = Ok s ->
             Z.to_nat (st_size s) <= fuel) ->
  exists r st',
    download_file nd e fuel st filename = Some (r, st') /\
    (r = 0%Z \/ r = (-1)%Z).
Proof.
  intros Hf. unfold download_file.
  destruct (stat (dir_size e) (fs st) (cwd e) (local_path nd e filename)) as [s|] eqn:Es.
  - destruct (open (fs st) (cwd e) (local_path nd e filename)) as [fd|].
    + destruct (write st (off_t_bytes (st_size s)) sizeof_off_t) as [w st1].
      destruct (negb (w =? Z.of_nat sizeof_off_t)%Z).
      * destruct (write st1 _ 31); eauto.
      * destruct (@send_data_total fuel st1 fd (st_size s) (Hf s eq_refl))
          as (r & st' & H).
        exists r, st'. split; [exact H|].
        destruct (send_data_inv _ _ _ _ H)
          as (_ & payload & calls & _ & [(-> & _)|(-> & _)]); auto.
    + destruct (write st (msg_open_failed nd) 29); eauto.
  - destruct (write st (msg_not_found nd) 30); eauto.
Qed.

Lemma download_file_returns_witness :
  exists r st',
    download_file S2 env0 15
      (connect_with fs1 [WUpTo 8; WUpTo 7; WUpTo 3] [RUpTo 7])
      (lit "~S1/docs/report.pdf")
    = Some (r, st') /\
    (r = 0%Z \/ r = (-1)%Z).
Proof.
  apply (@download_file_returns S2 env0 15
           (connect_with fs1 [WUpTo 8; WUpTo 7; WUpTo 3] [RUpTo 7])
           (lit "~S1/docs/report.pdf")).
  intros s H. vm_compute in H. injection H as <-. vm_compute. lia.
Defined.

(** X20.  The same holds for [downltar]: once the fuel covers the size of
    the temporary archive, [download_tar] returns 0 or -1 whatever the
    socket does. *)
Theorem download_tar_returns
    (tar_format : list (cstr * bytes) -> bytes) (nd : Node) (e : env)
    (fuel : nat) (st : state) (tarfile : cstr) :
  (forall s,
     stat (dir_size e) (fs (snd (system_find_tar tar_format nd e st
                      (snprintf MAX_PATH_LEN (HOME e ++ lit "/" ++ store nd))
                      tarfile)))
          (cwd e) tarfile = Ok s ->
     Z.to_nat (st_size s) <= fuel) ->
  exists r st',
    download_tar tar_format nd e fuel st tarfile = Some (r, st') /\
    (r = 0%Z \/ r = (-1)%Z).
Proof.
  unfold download_tar.
  destruct (system_find_tar tar_format nd e st _ tarfile) as [status st0].
  cbn [snd]. intros Hf.
  destruct (negb (status =? 0)%Z).
  { destruct (write st0 _ 32); eauto. }
  destruct (stat (dir_size e) (fs st0) (cwd e) tarfile) as [s|].
  2:{ destruct (write st0 _ 25); eauto. }
  destruct (open (fs st0) (cwd e) tarfile) as [fd|].
  2:{ destruct (write st0 _ 30); eauto. }
  destruct (write st0 _ sizeof_off_t) as [w st1].
  destruct (@send_archive_total fuel st1 fd (st_size s) (Hf s eq_refl))
    as ([|] & st2 & ->).
  - destruct (unlink (fs st2) (cwd e) tarfile); eauto.
  - eauto.
Qed.

Lemma download_tar_returns_witness :
  exists r st',
    download_tar flat_archive S2 env0 41
      (connect_with fs1 [WUpTo 8; WUpTo 5; WErr] [])
      (lit "/tmp/pdffiles.tar")
    = Some (r, st') /\
    (r = 0%Z \/ r = (-1)%Z).
Proof.
  apply (@download_tar_returns flat_archive S2 env0 41
           (connect_with fs1 [WUpTo 8; WUpTo 5; WErr] [])
           (lit "/tmp/pdffiles.tar")).
  intros s H. vm_compute in H. injection H as <-. vm_compute. lia.
Defined.
